(** * Trusted Firmware-M: mailbox queue engine and connection API

    A shallow embedding of
    - [secure_fw/partitions/ns_agent_mailbox/tfm_spe_mailbox.c]
    - [secure_fw/spm/core/psa_connection_api.c]
    - [secure_fw/spm/core/tfm_boot_data.c]
    together with the properties their specification states about them.

    Integers of the C code are [Z] with the wrap-around written out, arrays
    are lists read and written by index, the file-scope objects
    [spe_mailbox_queue] and [vectors] are fields of an explicit state, and
    every function that touches them is a computation in a small
    state-and-fault monad that also records the calls it makes.

    That state keeps the callers' descriptor arrays apart from [vectors].
    The two functions that go through the callers' pointers are embedded a
    second time, in [Words], over one memory in which the arrays may lie
    anywhere; what is stated about the callers' descriptors is stated
    there. *)

From Stdlib Require Import ZArith Lia Bool Sorted.
From stdpp Require Import base list.

Local Open Scope Z_scope.

(** ** Machine integers *)

(** An unsigned integer of [bits] bits keeps the residue modulo [2 ^ bits]. *)
Definition wrap (bits x : Z) : Z := x mod 2 ^ bits.

(** [uint8_t] and [uint32_t]. *)
Definition uint8 (x : Z) : Z := wrap 8 x.
Definition uint32 (x : Z) : Z := wrap 32 x.

(** The [int32_t] that has the same 32 bits as [x]. *)
Definition sint32 (x : Z) : Z :=
  let u := uint32 x in if u <? 2 ^ 31 then u else u - 2 ^ 32.

(** [psa_status_t] is an [int32_t]; the named values come from [psa/error.h],
    which is not among the sources, and are taken as parameters. *)
Class PsaStatus := {
  PSA_SUCCESS : Z;
  PSA_ERROR_GENERIC_ERROR : Z;
  PSA_ERROR_INVALID_ARGUMENT : Z;
  PSA_ERROR_PROGRAMMER_ERROR : Z;
  PSA_ERROR_CONNECTION_REFUSED : Z;
  PSA_ERROR_CONNECTION_BUSY : Z
}.

(** The null pointer. *)
Definition NULL : Z := 0.

(* ===================================================================== *)
(** ** The mailbox queue engine ([tfm_spe_mailbox.c]) *)
(* ===================================================================== *)

Module Mailbox.

(** *** Return codes *)

(** The [MAILBOX_*] codes of [tfm_mailbox.h] that the file returns; any other
    code (only the platform initialisation can produce one) is [MAILBOX_CODE]. *)
Inductive mailbox_status :=
| MAILBOX_SUCCESS
| MAILBOX_INVAL_PARAMS
| MAILBOX_NO_PEND_EVENT
| MAILBOX_CALLBACK_REG_ERROR
| MAILBOX_CODE (code : Z).

Definition is_success (r : mailbox_status) : bool :=
  match r with MAILBOX_SUCCESS => true | _ => false end.

(** Modelled from the spec: [MAILBOX_MSG_NULL_HANDLE] is declared in
    [tfm_mailbox.h], which is not among the sources; the handle is a 32-bit
    token encoding the slot index plus one, with 0 reserved as no handle. *)
Definition MAILBOX_MSG_NULL_HANDLE : Z := 0.

(** *** Data *)

(** [psa_invec] and [psa_outvec]: a base pointer and a length. *)
Record psa_invec := mk_invec { iv_base : Z; iv_len : Z }.
Record psa_outvec := mk_outvec { ov_base : Z; ov_len : Z }.

Definition zero_invec : psa_invec := mk_invec 0 0.
Definition zero_outvec : psa_outvec := mk_outvec 0 0.

(** [struct vectors]: the local copies of one message's descriptors. *)
Record vectors_t := mk_vectors {
  in_vec : list psa_invec;
  out_vec : list psa_outvec;
  original_out_vec : Z;
  out_len : Z;
  in_use : bool
}.

(** [psa_client_params_t] is a union in C; the embedding keeps one field per
    member that the file reads, the members of [psa_call_params] with the
    prefix [cp_]. *)
Record psa_client_params_t := mk_params {
  psa_version_sid : Z;
  psa_connect_sid : Z;
  psa_connect_version : Z;
  psa_close_handle : Z;
  cp_handle : Z;
  cp_type : Z;
  cp_in_vec : Z;
  cp_in_len : Z;
  cp_out_vec : Z;
  cp_out_len : Z
}.

(** [struct mailbox_msg_t]. *)
Record mailbox_msg_t := mk_msg {
  call_type : Z;
  params : psa_client_params_t;
  client_id : Z
}.

Definition zero_params : psa_client_params_t := mk_params 0 0 0 0 0 0 0 0 0 0.
Definition zero_msg : mailbox_msg_t := mk_msg 0 zero_params 0.

(** [struct secure_mailbox_slot_t]: one entry of the secure queue. *)
Record secure_mailbox_slot_t := mk_slot {
  ns_slot_idx : Z;
  msg_handle : Z;
  msg : mailbox_msg_t
}.

Definition zero_slot : secure_mailbox_slot_t := mk_slot 0 0 zero_msg.

(** [struct mailbox_slot_t]: one entry of the non-secure queue; of the reply
    only [return_val] is written here. *)
Record mailbox_slot_t := mk_ns_slot {
  ns_msg : mailbox_msg_t;
  reply_return_val : Z
}.

(** [struct mailbox_status_t], shared with the non-secure side. *)
Record mailbox_status_t := mk_status {
  pend_slots : Z;
  replied_slots : Z
}.

(** [struct secure_mailbox_queue_t]; [ns_slots] and [ns_status] are pointers
    into the shared memory. *)
Record secure_mailbox_queue_t := mk_queue {
  empty_slots : Z;
  queue : list secure_mailbox_slot_t;
  ns_slots : Z;
  ns_status : Z;
  ns_slot_count : nat
}.

(** *** Configuration and collaborators

    What the headers and the other translation units provide: the capacity
    and widths, the build switches, the call-type tags, the [control] macros,
    and the functions of the RPC layer and of the platform.  The collaborators
    act on a state [backend] of their own. *)
Class Platform := {
  NUM_MAILBOX_QUEUE_SLOT : nat;
  PSA_MAX_IOVEC : nat;
  (** width of [mailbox_queue_status_t], of [unsigned long], of [size_t] *)
  STATUS_BITS : Z;
  ULONG_BITS : Z;
  SIZE_BITS : Z;
  CONFIG_TFM_SPM_BACKEND_IPC : bool;
  CONFIG_TFM_CONNECTION_BASED_SERVICE_API : bool;
  MAILBOX_PSA_FRAMEWORK_VERSION : Z;
  MAILBOX_PSA_VERSION : Z;
  MAILBOX_PSA_CALL : Z;
  MAILBOX_PSA_CONNECT : Z;
  MAILBOX_PSA_CLOSE : Z;
  PARAM_PACK : Z -> Z -> Z -> Z;
  PARAM_SET_NS_INVEC : Z -> Z;
  PARAM_SET_NS_OUTVEC : Z -> Z;
  backend : Type;
  tfm_rpc_psa_framework_version : backend -> Z * backend;
  tfm_rpc_psa_version : Z -> backend -> Z * backend;
  (** [tfm_rpc_psa_call handle control ns_client_id invecs outvecs owner]:
      the status, and the lengths the callee leaves in the output
      descriptors it was handed *)
  tfm_rpc_psa_call :
    Z -> Z -> Z -> list psa_invec -> list psa_outvec -> nat ->
    backend -> Z * list Z * backend;
  tfm_rpc_psa_connect : Z -> Z -> Z -> nat -> backend -> Z * backend;
  tfm_rpc_psa_close : Z -> Z -> backend -> Z * backend;
  (** [None] when the translation does not return [SPM_SUCCESS] *)
  tfm_multi_core_hal_client_id_translate : Z -> option Z;
  (** [true] when the registration returns [TFM_RPC_SUCCESS] *)
  tfm_rpc_register_ops : backend -> bool * backend;
  tfm_rpc_unregister_ops : backend -> backend;
  tfm_mailbox_hal_init :
    secure_mailbox_queue_t -> backend ->
    mailbox_status * secure_mailbox_queue_t * backend
}.

Section Engine.
Context `{PS : PsaStatus} `{P : Platform}.

(** The whole state the file works on: its two file-scope objects, the
    shared memory behind [ns_status] and [ns_slots], the non-secure memory
    that holds the callers' descriptor arrays (addressed in units of one
    descriptor, so that [p + i] is the address of [p[i]]), and the
    collaborators' state.  The descriptor arrays are memories of their own
    here: no array of a caller overlaps [vectors] or another object of the
    state.  [Words] below does without this. *)
Record mbox := mk_mbox {
  spe_mailbox_queue : secure_mailbox_queue_t;
  vectors : list vectors_t;
  nspe_status : mailbox_status_t;
  nspe_slots : list mailbox_slot_t;
  ns_invec_mem : Z -> psa_invec;
  ns_outvec_mem : Z -> psa_outvec;
  world : backend
}.

(** *** Calls and faults *)

(** The calls a run makes, in order: the platform's critical section and
    peer notification, the entries into the file's own slot-level functions,
    and the two writes to the shared status. *)
Inductive event :=
| EnterCritical
| ExitCritical
| NotifyPeer
| Dispatch (idx : nat)
| CleanSlot (idx : nat)
| DirectReply (idx : nat) (result : Z)
| PendCleared (mask : Z)
| RepliedSet (mask : Z).

(** How a run can end without returning: [psa_panic], an array index outside
    its array, a null pointer dereferenced, a loop that never exits. *)
Inductive fault := PsaPanic | OutOfBounds | NullDeref | Diverge.

Inductive outcome (A : Type) :=
| Done (a : A) (s : mbox) (t : list event)
| Fault (f : fault).
Arguments Done {A} a s t.
Arguments Fault {A} f.

Definition M (A : Type) : Type := mbox -> outcome A.

Definition ret {A} (a : A) : M A := fun s => Done a s [].

Definition bind {A B} (m : M A) (f : A -> M B) : M B :=
  fun s =>
    match m s with
    | Done a s1 t1 =>
        match f a s1 with
        | Done b s2 t2 => Done b s2 (t1 ++ t2)
        | Fault e => Fault e
        end
    | Fault e => Fault e
    end.

Definition raise {A} (e : fault) : M A := fun _ => Fault e.
Definition emit (e : event) : M unit := fun s => Done tt s [e].
Definition get : M mbox := fun s => Done s s [].
Definition put (s : mbox) : M unit := fun _ => Done tt s [].


Notation "x <- m ;; k" := (bind m (fun x => k))
  (at level 100, m at next level, right associativity).
Notation "m ;;; k" := (bind m (fun _ => k))
  (at level 100, right associativity).

(** *** Access to the objects of the state *)

Definition set_queue_field (s : mbox) (q : secure_mailbox_queue_t) : mbox :=
  mk_mbox q (vectors s) (nspe_status s) (nspe_slots s)
          (ns_invec_mem s) (ns_outvec_mem s) (world s).

Definition set_vectors (s : mbox) (vs : list vectors_t) : mbox :=
  mk_mbox (spe_mailbox_queue s) vs (nspe_status s) (nspe_slots s)
          (ns_invec_mem s) (ns_outvec_mem s) (world s).

Definition set_nspe_status (s : mbox) (st : mailbox_status_t) : mbox :=
  mk_mbox (spe_mailbox_queue s) (vectors s) st (nspe_slots s)
          (ns_invec_mem s) (ns_outvec_mem s) (world s).

Definition set_nspe_slots (s : mbox) (sl : list mailbox_slot_t) : mbox :=
  mk_mbox (spe_mailbox_queue s) (vectors s) (nspe_status s) sl
          (ns_invec_mem s) (ns_outvec_mem s) (world s).

Definition set_ns_outvec_mem (s : mbox) (m : Z -> psa_outvec) : mbox :=
  mk_mbox (spe_mailbox_queue s) (vectors s) (nspe_status s) (nspe_slots s)
          (ns_invec_mem s) m (world s).

Definition set_world (s : mbox) (w : backend) : mbox :=
  mk_mbox (spe_mailbox_queue s) (vectors s) (nspe_status s) (nspe_slots s)
          (ns_invec_mem s) (ns_outvec_mem s) w.

Definition set_empty_slots (q : secure_mailbox_queue_t) (e : Z)
  : secure_mailbox_queue_t :=
  mk_queue e (queue q) (ns_slots q) (ns_status q) (ns_slot_count q).

Definition set_queue_slots (q : secure_mailbox_queue_t)
    (l : list secure_mailbox_slot_t) : secure_mailbox_queue_t :=
  mk_queue (empty_slots q) l (ns_slots q) (ns_status q) (ns_slot_count q).

(** [spe_mailbox_queue.queue[idx]], read and written. *)
Definition load_slot (idx : nat) : M secure_mailbox_slot_t :=
  fun s =>
    match queue (spe_mailbox_queue s) !! idx with
    | Some x => Done x s []
    | None => Fault OutOfBounds
    end.

Definition store_slot (idx : nat) (x : secure_mailbox_slot_t) : M unit :=
  fun s =>
    let q := spe_mailbox_queue s in
    if (idx <? length (queue q))%nat
    then Done tt (set_queue_field s (set_queue_slots q (<[idx := x]> (queue q)))) []
    else Fault OutOfBounds.

(** [vectors[idx]], read and written. *)
Definition load_vectors (idx : nat) : M vectors_t :=
  fun s =>
    match vectors s !! idx with
    | Some v => Done v s []
    | None => Fault OutOfBounds
    end.

Definition store_vectors (idx : nat) (v : vectors_t) : M unit :=
  fun s =>
    if (idx <? length (vectors s))%nat
    then Done tt (set_vectors s (<[idx := v]> (vectors s))) []
    else Fault OutOfBounds.

(** [spe_mailbox_queue.ns_slots[idx]], read and written through the pointer. *)
Definition load_ns_slot (idx : nat) : M mailbox_slot_t :=
  fun s =>
    if ns_slots (spe_mailbox_queue s) =? NULL then Fault NullDeref
    else match nspe_slots s !! idx with
         | Some x => Done x s []
         | None => Fault OutOfBounds
         end.

Definition store_ns_slot (idx : nat) (x : mailbox_slot_t) : M unit :=
  fun s =>
    if ns_slots (spe_mailbox_queue s) =? NULL then Fault NullDeref
    else if (idx <? length (nspe_slots s))%nat
         then Done tt (set_nspe_slots s (<[idx := x]> (nspe_slots s))) []
         else Fault OutOfBounds.

(** [*ns_status], read and written through the pointer. *)
Definition load_ns_status : M mailbox_status_t :=
  fun s =>
    if ns_status (spe_mailbox_queue s) =? NULL then Fault NullDeref
    else Done (nspe_status s) s [].

Definition store_ns_status (st : mailbox_status_t) : M unit :=
  fun s =>
    if ns_status (spe_mailbox_queue s) =? NULL then Fault NullDeref
    else Done tt (set_nspe_status s st) [].

Definition modify_queue (f : secure_mailbox_queue_t -> secure_mailbox_queue_t)
  : M unit :=
  fun s => Done tt (set_queue_field s (f (spe_mailbox_queue s))) [].

(** The platform's critical section and notification only leave a trace. *)
Definition tfm_mailbox_hal_enter_critical : M unit := emit EnterCritical.
Definition tfm_mailbox_hal_exit_critical : M unit := emit ExitCritical.
Definition tfm_mailbox_hal_notify_peer : M unit := emit NotifyPeer.

(** *** Bit masks *)

(** A value of type [mailbox_queue_status_t]. *)
Definition status_t (x : Z) : Z := wrap STATUS_BITS x.

(** [(1 << idx)]. *)
Definition bit (idx : nat) : Z := Z.shiftl 1 (Z.of_nat idx).

Definition set_spe_queue_empty_status (idx : nat) (q : secure_mailbox_queue_t)
  : secure_mailbox_queue_t :=
  if (idx <? NUM_MAILBOX_QUEUE_SLOT)%nat
  then set_empty_slots q (status_t (Z.lor (empty_slots q) (bit idx)))
  else q.

Definition clear_spe_queue_empty_status (idx : nat) (q : secure_mailbox_queue_t)
  : secure_mailbox_queue_t :=
  if (idx <? NUM_MAILBOX_QUEUE_SLOT)%nat
  then set_empty_slots q (status_t (Z.land (empty_slots q) (Z.lnot (bit idx))))
  else q.

Definition get_spe_queue_empty_status (idx : nat) (q : secure_mailbox_queue_t)
  : bool :=
  (idx <? NUM_MAILBOX_QUEUE_SLOT)%nat
  && negb (Z.land (empty_slots q) (bit idx) =? 0).

Definition get_nspe_queue_pend_status (ns : mailbox_status_t) : Z :=
  pend_slots ns.

Definition set_nspe_queue_replied_status (ns : mailbox_status_t) (mask : Z)
  : mailbox_status_t :=
  mk_status (pend_slots ns) (status_t (Z.lor (replied_slots ns) mask)).

Definition clear_nspe_queue_pend_status (ns : mailbox_status_t) (mask : Z)
  : mailbox_status_t :=
  mk_status (status_t (Z.land (pend_slots ns) (Z.lnot mask))) (replied_slots ns).

(** *** Handles *)

(** [get_spe_mailbox_msg_handle idx handle]: [handle] tells whether the
    pointer argument is non-null; the second component is what is stored
    through it. *)
Definition get_spe_mailbox_msg_handle (idx : nat) (handle : bool)
  : mailbox_status * option Z :=
  if (NUM_MAILBOX_QUEUE_SLOT <=? idx)%nat || negb handle
  then (MAILBOX_INVAL_PARAMS, None)
  else (MAILBOX_SUCCESS, Some (Z.of_nat idx + 1)).

(** [get_spe_mailbox_msg_idx handle idx]: [idx] tells whether the pointer
    argument is non-null; the stored index is a [uint8_t]. *)
Definition get_spe_mailbox_msg_idx (handle : Z) (idx : bool)
  : mailbox_status * option nat :=
  if (handle =? MAILBOX_MSG_NULL_HANDLE) || negb idx
  then (MAILBOX_INVAL_PARAMS, None)
  else (MAILBOX_SUCCESS, Some (Z.to_nat (uint8 (handle - 1)))).

(** *** Slots *)

Definition mailbox_clean_queue_slot (idx : nat) : M unit :=
  emit (CleanSlot idx) ;;;
  if (NUM_MAILBOX_QUEUE_SLOT <=? idx)%nat then ret tt
  else
    store_slot idx zero_slot ;;;
    modify_queue (set_spe_queue_empty_status idx).

(** [get_nspe_reply_addr idx]: the index of the non-secure slot whose
    [reply] the returned pointer designates. *)
Definition get_nspe_reply_addr (idx : nat) : M nat :=
  if (NUM_MAILBOX_QUEUE_SLOT <=? idx)%nat then raise PsaPanic
  else
    sl <- load_slot idx ;;
    let ns_idx := Z.to_nat (ns_slot_idx sl) in
    if (NUM_MAILBOX_QUEUE_SLOT <=? ns_idx)%nat then raise PsaPanic
    else
      s <- get ;;
      if (ns_slot_count (spe_mailbox_queue s) <=? ns_idx)%nat
      then raise PsaPanic
      else ret ns_idx.

(** One store [p[i].len = l] into the callers' output descriptors. *)
Definition write_len (m : Z -> psa_outvec) (a l : Z) : Z -> psa_outvec :=
  fun x => if x =? a then mk_outvec (ov_base (m x)) l else m x.

(** The loop of [mailbox_direct_reply]: for [i] from [i] up, [n] more times,
    [original_out_vec[i].len = out_vec[i].len]. *)
Fixpoint copy_back_lens (ovs : list psa_outvec) (orig : Z) (i n : nat)
    (m : Z -> psa_outvec) : option (Z -> psa_outvec) :=
  match n with
  | O => Some m
  | S n' =>
      match ovs !! i with
      | Some o =>
          copy_back_lens ovs orig (S i) n'
                         (write_len m (orig + Z.of_nat i) (ov_len o))
      | None => None
      end
  end.

Definition set_in_use (v : vectors_t) (b : bool) : vectors_t :=
  mk_vectors (in_vec v) (out_vec v) (original_out_vec v) (out_len v) b.

Definition set_return_val (x : mailbox_slot_t) (r : Z) : mailbox_slot_t :=
  mk_ns_slot (ns_msg x) r.

Definition mailbox_direct_reply (idx : nat) (result : Z) : M unit :=
  emit (DirectReply idx result) ;;;
  let ret_result := result in
  v <- load_vectors idx ;;
  (* Copy outvec lengths back if necessary *)
  (if in_use v && (result =? uint32 PSA_SUCCESS)
   then
     s <- get ;;
     match copy_back_lens (out_vec v) (original_out_vec v) 0
                          (Z.to_nat (out_len v)) (ns_outvec_mem s) with
     | Some m => put (set_ns_outvec_mem s m)
     | None => raise OutOfBounds
     end
   else ret tt) ;;;
  store_vectors idx (set_in_use v false) ;;;
  (* Get reply address *)
  reply_ptr <- get_nspe_reply_addr idx ;;
  x <- load_ns_slot reply_ptr ;;
  store_ns_slot reply_ptr (set_return_val x (sint32 ret_result)) ;;;
  mailbox_clean_queue_slot idx.

Definition check_mailbox_msg (m : mailbox_msg_t) : mailbox_status :=
  MAILBOX_SUCCESS.

(** *** Staging the descriptors *)

(** A value of type [size_t]. *)
Definition size_t (x : Z) : Z := wrap SIZE_BITS x.

Definition local_copy_vects (prm : psa_client_params_t) (idx : nat)
    (control : Z) : M (mailbox_status * Z) :=
  let in_len := cp_in_len prm in
  let out_len := cp_out_len prm in
  if ((cp_out_vec prm =? NULL) && negb (out_len =? 0))
     || ((cp_in_vec prm =? NULL) && negb (in_len =? 0))
  then ret (MAILBOX_INVAL_PARAMS, control)
  else if (Z.of_nat PSA_MAX_IOVEC <? in_len)
          || (Z.of_nat PSA_MAX_IOVEC <? out_len)
          || (Z.of_nat PSA_MAX_IOVEC <? size_t (in_len + out_len))
  then ret (MAILBOX_INVAL_PARAMS, control)
  else
    v <- load_vectors idx ;;
    s <- get ;;
    let ins :=
      map (fun i : nat =>
             if Z.of_nat i <? in_len
             then ns_invec_mem s (cp_in_vec prm + Z.of_nat i)
             else zero_invec)
          (seq 0 PSA_MAX_IOVEC) in
    let outs :=
      map (fun i : nat =>
             if Z.of_nat i <? out_len
             then ns_outvec_mem s (cp_out_vec prm + Z.of_nat i)
             else zero_outvec)
          (seq 0 PSA_MAX_IOVEC) in
    let control := PARAM_SET_NS_INVEC control in
    let control := PARAM_SET_NS_OUTVEC control in
    store_vectors idx (mk_vectors ins outs (cp_out_vec prm) out_len true) ;;;
    ret (MAILBOX_SUCCESS, control).

(** *** Dispatch *)

(** A call into a collaborator, which acts on its own state only. *)
Definition call_backend {A} (f : backend -> A * backend) : M A :=
  fun s => Done (fst (f (world s))) (set_world s (snd (f (world s)))) [].

(** The callee of [tfm_rpc_psa_call] writes the lengths of the output
    descriptors it was handed, in place. *)
Fixpoint set_lens (ovs : list psa_outvec) (lens : list Z) : list psa_outvec :=
  match ovs, lens with
  | o :: ovs', l :: lens' => mk_outvec (ov_base o) l :: set_lens ovs' lens'
  | _, _ => ovs
  end.

Definition set_out_vec (v : vectors_t) (l : list psa_outvec) : vectors_t :=
  mk_vectors (in_vec v) l (original_out_vec v) (out_len v) (in_use v).

(** The [switch] of [tfm_mailbox_dispatch]: [None] for the [default] case,
    otherwise the values of [sync] and [psa_ret] at the end of the switch.
    [sync] is its initial value; the pointer [mb_msg_handle] is passed on as
    the index of the slot whose [msg_handle] it designates. *)
Definition dispatch_switch (msg_ptr : mailbox_msg_t) (idx : nat) (control : Z)
    (sync : bool) : M (option (bool * Z)) :=
  let prm := params msg_ptr in
  let ct := call_type msg_ptr in
  if ct =? MAILBOX_PSA_FRAMEWORK_VERSION then
    psa_ret <- call_backend tfm_rpc_psa_framework_version ;;
    ret (Some (true, psa_ret))
  else if ct =? MAILBOX_PSA_VERSION then
    psa_ret <- call_backend (tfm_rpc_psa_version (psa_version_sid prm)) ;;
    ret (Some (true, psa_ret))
  else if ct =? MAILBOX_PSA_CALL then
    r <- local_copy_vects prm idx control ;;
    if negb (is_success (fst r))
    then ret (Some (true, PSA_ERROR_INVALID_ARGUMENT))
    else
      match tfm_multi_core_hal_client_id_translate (client_id msg_ptr) with
      | None => ret (Some (true, PSA_ERROR_INVALID_ARGUMENT))
      | Some cid =>
          v <- load_vectors idx ;;
          o <- call_backend
                 (fun w => let '(st, lens, w') :=
                             tfm_rpc_psa_call (cp_handle prm) (snd r) cid
                                              (in_vec v) (out_vec v) idx w in
                           ((st, lens), w')) ;;
          store_vectors idx (set_out_vec v (set_lens (out_vec v) (snd o))) ;;;
          let psa_ret := fst o in
          ret (Some (if negb (psa_ret =? PSA_SUCCESS) then true else sync,
                     psa_ret))
      end
  else if CONFIG_TFM_CONNECTION_BASED_SERVICE_API
          && (ct =? MAILBOX_PSA_CONNECT) then
    match tfm_multi_core_hal_client_id_translate (client_id msg_ptr) with
    | None => ret (Some (true, PSA_ERROR_INVALID_ARGUMENT))
    | Some cid =>
        psa_ret <- call_backend
                     (tfm_rpc_psa_connect (psa_connect_sid prm)
                                          (psa_connect_version prm) cid idx) ;;
        ret (Some (if negb (psa_ret =? PSA_SUCCESS) then true else sync,
                   psa_ret))
    end
  else if CONFIG_TFM_CONNECTION_BASED_SERVICE_API
          && (ct =? MAILBOX_PSA_CLOSE) then
    match tfm_multi_core_hal_client_id_translate (client_id msg_ptr) with
    | None => ret (Some (true, PSA_ERROR_INVALID_ARGUMENT))
    | Some cid =>
        psa_ret <- call_backend
                     (tfm_rpc_psa_close (psa_close_handle prm) cid) ;;
        ret (Some (if negb (psa_ret =? PSA_SUCCESS) then true else sync,
                   psa_ret))
    end
  else ret None.

(** [tfm_mailbox_dispatch msg_ptr idx reply_slots]: the status and the new
    value of [*reply_slots]. *)
Definition tfm_mailbox_dispatch (msg_ptr : mailbox_msg_t) (idx : nat)
    (reply_slots : Z) : M (mailbox_status * Z) :=
  emit (Dispatch idx) ;;;
  let prm := params msg_ptr in
  let control := PARAM_PACK (cp_type prm) (cp_in_len prm) (cp_out_len prm) in
  (* Assume asynchronous with the IPC backend, synchronous otherwise. *)
  let sync := negb CONFIG_TFM_SPM_BACKEND_IPC in
  r <- dispatch_switch msg_ptr idx control sync ;;
  match r with
  | None => ret (MAILBOX_INVAL_PARAMS, reply_slots)
  | Some (sync, psa_ret) =>
      (* Any synchronous result should be returned immediately *)
      if sync then
        let reply_slots := status_t (Z.lor reply_slots (bit idx)) in
        mailbox_direct_reply idx (uint32 psa_ret) ;;;
        ret (MAILBOX_SUCCESS, reply_slots)
      else ret (MAILBOX_SUCCESS, reply_slots)
  end.

(** *** The drain pass *)

(** The body of the [for] loop of [tfm_mailbox_handle_msg] at index [idx];
    the result is the new value of [reply_slots]. *)
Definition handle_msg_slot (pend_slots : Z) (idx : nat) (reply_slots : Z)
  : M Z :=
  let mask_bits := status_t (bit idx) in
  (* Check if current NSPE mailbox queue slot is pending for handling *)
  if Z.land pend_slots mask_bits =? 0 then ret reply_slots
  else
    modify_queue (clear_spe_queue_empty_status idx) ;;;
    sl <- load_slot idx ;;
    store_slot idx (mk_slot (Z.of_nat idx) (msg_handle sl) (msg sl)) ;;;
    ns <- load_ns_slot idx ;;
    let msg_ptr := ns_msg ns in
    store_slot idx (mk_slot (Z.of_nat idx) (msg_handle sl) msg_ptr) ;;;
    if negb (is_success (check_mailbox_msg msg_ptr)) then
      mailbox_clean_queue_slot idx ;;;
      ret reply_slots
    else
      match snd (get_spe_mailbox_msg_handle idx true) with
      | Some h => store_slot idx (mk_slot (Z.of_nat idx) h msg_ptr)
      | None => ret tt
      end ;;;
      r <- tfm_mailbox_dispatch msg_ptr idx reply_slots ;;
      if negb (is_success (fst r)) then
        mailbox_clean_queue_slot idx ;;;
        ret (snd r)
      else ret (snd r).

Fixpoint handle_msg_loop (pend_slots : Z) (idxs : list nat) (reply_slots : Z)
  : M Z :=
  match idxs with
  | [] => ret reply_slots
  | idx :: rest =>
      r <- handle_msg_slot pend_slots idx reply_slots ;;
      handle_msg_loop pend_slots rest r
  end.

(** The two updates of the shared status at the end of the pass. *)
Definition clear_pend (mask : Z) : M unit :=
  ns <- load_ns_status ;;
  store_ns_status (clear_nspe_queue_pend_status ns mask) ;;;
  emit (PendCleared mask).

Definition set_replied (mask : Z) : M unit :=
  ns <- load_ns_status ;;
  store_ns_status (set_nspe_queue_replied_status ns mask) ;;;
  emit (RepliedSet mask).

(** [idx] is a [uint8_t] counting up to [ns_slot_count], which nothing in
    the loop writes: with a count of 256 or more the index wraps after 255
    and the loop has no exit. *)
Definition tfm_mailbox_handle_msg : M mailbox_status :=
  tfm_mailbox_hal_enter_critical ;;;
  ns <- load_ns_status ;;
  let pend_slots := get_nspe_queue_pend_status ns in
  tfm_mailbox_hal_exit_critical ;;;
  (* Check if NSPE mailbox did assert a PSA client call request *)
  if pend_slots =? 0 then ret MAILBOX_NO_PEND_EVENT
  else
    s <- get ;;
    let count := ns_slot_count (spe_mailbox_queue s) in
    reply_slots <-
      (if (count <=? 255)%nat
       then handle_msg_loop pend_slots (seq 0 count) 0
       else handle_msg_loop pend_slots (seq 0 256) 0 ;;; raise Diverge) ;;
    tfm_mailbox_hal_enter_critical ;;;
    (* Clean the NSPE mailbox pending status. *)
    clear_pend pend_slots ;;;
    (* Set the NSPE mailbox replied status *)
    set_replied reply_slots ;;;
    tfm_mailbox_hal_exit_critical ;;;
    (if reply_slots =? 0 then ret tt else tfm_mailbox_hal_notify_peer) ;;;
    ret MAILBOX_SUCCESS.

(** *** Delivering a reply *)

(** The slot index [tfm_mailbox_reply_msg] works on, or the status it
    returns when the handle does not give one. *)
Definition reply_msg_idx (handle : Z) : mailbox_status + nat :=
  if handle =? MAILBOX_MSG_NULL_HANDLE then inr O
  else
    match get_spe_mailbox_msg_idx handle true with
    | (MAILBOX_SUCCESS, Some idx) => inr idx
    | (r, _) => inl r
    end.

Definition tfm_mailbox_reply_msg (handle : Z) (reply : Z) : M mailbox_status :=
  match reply_msg_idx handle with
  | inl r => ret r
  | inr idx =>
      s <- get ;;
      if get_spe_queue_empty_status idx (spe_mailbox_queue s)
      then ret MAILBOX_NO_PEND_EVENT
      else
        mailbox_direct_reply idx (uint32 reply) ;;;
        tfm_mailbox_hal_enter_critical ;;;
        (* Set the NSPE mailbox replied status *)
        set_replied (status_t (bit idx)) ;;;
        tfm_mailbox_hal_exit_critical ;;;
        tfm_mailbox_hal_notify_peer ;;;
        ret MAILBOX_SUCCESS
  end.

(** *** Initialisation *)

(** A value of type [unsigned long]. *)
Definition ulong (x : Z) : Z := wrap ULONG_BITS x.

(** [spe_mailbox_queue] after [spm_memset (&spe_mailbox_queue, 0, ...)]. *)
Definition zero_queue : secure_mailbox_queue_t :=
  mk_queue 0 (replicate NUM_MAILBOX_QUEUE_SLOT zero_slot) NULL NULL 0.

(** [(1UL << (NUM_MAILBOX_QUEUE_SLOT - 1))]. *)
Definition top_slot_bit : Z :=
  ulong (Z.shiftl 1 (Z.of_nat NUM_MAILBOX_QUEUE_SLOT - 1)).

Definition tfm_mailbox_init : M mailbox_status :=
  modify_queue (fun _ => zero_queue) ;;;
  modify_queue (fun q => set_empty_slots q (status_t (ulong (top_slot_bit - 1)))) ;;;
  modify_queue
    (fun q => set_empty_slots q (status_t (empty_slots q + status_t top_slot_bit))) ;;;
  (* Register RPC callbacks *)
  ok <- call_backend tfm_rpc_register_ops ;;
  if negb ok then ret MAILBOX_CALLBACK_REG_ERROR
  else
    (* Platform specific initialization. *)
    r <- (fun s =>
            let '(r, q, w) :=
              tfm_mailbox_hal_init (spe_mailbox_queue s) (world s) in
            Done r (set_world (set_queue_field s q) w) []) ;;
    if negb (is_success r) then
      call_backend (fun w => (tt, tfm_rpc_unregister_ops w)) ;;;
      ret r
    else ret MAILBOX_SUCCESS.

Definition tfm_inter_core_comm_init : M mailbox_status := tfm_mailbox_init.

(** *** Reading a trace *)

Fixpoint count (p : event -> bool) (t : list event) : nat :=
  match t with
  | [] => O
  | e :: t' => ((if p e then 1 else 0) + count p t')%nat
  end.

Definition is_notify (e : event) : bool :=
  match e with NotifyPeer => true | _ => false end.

Definition is_dispatch (idx : nat) (e : event) : bool :=
  match e with Dispatch i => (i =? idx)%nat | _ => false end.

Definition is_direct_reply (e : event) : bool :=
  match e with DirectReply _ _ => true | _ => false end.

Definition is_clean (idx : nat) (e : event) : bool :=
  match e with CleanSlot i => (i =? idx)%nat | _ => false end.

Definition is_pend_cleared (e : event) : bool :=
  match e with PendCleared _ => true | _ => false end.

(** *** Well-formed states

    The arrays have the sizes their declarations give them, the platform
    handshake has set the two pointers and a slot count within the capacity
    and within the non-secure queue, and an entry of [vectors] that is in use
    holds an [out_len] within its descriptor array, as [local_copy_vects]
    leaves it. *)
Definition vec_ok (v : vectors_t) : Prop :=
  in_use v = true -> (Z.to_nat (out_len v) <= length (out_vec v))%nat.

Record wf (count : nat) (s : mbox) : Prop := mk_wf {
  wf_queue : length (queue (spe_mailbox_queue s)) = NUM_MAILBOX_QUEUE_SLOT;
  wf_vectors : length (vectors s) = NUM_MAILBOX_QUEUE_SLOT;
  wf_count : ns_slot_count (spe_mailbox_queue s) = count;
  wf_count_cap : (count <= NUM_MAILBOX_QUEUE_SLOT)%nat;
  wf_count_ns : (count <= length (nspe_slots s))%nat;
  wf_status_ptr : ns_status (spe_mailbox_queue s) <> NULL;
  wf_slots_ptr : ns_slots (spe_mailbox_queue s) <> NULL;
  wf_vec_ok : Forall vec_ok (vectors s)
}.

(** The capacity fits the width of the status masks, and the slot indices
    fit the [uint8_t] the file keeps them in. *)
Definition slots_fit : Prop := Z.of_nat NUM_MAILBOX_QUEUE_SLOT <= STATUS_BITS.
Definition index_fits : Prop := (NUM_MAILBOX_QUEUE_SLOT <= 255)%nat.

(** What one turn of the drain loop may leave in the trace for slot [idx],
    with [reply_slots] before and [r] after: a dispatch that was forwarded,
    one that was rejected and cleaned, or one answered at once. *)
Definition slot_trace (idx : nat) (reply_slots r : Z) (t : list event) : Prop :=
  (t = [Dispatch idx] /\ r = reply_slots) \/
  (t = [Dispatch idx; CleanSlot idx] /\ r = reply_slots) \/
  (exists res, t = [Dispatch idx; DirectReply idx res; CleanSlot idx] /\
               r = status_t (Z.lor reply_slots (bit idx))).

(** Whether bit [idx] of the snapshot [pend_slots] passes the test of the
    drain loop. *)
Definition pending (pend_slots : Z) (idx : nat) : bool :=
  negb (Z.land pend_slots (status_t (bit idx)) =? 0).

(** *** The callbacks registered with the RPC layer *)

(** [mailbox_handle_req]: the status of the pass is dropped. *)
Definition mailbox_handle_req : M unit :=
  tfm_mailbox_handle_msg ;;; ret tt.

(** [mailbox_reply owner ret]: [owner], when it is not null, points to the
    [msg_handle] of a slot of the queue, as the dispatcher hands it to the
    RPC layer; it is given as the index of that slot. *)
Definition mailbox_reply (owner : option nat) (ret_ : Z) : M unit :=
  handle <- match owner with
            | Some idx => sl <- load_slot idx ;; ret (msg_handle sl)
            | None => ret MAILBOX_MSG_NULL_HANDLE
            end ;;
  tfm_mailbox_reply_msg handle ret_ ;;; ret tt.

(** *** More ways to read a state and a trace *)

(** Whether the [switch] of [tfm_mailbox_dispatch] has a case for the call
    type. *)
Definition known_call_type (ct : Z) : bool :=
  (ct =? MAILBOX_PSA_FRAMEWORK_VERSION) || (ct =? MAILBOX_PSA_VERSION)
  || (ct =? MAILBOX_PSA_CALL)
  || CONFIG_TFM_CONNECTION_BASED_SERVICE_API
     && ((ct =? MAILBOX_PSA_CONNECT) || (ct =? MAILBOX_PSA_CLOSE)).

(** The call-type tags are case labels of one [switch], hence distinct. *)
Definition tags_distinct : Prop :=
  NoDup [MAILBOX_PSA_FRAMEWORK_VERSION; MAILBOX_PSA_VERSION; MAILBOX_PSA_CALL;
         MAILBOX_PSA_CONNECT; MAILBOX_PSA_CLOSE].

(** The slots dispatched in a trace, in the order of their dispatch. *)
Fixpoint dispatched (t : list event) : list nat :=
  match t with
  | [] => []
  | Dispatch idx :: t' => idx :: dispatched t'
  | _ :: t' => dispatched t'
  end.

(** Whether the event is the entry into [mailbox_direct_reply] for slot
    [idx]. *)
Definition is_reply_of (idx : nat) (e : event) : bool :=
  match e with DirectReply i _ => (i =? idx)%nat | _ => false end.

(** The slots of [idxs] that are pending in the snapshot, in order. *)
Definition pending_of (pend_slots : Z) (idxs : list nat) : list nat :=
  List.filter (pending pend_slots) idxs.

End Engine.

Arguments Done {P A} a s t.
Arguments Fault {P A} f.

End Mailbox.

(* ===================================================================== *)
(** ** Staging and write-back over one memory *)
(* ===================================================================== *)

(** [Mailbox] keeps the callers' descriptor arrays in memories of their own,
    apart from [vectors].  The file itself tests the callers' pointers
    against [NULL] only, so an array may lie anywhere, also over an entry of
    [vectors].  This module does without the separation for the two
    functions that go through those pointers: [local_copy_vects] and
    [mailbox_direct_reply] work here on one memory of words that holds
    [vectors] with the layout of [struct vectors], and the loop of the reply
    reads [out_len] and [original_out_vec] from that memory at every turn, as
    the source does.

    A word holds a pointer or a [size_t]; a descriptor is its [base] followed
    by its [len]; [in_use] with its padding takes a word, zero for [false].
    The queue and the shared slots stay in the state of [Mailbox]. *)
Module Words.
Import Mailbox.

Definition ram : Type := Z -> Z.

(** [*a = v]. *)
Definition poke (m : ram) (a v : Z) : ram :=
  fun x => if x =? a then v else m x.

(** Where the linker has put [vectors]: the address of [vectors[0]]. *)
Class Layout := { VECTORS : Z }.

Section Memory.
Context `{PS : PsaStatus} `{P : Platform} `{L : Layout}.

(** [sizeof (struct vectors)]: two arrays of [PSA_MAX_IOVEC] descriptors,
    a pointer, a [size_t] and a [bool]. *)
Definition stride : Z := 4 * Z.of_nat PSA_MAX_IOVEC + 3.

Definition entry (idx : nat) : Z := VECTORS + Z.of_nat idx * stride.

(** [&vectors[idx].in_vec[i]], [&vectors[idx].out_vec[i]] and the three
    fields behind them. *)
Definition in_vec_at (idx i : nat) : Z := entry idx + 2 * Z.of_nat i.
Definition out_vec_at (idx i : nat) : Z :=
  entry idx + 2 * Z.of_nat PSA_MAX_IOVEC + 2 * Z.of_nat i.
Definition original_out_vec_at (idx : nat) : Z :=
  entry idx + 4 * Z.of_nat PSA_MAX_IOVEC.
Definition out_len_at (idx : nat) : Z :=
  entry idx + 4 * Z.of_nat PSA_MAX_IOVEC + 1.
Definition in_use_at (idx : nat) : Z :=
  entry idx + 4 * Z.of_nat PSA_MAX_IOVEC + 2.

(** The address is not one of [vectors[idx]]. *)
Definition apart (idx : nat) (a : Z) : Prop :=
  a < entry idx \/ entry idx + stride <= a.

(** The address is one of [vectors[idx]]. *)
Definition inside (idx : nat) (a : Z) : Prop :=
  entry idx <= a < entry idx + stride.

(** One of the two loops of [local_copy_vects], from [i] on for [n] turns:
    [dst[i] = src[i]] below [len], and zero from there on.  The assignment
    reads the descriptor and then writes it. *)
Fixpoint copy_vec (m : ram) (dst src len : Z) (i n : nat) : ram :=
  match n with
  | O => m
  | S n' =>
      let d := dst + 2 * Z.of_nat i in
      let m' :=
        if Z.of_nat i <? len then
          let base := m (src + 2 * Z.of_nat i) in
          let len_ := m (src + 2 * Z.of_nat i + 1) in
          poke (poke m d base) (d + 1) len_
        else poke (poke m d 0) (d + 1) 0 in
      copy_vec m' dst src len (S i) n'
  end.

(** [local_copy_vects params idx control]: the status, [*control] and the
    memory; [None] when [idx] is no index of [vectors]. *)
Definition local_copy_vects (prm : psa_client_params_t) (idx : nat)
    (control : Z) (m : ram) : option (mailbox_status * Z * ram) :=
  let in_len := cp_in_len prm in
  let out_len := cp_out_len prm in
  if ((cp_out_vec prm =? NULL) && negb (out_len =? 0))
     || ((cp_in_vec prm =? NULL) && negb (in_len =? 0))
  then Some (MAILBOX_INVAL_PARAMS, control, m)
  else if (Z.of_nat PSA_MAX_IOVEC <? in_len)
          || (Z.of_nat PSA_MAX_IOVEC <? out_len)
          || (Z.of_nat PSA_MAX_IOVEC <? size_t (in_len + out_len))
  then Some (MAILBOX_INVAL_PARAMS, control, m)
  else if (NUM_MAILBOX_QUEUE_SLOT <=? idx)%nat then None
  else
    let m1 := copy_vec m (in_vec_at idx 0) (cp_in_vec prm) in_len
                       0 PSA_MAX_IOVEC in
    let m2 := copy_vec m1 (out_vec_at idx 0) (cp_out_vec prm) out_len
                       0 PSA_MAX_IOVEC in
    let control := PARAM_SET_NS_INVEC control in
    let control := PARAM_SET_NS_OUTVEC control in
    let m3 := poke m2 (out_len_at idx) out_len in
    let m4 := poke m3 (original_out_vec_at idx) (cp_out_vec prm) in
    let m5 := poke m4 (in_use_at idx) 1 in
    Some (MAILBOX_SUCCESS, control, m5).

(** The memory [local_copy_vects] leaves when it returns
    [MAILBOX_SUCCESS]. *)
Definition staged_ram (prm : psa_client_params_t) (idx : nat) (m : ram) : ram :=
  poke
    (poke
       (poke
          (copy_vec
             (copy_vec m (in_vec_at idx 0) (cp_in_vec prm) (cp_in_len prm)
                       0 PSA_MAX_IOVEC)
             (out_vec_at idx 0) (cp_out_vec prm) (cp_out_len prm)
             0 PSA_MAX_IOVEC)
          (out_len_at idx) (cp_out_len prm))
       (original_out_vec_at idx) (cp_out_vec prm))
    (in_use_at idx) 1.

(** The loop of [mailbox_direct_reply] from [i] on, with [n] elements of
    [out_vec] left: [vectors[idx].out_len] and [vectors[idx].original_out_vec]
    are read at each turn; [None] when the loop runs past [out_vec].  The
    stores made are recorded in order, as (address, value). *)
Fixpoint copy_back (idx i n : nat) (m : ram) (written : list (Z * Z))
  : option (ram * list (Z * Z)) :=
  if Z.of_nat i <? m (out_len_at idx) then
    match n with
    | O => None
    | S n' =>
        let a := m (original_out_vec_at idx) + 2 * Z.of_nat i + 1 in
        let v := m (out_vec_at idx i + 1) in
        copy_back idx (S i) n' (poke m a v) (written ++ [(a, v)])
    end
  else Some (m, written).

(** The state of [Mailbox] together with the memory. *)
Record machine := mk_machine {
  core : mbox;
  ram_of : ram
}.

(** What a call leaves: the state, the stores of the write-back loop, and
    the calls made; or a fault. *)
Inductive result :=
| Returned (m : machine) (written : list (Z * Z)) (t : list event)
| Faulted (f : fault).

(** [mailbox_direct_reply] from the lookup of the reply address on. *)
Definition reply_tail (idx : nat) (result_ : Z) : M unit :=
  bind (get_nspe_reply_addr idx) (fun reply_ptr =>
  bind (load_ns_slot reply_ptr) (fun x =>
  bind (store_ns_slot reply_ptr (set_return_val x (sint32 result_)))
       (fun _ => mailbox_clean_queue_slot idx))).

Definition mailbox_direct_reply (idx : nat) (result_ : Z) (m : machine)
  : result :=
  if (NUM_MAILBOX_QUEUE_SLOT <=? idx)%nat then Faulted OutOfBounds
  else
    (* Copy outvec lengths back if necessary *)
    match
      (if negb (ram_of m (in_use_at idx) =? 0)
          && (result_ =? uint32 PSA_SUCCESS)
       then copy_back idx 0 PSA_MAX_IOVEC (ram_of m) []
       else Some (ram_of m, []))
    with
    | None => Faulted OutOfBounds
    | Some (m1, written) =>
        let m2 := poke m1 (in_use_at idx) 0 in
        match reply_tail idx result_ (core m) with
        | Done _ c t =>
            Returned (mk_machine c m2) written (DirectReply idx result_ :: t)
        | Fault f => Faulted f
        end
    end.






End Memory.
End Words.

(* ===================================================================== *)
(** ** The connection API ([psa_connection_api.c]) *)
(* ===================================================================== *)

Module Spm.

(** Modelled from the spec: the [TFM_HANDLE_STATUS_*] values are declared in
    [spm.h], which is not among the sources; a connection's status is one of
    IDLE, ACTIVE and TO_FREE. *)
Inductive handle_status :=
| TFM_HANDLE_STATUS_IDLE
| TFM_HANDLE_STATUS_ACTIVE
| TFM_HANDLE_STATUS_TO_FREE.

(** [struct connection_t], with the fields of its [msg] under the prefix
    [msg_]; [service] is a pointer. *)
Record connection_t := mk_conn {
  status : handle_status;
  service : Z;
  msg_type : Z;
  msg_client_id : Z;
  msg_rhandle : Z
}.

(** The connection pool and the memory its connections live in, read and
    written through pointers. *)
Record spm := mk_spm {
  pool_free : list Z;
  conns : Z -> connection_t
}.

(** What [spm.h], [ffm/backend.h] and [load/service_defs.h] provide: the
    service registry and its checks, the pool, the dispatch backend, and the
    handle macros.  Pointers are addresses, [NULL] when there is none. *)
Class SpmEnv := {
  PSA_NULL_HANDLE : Z;
  PSA_IPC_CONNECT : Z;
  PSA_IPC_DISCONNECT : Z;
  IS_STATIC_HANDLE : Z -> bool;
  SERVICE_IS_STATELESS : Z -> bool;
  (** [service->p_ldinf->flags] *)
  service_flags : Z -> Z;
  tfm_spm_is_ns_caller : bool;
  tfm_spm_get_client_id : bool -> Z;
  tfm_spm_get_service_by_sid : Z -> Z;
  tfm_spm_check_authorization : Z -> Z -> bool -> Z;
  tfm_spm_check_client_version : Z -> Z -> Z;
  spm_allocate_connection : spm -> Z * spm;
  (** what [spm_init_idle_connection] makes of the connection it is given *)
  spm_init_idle_connection : connection_t -> Z -> Z -> connection_t;
  backend_messaging : Z -> spm -> Z * spm;
  (** the status and the connection stored through the first argument *)
  spm_get_idle_connection : Z -> Z -> spm -> Z * Z
}.

Section Api.
Context `{PS : PsaStatus} `{E : SpmEnv}.

Definition set_status (st : handle_status) (c : connection_t) : connection_t :=
  mk_conn st (service c) (msg_type c) (msg_client_id c) (msg_rhandle c).

Definition set_msg_type (t : Z) (c : connection_t) : connection_t :=
  mk_conn (status c) (service c) t (msg_client_id c) (msg_rhandle c).

(** A store through the pointer [p]. *)
Definition update_conn (s : spm) (p : Z) (f : connection_t -> connection_t)
  : spm :=
  mk_spm (pool_free s) (fun a => if a =? p then f (conns s a) else conns s a).

(** The four checks of [spm_psa_connect_client_id_associated], in order. *)
Definition service_exists (sid : Z) : bool :=
  negb (tfm_spm_get_service_by_sid sid =? NULL).

Definition service_stateful (sid : Z) : bool :=
  negb (SERVICE_IS_STATELESS (service_flags (tfm_spm_get_service_by_sid sid))).

Definition caller_authorized (sid client_id : Z) : bool :=
  tfm_spm_check_authorization sid (tfm_spm_get_service_by_sid sid)
                              (client_id <? 0)
  =? PSA_SUCCESS.

Definition version_supported (sid version : Z) : bool :=
  tfm_spm_check_client_version (tfm_spm_get_service_by_sid sid) version
  =? PSA_SUCCESS.

(** [spm_psa_connect_client_id_associated p_connection sid version client_id]:
    the status, the connection stored through [p_connection] if one is, and
    the state. *)
Definition spm_psa_connect_client_id_associated (sid version client_id : Z)
    (s : spm) : Z * option Z * spm :=
  let ns_caller := client_id <? 0 in
  let service := tfm_spm_get_service_by_sid sid in
  if service =? NULL then (PSA_ERROR_CONNECTION_REFUSED, None, s)
  else if SERVICE_IS_STATELESS (service_flags service)
  then (PSA_ERROR_PROGRAMMER_ERROR, None, s)
  else if negb (tfm_spm_check_authorization sid service ns_caller =? PSA_SUCCESS)
  then (PSA_ERROR_CONNECTION_REFUSED, None, s)
  else if negb (tfm_spm_check_client_version service version =? PSA_SUCCESS)
  then (PSA_ERROR_CONNECTION_REFUSED, None, s)
  else
    let '(connection, s1) := spm_allocate_connection s in
    if connection =? NULL then (PSA_ERROR_CONNECTION_BUSY, None, s1)
    else
      let s2 := update_conn s1 connection
                  (fun c => spm_init_idle_connection c service client_id) in
      let s3 := update_conn s2 connection (set_msg_type PSA_IPC_CONNECT) in
      (PSA_SUCCESS, Some connection, s3).

(** [tfm_spm_client_psa_connect]; the connection is only read when the
    status is [PSA_SUCCESS], which is returned with one stored. *)
Definition tfm_spm_client_psa_connect (sid version : Z) (s : spm) : Z * spm :=
  let ns_caller := tfm_spm_is_ns_caller in
  let client_id := tfm_spm_get_client_id ns_caller in
  let '(status, p, s1) :=
    spm_psa_connect_client_id_associated sid version client_id s in
  if negb (status =? PSA_SUCCESS) then (status, s1)
  else
    match p with
    | Some p_connection =>
        let '(status, s2) := backend_messaging p_connection s1 in
        (status, update_conn s2 p_connection (set_status TFM_HANDLE_STATUS_ACTIVE))
    | None => (status, s1)
    end.

Definition spm_psa_close_client_id_associated (handle client_id : Z) (s : spm)
  : Z * spm :=
  (* It will have no effect if called with the NULL handle *)
  if handle =? PSA_NULL_HANDLE then (PSA_SUCCESS, s)
  else if IS_STATIC_HANDLE handle then (PSA_ERROR_PROGRAMMER_ERROR, s)
  else
    let '(status, p_connection) := spm_get_idle_connection handle client_id s in
    if negb (status =? PSA_SUCCESS) then (status, s)
    else
      let s1 := update_conn s p_connection (set_msg_type PSA_IPC_DISCONNECT) in
      let '(status, s2) := backend_messaging p_connection s1 in
      (status, update_conn s2 p_connection (set_status TFM_HANDLE_STATUS_TO_FREE)).

Definition tfm_spm_client_psa_close (handle : Z) (s : spm) : Z * spm :=
  let ns_caller := tfm_spm_is_ns_caller in
  spm_psa_close_client_id_associated handle (tfm_spm_get_client_id ns_caller) s.

(** [close] called once for each client id of [ids], one call after the
    other: the statuses, and the state at the end. *)
Fixpoint close_each (handle : Z) (ids : list Z) (s : spm) : list Z * spm :=
  match ids with
  | [] => ([], s)
  | id :: rest =>
      let '(st, s1) := spm_psa_close_client_id_associated handle id s in
      let '(sts, s2) := close_each handle rest s1 in
      (st :: sts, s2)
  end.

Definition set_rhandle (r : Z) (c : connection_t) : connection_t :=
  mk_conn (status c) (service c) (msg_type c) (msg_client_id c) r.

(** [tfm_spm_partition_psa_set_rhandle]; [None] when [tfm_core_panic] is
    called, which does not return.  [spm_msg_handle_to_connection] is declared
    in [spm.h] and is taken as an argument: the connection a message handle
    stands for, [NULL] when it is invalid. *)
Definition tfm_spm_partition_psa_set_rhandle
    (spm_msg_handle_to_connection : Z -> spm -> Z)
    (msg_handle rhandle : Z) (s : spm) : option (Z * spm) :=
  (* It is a fatal error if message handle is invalid *)
  let handle := spm_msg_handle_to_connection msg_handle s in
  if handle =? NULL then None
  (* It is a PROGRAMMER ERROR if a stateless service sets rhandle. *)
  else if SERVICE_IS_STATELESS (service_flags (service (conns s handle)))
  then None
  else Some (PSA_SUCCESS, update_conn s handle (set_rhandle rhandle)).

End Api.
End Spm.

(* ===================================================================== *)
(** ** The boot-data query ([tfm_boot_data.c]) *)
(* ===================================================================== *)

Module BootData.

Definition uint16 (x : Z) : Z := wrap 16 x.

Definition BOOT_DATA_VALID : Z := 1.
Definition BOOT_DATA_INVALID : Z := 0.

(** [struct boot_data_access_policy]. *)
Record boot_data_access_policy := mk_policy {
  partition_id : Z;
  major_type : Z
}.

(** What the headers give the file: the partition ids and the build switches
    that select the rows of the policy table, the TLV constants and macros of
    [tfm_boot_status.h], the base of the shared area, the widths of
    [uintptr_t] and [size_t], and the memory check of the isolation layer.
    [OFFSETOF_DATA] is the offset of the member [data] in
    [struct tfm_boot_data]. *)
Class BootEnv := {
  INVALID_PARTITION_ID : Z;
  TFM_SP_INITIAL_ATTESTATION : Z;
  TFM_SP_FWU : Z;
  TFM_SP_MEASURED_BOOT : Z;
  TFM_SP_DPE : Z;
  TLV_MAJOR_INVALID : Z;
  TLV_MAJOR_IAS : Z;
  TLV_MAJOR_FWU : Z;
  TLV_MAJOR_MBS : Z;
  TFM_PARTITION_INITIAL_ATTESTATION : bool;
  TFM_PARTITION_FIRMWARE_UPDATE : bool;
  TFM_PARTITION_MEASURED_BOOT : bool;
  TFM_PARTITION_DPE : bool;
  BOOT_DATA_AVAILABLE : bool;
  SHARED_DATA_TLV_INFO_MAGIC : Z;
  SHARED_DATA_HEADER_SIZE : Z;
  SHARED_DATA_ENTRY_HEADER_SIZE : Z;
  OFFSETOF_DATA : Z;
  GET_MAJOR : Z -> Z;
  SHARED_BOOT_MEASUREMENT_BASE : Z;
  UINTPTR_BITS : Z;
  SIZE_T_BITS : Z;
  TFM_HAL_ACCESS_READWRITE : Z;
  (** [tfm_hal_memory_check boundary base size access_type] *)
  tfm_hal_memory_check : Z -> Z -> Z -> Z -> Z
}.

Section Query.
Context `{PS : PsaStatus} `{B : BootEnv}.

Definition uintptr_t (x : Z) : Z := wrap UINTPTR_BITS x.
Definition size_t (x : Z) : Z := wrap SIZE_T_BITS x.

(** What the file reads: its flag [is_boot_data_valid], the running
    partition ([tfm_spm_partition_get_running_partition_id] and the
    [boundary] of the current component), and the shared area as it is read
    through [struct tfm_boot_data] and [struct shared_data_tlv_entry]: the
    two fields of its header, and the [tlv_type] and [tlv_len] of the entry
    header found at an address.  The caller's buffer, which has passed the
    memory check of the partition, is taken to lie apart from the shared
    area. *)
Record boot_state := mk_boot {
  is_boot_data_valid : Z;
  running_partition_id : Z;
  boundary : Z;
  shared_tlv_magic : Z;
  shared_tlv_tot_len : Z;
  tlv_entry_at : Z -> Z * Z
}.

(** [access_policy_table], row by row as the build selects them. *)
Definition access_policy_table : list boot_data_access_policy :=
  [mk_policy INVALID_PARTITION_ID TLV_MAJOR_INVALID]
  ++ (if TFM_PARTITION_INITIAL_ATTESTATION
      then [mk_policy TFM_SP_INITIAL_ATTESTATION TLV_MAJOR_IAS] else [])
  ++ (if TFM_PARTITION_FIRMWARE_UPDATE
      then [mk_policy TFM_SP_FWU TLV_MAJOR_FWU] else [])
  ++ (if TFM_PARTITION_MEASURED_BOOT
      then [mk_policy TFM_SP_MEASURED_BOOT TLV_MAJOR_MBS] else [])
  ++ (if TFM_PARTITION_DPE
      then [mk_policy TFM_SP_DPE TLV_MAJOR_MBS] else []).

(** The [for] loop of [tfm_core_check_boot_data_access_policy] over the rows
    that are left, with [rc = -1] on entry. *)
Fixpoint policy_scan (partition_id_ major_type_ : Z)
    (rows : list boot_data_access_policy) : Z :=
  match rows with
  | [] => -1
  | row :: rest =>
      if partition_id_ =? partition_id row then
        if major_type_ =? major_type row then 0
        else policy_scan partition_id_ major_type_ rest
      else policy_scan partition_id_ major_type_ rest
  end.

(** The iteration starts from [i = 1]. *)
Definition tfm_core_check_boot_data_access_policy (major_type_ : Z)
    (st : boot_state) : Z :=
  policy_scan (running_partition_id st) major_type_
              (drop 1 access_policy_table).

Definition set_valid (st : boot_state) (v : Z) : boot_state :=
  mk_boot v (running_partition_id st) (boundary st) (shared_tlv_magic st)
          (shared_tlv_tot_len st) (tlv_entry_at st).

Definition tfm_core_validate_boot_data (st : boot_state) : boot_state :=
  if BOOT_DATA_AVAILABLE then
    if shared_tlv_magic st =? SHARED_DATA_TLV_INFO_MAGIC
    then set_valid st BOOT_DATA_VALID
    else st
  else set_valid st BOOT_DATA_VALID.

(** The stores of the handler into the caller's buffer, in order: the two
    fields of the header, a copy of [len] bytes from the shared area, and an
    addition to [header.tlv_tot_len]. *)
Inductive store :=
| StoreHeader (buf tlv_magic tlv_tot_len : Z)
| CopyEntry (dst src len : Z)
| AddTotLen (buf len : Z).

(** What a call leaves: [args[0]], the stores it made, and the value of
    [header.tlv_tot_len] of the buffer when the header has been written. *)
Record reply := mk_reply {
  args0 : Z;
  stores : list store;
  tot_len : option Z
}.

Definition failed (l : list store) (tot : option Z) : reply :=
  mk_reply (uint32 PSA_ERROR_INVALID_ARGUMENT) l tot.

(** The copy loop of the handler; [None] when [fuel] iterations were not
    enough. *)
Fixpoint copy_loop (fuel : nat) (tlv_major buf_start buf_size tlv_end : Z)
    (st : boot_state) (offset ptr tot : Z) (done : list store)
  : option reply :=
  match fuel with
  | O => None
  | S fuel' =>
      if offset <? tlv_end then
        (* Create local copy to avoid unaligned access *)
        let tlv_entry := tlv_entry_at st offset in
        let next_tlv_offset :=
          size_t (SHARED_DATA_ENTRY_HEADER_SIZE + snd tlv_entry) in
        if GET_MAJOR (fst tlv_entry) =? tlv_major then
          (* Check buffer overflow *)
          if buf_size <? size_t ((ptr - buf_start) + next_tlv_offset)
          then Some (failed done (Some tot))
          else
            copy_loop fuel' tlv_major buf_start buf_size tlv_end st
                      (uintptr_t (offset + next_tlv_offset))
                      (ptr + next_tlv_offset)
                      (uint16 (size_t (tot + next_tlv_offset)))
                      (done ++ [CopyEntry ptr offset next_tlv_offset;
                                AddTotLen buf_start next_tlv_offset])
        else
          copy_loop fuel' tlv_major buf_start buf_size tlv_end st
                    (uintptr_t (offset + next_tlv_offset)) ptr tot done
      else Some (mk_reply (uint32 PSA_SUCCESS) done (Some tot))
  end.

(** [tfm_core_get_boot_data_handler args] with [args[0]], [args[1]] and
    [args[2]] on entry.  The hardened call and comparison of the memory
    check are taken for the plain ones. *)
Definition tfm_core_get_boot_data_handler (fuel : nat) (a0 a1 a2 : Z)
    (st : boot_state) : option reply :=
  let tlv_major := uint8 a0 in
  let buf_start := a1 in
  let buf_size := uint16 a2 in
  if negb (tfm_hal_memory_check (boundary st) buf_start buf_size
                                TFM_HAL_ACCESS_READWRITE =? PSA_SUCCESS)
  then Some (failed [] None)
  else if negb (is_boot_data_valid st =? BOOT_DATA_VALID)
  then Some (failed [] None)
  (* Check whether caller has access right to given tlv_major_type *)
  else if negb (tfm_core_check_boot_data_access_policy tlv_major st =? 0)
  then Some (failed [] None)
  else
    (* Get the boundaries of TLV section *)
    let tlv_end := uintptr_t (SHARED_BOOT_MEASUREMENT_BASE
                              + shared_tlv_tot_len st) in
    let offset := uintptr_t (SHARED_BOOT_MEASUREMENT_BASE
                             + SHARED_DATA_HEADER_SIZE) in
    (* Add header to output buffer as well *)
    if buf_size <? SHARED_DATA_HEADER_SIZE then Some (failed [] None)
    else
      let header := [StoreHeader buf_start SHARED_DATA_TLV_INFO_MAGIC
                                 SHARED_DATA_HEADER_SIZE] in
      if BOOT_DATA_AVAILABLE then
        copy_loop fuel tlv_major buf_start buf_size tlv_end st offset
                  (buf_start + OFFSETOF_DATA) SHARED_DATA_HEADER_SIZE header
      else Some (mk_reply (uint32 PSA_SUCCESS) header
                          (Some SHARED_DATA_HEADER_SIZE)).

(** The bytes a store covers lie in [[lo, hi)]. *)
Definition store_within (lo hi : Z) (x : store) : Prop :=
  match x with
  | StoreHeader buf _ _ => lo <= buf /\ buf + SHARED_DATA_HEADER_SIZE <= hi
  | CopyEntry dst _ len => 0 <= len /\ lo <= dst /\ dst + len <= hi
  | AddTotLen buf _ => lo <= buf /\ buf + SHARED_DATA_HEADER_SIZE <= hi
  end.

(** The copies among the stores, as (destination, source, length). *)
Fixpoint copies (l : list store) : list (Z * Z * Z) :=
  match l with
  | [] => []
  | CopyEntry dst src len :: rest => (dst, src, len) :: copies rest
  | _ :: rest => copies rest
  end.

(** The lengths of the copies, added up. *)
Definition copied (l : list store) : Z :=
  fold_right Z.add 0 (map (fun c => snd c) (copies l)).

(** The copies fill the buffer from [start] on without a gap. *)
Fixpoint contiguous (start : Z) (cs : list (Z * Z * Z)) : Prop :=
  match cs with
  | [] => True
  | (dst, _, len) :: rest => dst = start /\ contiguous (start + len) rest
  end.

(** The entry headers of the shared area hold 16-bit lengths. *)
Definition lengths_fit (st : boot_state) : Prop :=
  forall a, 0 <= snd (tlv_entry_at st a) < 2 ^ 16.

(** The constants of the layout are in the range of the 16-bit sizes the
    file works with, and [size_t] has room for a sum of three of them. *)
Definition layout_fits : Prop :=
  0 <= SHARED_DATA_HEADER_SIZE <= 2 ^ 16 /\
  0 <= SHARED_DATA_ENTRY_HEADER_SIZE <= 2 ^ 16 /\
  0 <= OFFSETOF_DATA <= 2 ^ 16 /\
  18 <= SIZE_T_BITS.

(** The shared area is where [uintptr_t] can address it: stepping over an
    entry from inside the area does not wrap. *)
Definition area_fits (st : boot_state) : Prop :=
  0 <= SHARED_BOOT_MEASUREMENT_BASE /\
  0 <= shared_tlv_tot_len st < 2 ^ 16 /\
  SHARED_BOOT_MEASUREMENT_BASE + 2 ^ 16 + 2 ^ 17 <= 2 ^ UINTPTR_BITS.

(** What the copy loop keeps true of the stores it has made. *)
Record loop_inv (tlv_major buf_start buf_size : Z) (st : boot_state)
    (ptr tot : Z) (done : list store) : Prop := mk_inv {
  inv_within : Forall (store_within buf_start (buf_start + buf_size)) done;
  inv_ptr : ptr = buf_start + OFFSETOF_DATA + copied done;
  inv_copied : 0 <= copied done;
  inv_room : copied done = 0 \/ OFFSETOF_DATA + copied done <= buf_size;
  inv_tot : tot = uint16 (SHARED_DATA_HEADER_SIZE + copied done);
  inv_contig : contiguous (buf_start + OFFSETOF_DATA) (copies done);
  inv_major : Forall (fun c =>
                let '(_, src, len) := c in
                GET_MAJOR (fst (tlv_entry_at st src)) = tlv_major /\
                len = SHARED_DATA_ENTRY_HEADER_SIZE
                      + snd (tlv_entry_at st src)) (copies done)
}.

End Query.
End BootData.

(* ===================================================================== *)
(** ** A concrete platform

    One build of the engine, on which the definitions above are run: four
    slots, four descriptors a call, 32-bit masks, the IPC backend with
    connection-based services, and collaborators that answer from a
    counter. *)
(* ===================================================================== *)

Module Demo.
Import Mailbox.

#[export] Instance psa_status : PsaStatus := {|
  PSA_SUCCESS := 0;
  PSA_ERROR_GENERIC_ERROR := -132;
  PSA_ERROR_INVALID_ARGUMENT := -135;
  PSA_ERROR_PROGRAMMER_ERROR := -129;
  PSA_ERROR_CONNECTION_REFUSED := -130;
  PSA_ERROR_CONNECTION_BUSY := -131
|}.

#[export] Instance platform : Platform := {|
  NUM_MAILBOX_QUEUE_SLOT := 4;
  PSA_MAX_IOVEC := 4;
  STATUS_BITS := 32;
  ULONG_BITS := 32;
  SIZE_BITS := 32;
  CONFIG_TFM_SPM_BACKEND_IPC := true;
  CONFIG_TFM_CONNECTION_BASED_SERVICE_API := true;
  MAILBOX_PSA_FRAMEWORK_VERSION := 1;
  MAILBOX_PSA_VERSION := 2;
  MAILBOX_PSA_CALL := 3;
  MAILBOX_PSA_CONNECT := 4;
  MAILBOX_PSA_CLOSE := 5;
  PARAM_PACK := fun type in_len out_len =>
    Z.lor (Z.land type 65535)
          (Z.lor (Z.shiftl (Z.land in_len 7) 24) (Z.shiftl (Z.land out_len 7) 16));
  PARAM_SET_NS_INVEC := fun c => Z.lor c (Z.shiftl 1 28);
  PARAM_SET_NS_OUTVEC := fun c => Z.lor c (Z.shiftl 1 29);
  backend := nat;
  tfm_rpc_psa_framework_version := fun w => (257, S w);
  tfm_rpc_psa_version := fun sid w => (1, S w);
  tfm_rpc_psa_call := fun h c cid ins outs owner w => (0, [7; 9], S w);
  tfm_rpc_psa_connect := fun sid v cid owner w => (0, S w);
  tfm_rpc_psa_close := fun h cid w => (0, S w);
  tfm_multi_core_hal_client_id_translate :=
    fun id => if id <? 0 then Some id else None;
  tfm_rpc_register_ops := fun w => (true, S w);
  tfm_rpc_unregister_ops := fun w => w;
  tfm_mailbox_hal_init := fun q w =>
    (MAILBOX_SUCCESS, mk_queue (empty_slots q) (queue q) 4096 8192 4, S w)
|}.

(** A message of each kind. *)
Definition version_msg : mailbox_msg_t := mk_msg 1 zero_params (-1).

Definition call_msg (in_vec in_len out_vec out_len : Z) : mailbox_msg_t :=
  mk_msg 3 (mk_params 0 0 0 0 64 0 in_vec in_len out_vec out_len) (-1).

Definition connect_msg : mailbox_msg_t :=
  mk_msg 4 (mk_params 0 17 1 0 0 0 0 0 0 0) (-1).

(** The descriptors the callers hold: [i] bytes at [1000 + i]. *)
Definition invec_mem (a : Z) : psa_invec := mk_invec (1000 + a) a.
Definition outvec_mem (a : Z) : psa_outvec := mk_outvec (2000 + a) 64.

Definition idle_vectors : vectors_t :=
  mk_vectors (replicate 4 zero_invec) (replicate 4 zero_outvec) 0 0 false.

(** After initialisation, with [count] non-secure slots that hold [msgs] and
    the pending mask [pend]. *)
Definition start (count : nat) (msgs : list mailbox_msg_t) (pend : Z) : mbox :=
  mk_mbox
    (mk_queue 15 (replicate 4 zero_slot) 4096 8192 count)
    (replicate 4 idle_vectors)
    (mk_status pend 0)
    (map (fun m => mk_ns_slot m 0) msgs)
    invec_mem outvec_mem O.

(** Every slot pending: a version query, a call with two input and two
    output descriptors, a connect, a version query. *)
Definition pending4 : mbox :=
  start 4 [version_msg; call_msg 10 2 20 2; connect_msg; version_msg] 15.

(** One non-secure slot, and a pending bit set above it. *)
Definition short : mbox := start 1 [version_msg] 2.

(** The observable parts of an outcome. *)
Definition returned {A} (o : outcome A) : option A :=
  match o with Done a _ _ => Some a | Fault _ => None end.

Definition trace {A} (o : outcome A) : list event :=
  match o with Done _ _ t => t | Fault _ => [] end.

Definition final {A} (o : outcome A) : option mbox :=
  match o with Done _ s _ => Some s | Fault _ => None end.

(** [pending4] after a drain pass: slots 1 and 2 wait for their replies. *)
Definition drained : mbox :=
  match tfm_mailbox_handle_msg pending4 with
  | Done _ s _ => s
  | Fault _ => pending4
  end.

(** [drained] after the reply to slot 1 has been committed. *)
Definition committed : mbox :=
  match mailbox_direct_reply 1 0 drained with
  | Done _ s _ => s
  | Fault _ => drained
  end.

(** The state an outcome ends in, [s] when there is none. *)
Definition after {P : Platform} {A} (o : @outcome P A) (s : @mbox P)
  : @mbox P :=
  match o with Done _ s' _ => s' | Fault _ => s end.

(** A message whose call type is none of the five. *)
Definition stray_msg : mailbox_msg_t := mk_msg 9 zero_params (-1).

(** A call from a client whose id does not translate. *)
Definition foreign_call_msg : mailbox_msg_t :=
  mk_msg 3 (mk_params 0 0 0 0 64 0 10 2 20 2) 7.

(** Four slots, of which slot 0 is occupied and records an origin that is
    no slot. *)
Definition strayed : mbox :=
  mk_mbox
    (mk_queue 14 (mk_slot 7 1 version_msg :: replicate 3 zero_slot)
              4096 8192 4)
    (replicate 4 idle_vectors)
    (mk_status 0 0)
    (map (fun m => mk_ns_slot m 0)
         [version_msg; version_msg; version_msg; version_msg])
    invec_mem outvec_mem O.

(** [pending4] with the stray message pending in slot 0. *)
Definition stray4 : mbox :=
  start 4 [stray_msg; call_msg 10 2 20 2; connect_msg; version_msg] 1.

End Demo.

(** One build of the connection API: three services, a pool that hands out
    its free connections in order, and a backend that fails for one of the
    services. *)
Module DemoSpm.
Import Spm.

(** Modelled from the spec: [spm_allocate_connection] is defined in [spm],
    which is not among the sources; it allocates a connection from the pool
    and fails, leaving the pool as it is, when the pool is exhausted. *)
Definition pop_free (s : spm) : Z * spm :=
  match pool_free s with
  | [] => (NULL, s)
  | p :: rest => (p, mk_spm rest (conns s))
  end.

(** Modelled from the spec: [spm_init_idle_connection] is not among the
    sources; it initialises the connection to IDLE, bound to the service and
    the caller id. *)
Definition init_idle (c : connection_t) (service client_id : Z) : connection_t :=
  mk_conn TFM_HANDLE_STATUS_IDLE service 0 client_id 0.

(** Service 17 is stateful, 18 is stateless, 19 is stateful and its
    partition rejects every message; no other service exists. *)
Definition registry (sid : Z) : Z :=
  if sid =? 17 then 100 else if sid =? 18 then 200 else if sid =? 19 then 300
  else NULL.

#[export] Instance spm_env : SpmEnv := {|
  PSA_NULL_HANDLE := 0;
  PSA_IPC_CONNECT := -1;
  PSA_IPC_DISCONNECT := -2;
  IS_STATIC_HANDLE := fun h => Z.testbit h 30;
  SERVICE_IS_STATELESS := fun flags => Z.testbit flags 0;
  service_flags := fun p => if p =? 200 then 1 else 0;
  tfm_spm_is_ns_caller := true;
  tfm_spm_get_client_id := fun ns => if ns then -1 else 1;
  tfm_spm_get_service_by_sid := registry;
  tfm_spm_check_authorization := fun sid service ns => 0;
  tfm_spm_check_client_version := fun service version =>
    if version <=? 1 then 0 else -130;
  spm_allocate_connection := pop_free;
  spm_init_idle_connection := init_idle;
  backend_messaging := fun p s =>
    (if service (conns s p) =? 300 then -132 else 0, s);
  spm_get_idle_connection := fun handle client_id s =>
    if msg_client_id (conns s handle) =? client_id then (0, handle)
    else (-129, NULL)
|}.

Definition blank : connection_t := mk_conn TFM_HANDLE_STATUS_IDLE 0 0 0 0.

(** A pool with two free connections, and an exhausted one. *)
Definition fresh : spm := mk_spm [4000; 4100] (fun _ => blank).
Definition exhausted : spm := mk_spm [] (fun _ => blank).

End DemoSpm.

(** One build of the boot-data query: every partition of the table built in,
    shared data available, and the layout of [tfm_boot_status.h] with 4-byte
    headers and the major type in the top four bits of [tlv_type]; the
    memory check accepts buffers inside one 64 KiB window. *)
Module DemoBoot.
Import BootData.

#[export] Instance boot_env : BootEnv := {|
  INVALID_PARTITION_ID := 0;
  TFM_SP_INITIAL_ATTESTATION := 259;
  TFM_SP_FWU := 271;
  TFM_SP_MEASURED_BOOT := 275;
  TFM_SP_DPE := 279;
  TLV_MAJOR_INVALID := 15;
  TLV_MAJOR_IAS := 1;
  TLV_MAJOR_FWU := 2;
  TLV_MAJOR_MBS := 3;
  TFM_PARTITION_INITIAL_ATTESTATION := true;
  TFM_PARTITION_FIRMWARE_UPDATE := true;
  TFM_PARTITION_MEASURED_BOOT := true;
  TFM_PARTITION_DPE := true;
  BOOT_DATA_AVAILABLE := true;
  SHARED_DATA_TLV_INFO_MAGIC := 8214;
  SHARED_DATA_HEADER_SIZE := 4;
  SHARED_DATA_ENTRY_HEADER_SIZE := 4;
  OFFSETOF_DATA := 4;
  GET_MAJOR := fun t => Z.shiftr t 12;
  SHARED_BOOT_MEASUREMENT_BASE := 805306368;
  UINTPTR_BITS := 32;
  SIZE_T_BITS := 32;
  TFM_HAL_ACCESS_READWRITE := 3;
  tfm_hal_memory_check := fun boundary base size access =>
    if (536870912 <=? base) && (base + size <=? 536936448) then 0 else -135
|}.

(** Three entries after the header of the shared area: 8 bytes of major
    type 1, 4 bytes of major type 2, 12 bytes of major type 1. *)
Definition entries (a : Z) : Z * Z :=
  if a =? 805306372 then (4097, 8)
  else if a =? 805306384 then (8193, 4)
  else if a =? 805306392 then (4098, 12)
  else (0, 0).

(** The attestation partition running, before and after validation. *)
Definition cold : boot_state := mk_boot 0 259 1 8214 40 entries.
Definition warm : boot_state := tfm_core_validate_boot_data cold.

(** The reply to a query of major type 1 into a buffer of 64 bytes. *)
Definition answer : reply :=
  mk_reply 0
    [StoreHeader 536870912 8214 4;
     CopyEntry 536870916 805306372 12; AddTotLen 536870912 12;
     CopyEntry 536870928 805306392 16; AddTotLen 536870912 16]
    (Some 32).

End DemoBoot.

(** The concrete platform with [vectors] at word 5000: the entry of slot 1
    takes the words 5019 to 5037, its [out_vec[0].len] is word 5028,
    [original_out_vec] word 5035, [out_len] word 5036 and [in_use] word
    5037; the entry of slot 2 starts at word 5038. *)
Module DemoWords.
Import Mailbox Words Demo.

#[export] Instance layout : Layout := {| VECTORS := 5000 |}.

(** Every word zero but those listed. *)
Fixpoint words (l : list (Z * Z)) : ram :=
  match l with
  | [] => fun _ => 0
  | (a, v) :: rest => fun x => if x =? a then v else words rest x
  end.





(** A caller's memory: two input descriptors at word 10, two output
    descriptors at word 20. *)
Definition callers : machine :=
  mk_machine pending4
    (words [(10, 1010); (11, 4); (12, 1012); (13, 8);
            (20, 2020); (21, 64); (22, 2022); (23, 64)]).

End DemoWords.

(* ===================================================================== *)
(** ** Properties of the mailbox queue engine *)
(* ===================================================================== *)

Module MailboxProps.
Import Mailbox.

Section Props.
Context `{PS : PsaStatus} `{P : Platform}.

(** *** Bits *)

Lemma bit_pow (idx : nat) : bit idx = 2 ^ Z.of_nat idx.
Proof. unfold bit. rewrite Z.shiftl_1_l. reflexivity. Qed.

Lemma bit_testbit (idx : nat) (i : Z) :
  0 <= i -> Z.testbit (bit idx) i = (i =? Z.of_nat idx).
Proof.
  intros Hi. rewrite bit_pow.
  rewrite Z.pow2_bits_eqb by lia.
  rewrite Z.eqb_sym. reflexivity.
Qed.

Lemma status_t_testbit_low (x i : Z) :
  0 <= i < STATUS_BITS -> Z.testbit (status_t x) i = Z.testbit x i.
Proof. intros Hi. unfold status_t, wrap. apply Z.mod_pow2_bits_low. lia. Qed.

Lemma testbit_land_bit (x : Z) (idx : nat) :
  Z.testbit x (Z.of_nat idx) = negb (Z.land x (bit idx) =? 0).
Proof.
  destruct (Z.land x (bit idx) =? 0) eqn:E; simpl.
  - apply Z.eqb_eq in E.
    assert (H : Z.testbit (Z.land x (bit idx)) (Z.of_nat idx) = false)
      by (rewrite E; apply Z.bits_0).
    rewrite Z.land_spec, bit_testbit, Z.eqb_refl, andb_true_r in H by lia.
    exact H.
  - apply Z.eqb_neq in E.
    destruct (Z.testbit x (Z.of_nat idx)) eqn:T; [reflexivity|].
    exfalso. apply E. apply Z.bits_inj'. intros n Hn.
    rewrite Z.land_spec, bit_testbit, Z.bits_0 by lia.
    destruct (Z.eqb_spec n (Z.of_nat idx)) as [->|].
    + rewrite T. reflexivity.
    + apply andb_false_r.
Qed.

(** *** Running the monad *)

Lemma copy_back_lens_some (ovs : list psa_outvec) (orig : Z) (n i : nat)
    (m : Z -> psa_outvec) :
  (i + n <= length ovs)%nat ->
  exists m', copy_back_lens ovs orig i n m = Some m'.
Proof.
  revert i m. induction n as [|n IH]; intros i m Hlen; simpl.
  - eauto.
  - destruct (lookup_lt_is_Some_2 ovs i) as [o Ho]; [lia|].
    rewrite Ho. apply IH. lia.
Qed.


Lemma bind_Done {A B} (m : M A) (f : A -> M B) (s s1 : mbox) (a : A)
    (t1 : list event) :
  m s = Done a s1 t1 ->
  bind m f s =
  match f a s1 with
  | Done b s2 t2 => Done b s2 (t1 ++ t2)
  | Fault e => Fault e
  end.
Proof. intros H. unfold bind. rewrite H. reflexivity. Qed.

Lemma load_vectors_eq (idx : nat) (s : mbox) (v : vectors_t) :
  vectors s !! idx = Some v -> load_vectors idx s = Done v s [].
Proof. intros H. unfold load_vectors. rewrite H. reflexivity. Qed.

Lemma store_vectors_eq (idx : nat) (v : vectors_t) (s : mbox) :
  (idx < length (vectors s))%nat ->
  store_vectors idx v s = Done tt (set_vectors s (<[idx := v]> (vectors s))) [].
Proof.
  intros H. unfold store_vectors.
  destruct (Nat.ltb_spec idx (length (vectors s))); [reflexivity | lia].
Qed.

Lemma load_slot_eq (idx : nat) (s : mbox) (x : secure_mailbox_slot_t) :
  queue (spe_mailbox_queue s) !! idx = Some x -> load_slot idx s = Done x s [].
Proof. intros H. unfold load_slot. rewrite H. reflexivity. Qed.

Lemma store_slot_eq (idx : nat) (x : secure_mailbox_slot_t) (s : mbox) :
  (idx < length (queue (spe_mailbox_queue s)))%nat ->
  store_slot idx x s =
  Done tt (set_queue_field s
             (set_queue_slots (spe_mailbox_queue s)
                              (<[idx := x]> (queue (spe_mailbox_queue s))))) [].
Proof.
  intros H. unfold store_slot.
  destruct (Nat.ltb_spec idx (length (queue (spe_mailbox_queue s))));
    [reflexivity | lia].
Qed.

Lemma load_ns_slot_eq (idx : nat) (s : mbox) (x : mailbox_slot_t) :
  ns_slots (spe_mailbox_queue s) <> NULL ->
  nspe_slots s !! idx = Some x -> load_ns_slot idx s = Done x s [].
Proof.
  intros Hp H. unfold load_ns_slot.
  destruct (Z.eqb_spec (ns_slots (spe_mailbox_queue s)) NULL); [contradiction|].
  rewrite H. reflexivity.
Qed.

Lemma store_ns_slot_eq (idx : nat) (x : mailbox_slot_t) (s : mbox) :
  ns_slots (spe_mailbox_queue s) <> NULL ->
  (idx < length (nspe_slots s))%nat ->
  store_ns_slot idx x s =
  Done tt (set_nspe_slots s (<[idx := x]> (nspe_slots s))) [].
Proof.
  intros Hp H. unfold store_ns_slot.
  destruct (Z.eqb_spec (ns_slots (spe_mailbox_queue s)) NULL); [contradiction|].
  destruct (Nat.ltb_spec idx (length (nspe_slots s))); [reflexivity | lia].
Qed.

Lemma clean_queue_slot_eq (idx : nat) (s : mbox) :
  (idx < NUM_MAILBOX_QUEUE_SLOT)%nat ->
  (idx < length (queue (spe_mailbox_queue s)))%nat ->
  mailbox_clean_queue_slot idx s =
  Done tt
    (set_queue_field s
       (set_spe_queue_empty_status idx
          (set_queue_slots (spe_mailbox_queue s)
             (<[idx := zero_slot]> (queue (spe_mailbox_queue s))))))
    [CleanSlot idx].
Proof.
  intros Hidx Hlen. unfold mailbox_clean_queue_slot.
  rewrite (bind_Done _ _ s s tt [CleanSlot idx]) by reflexivity.
  destruct (Nat.leb_spec NUM_MAILBOX_QUEUE_SLOT idx); [lia|].
  rewrite (bind_Done _ _ _ _ _ _ (store_slot_eq idx zero_slot s Hlen)).
  reflexivity.
Qed.

Lemma reply_addr_eq (idx : nat) (s : mbox) (sl : secure_mailbox_slot_t) :
  (idx < NUM_MAILBOX_QUEUE_SLOT)%nat ->
  queue (spe_mailbox_queue s) !! idx = Some sl ->
  (Z.to_nat (ns_slot_idx sl) < NUM_MAILBOX_QUEUE_SLOT)%nat ->
  (Z.to_nat (ns_slot_idx sl) < ns_slot_count (spe_mailbox_queue s))%nat ->
  get_nspe_reply_addr idx s = Done (Z.to_nat (ns_slot_idx sl)) s [].
Proof.
  intros Hidx Hsl Hk1 Hk2. unfold get_nspe_reply_addr.
  destruct (Nat.leb_spec NUM_MAILBOX_QUEUE_SLOT idx); [lia|].
  rewrite (bind_Done _ _ _ _ _ _ (load_slot_eq idx s sl Hsl)).
  destruct (Nat.leb_spec NUM_MAILBOX_QUEUE_SLOT (Z.to_nat (ns_slot_idx sl)));
    [lia|].
  rewrite (bind_Done _ _ s s s []) by reflexivity.
  destruct (Nat.leb_spec (ns_slot_count (spe_mailbox_queue s))
                         (Z.to_nat (ns_slot_idx sl))); [lia|].
  reflexivity.
Qed.

Lemma direct_reply_run (idx : nat) (result : Z) (s : mbox)
    (v : vectors_t) (sl : secure_mailbox_slot_t) (x : mailbox_slot_t)
    (m' : Z -> psa_outvec) :
  (idx < NUM_MAILBOX_QUEUE_SLOT)%nat ->
  vectors s !! idx = Some v ->
  queue (spe_mailbox_queue s) !! idx = Some sl ->
  (Z.to_nat (ns_slot_idx sl) < NUM_MAILBOX_QUEUE_SLOT)%nat ->
  (Z.to_nat (ns_slot_idx sl) < ns_slot_count (spe_mailbox_queue s))%nat ->
  ns_slots (spe_mailbox_queue s) <> NULL ->
  nspe_slots s !! Z.to_nat (ns_slot_idx sl) = Some x ->
  (if in_use v && (result =? uint32 PSA_SUCCESS)
   then copy_back_lens (out_vec v) (original_out_vec v) 0
                       (Z.to_nat (out_len v)) (ns_outvec_mem s)
   else Some (ns_outvec_mem s)) = Some m' ->
  mailbox_direct_reply idx result s =
  Done tt
    (mk_mbox
       (set_spe_queue_empty_status idx
          (set_queue_slots (spe_mailbox_queue s)
             (<[idx := zero_slot]> (queue (spe_mailbox_queue s)))))
       (<[idx := set_in_use v false]> (vectors s))
       (nspe_status s)
       (<[Z.to_nat (ns_slot_idx sl) := set_return_val x (sint32 result)]>
          (nspe_slots s))
       (ns_invec_mem s) m' (world s))
    [DirectReply idx result; CleanSlot idx].
Proof.
  intros Hidx Hv Hsl Hk1 Hk2 Hp Hx Hm.
  pose proof (lookup_lt_Some _ _ _ Hv) as Lv.
  pose proof (lookup_lt_Some _ _ _ Hsl) as Lq.
  pose proof (lookup_lt_Some _ _ _ Hx) as Lx.
  unfold mailbox_direct_reply.
  rewrite (bind_Done _ _ s s tt [DirectReply idx result]) by reflexivity.
  rewrite (bind_Done _ _ _ _ _ _ (load_vectors_eq idx s v Hv)).
  set (s1 := set_ns_outvec_mem s m').
  assert (E1 :
    (if in_use v && (result =? uint32 PSA_SUCCESS)
     then bind get (fun s0 =>
            match copy_back_lens (out_vec v) (original_out_vec v) 0
                    (Z.to_nat (out_len v)) (ns_outvec_mem s0) with
            | Some m => put (set_ns_outvec_mem s0 m)
            | None => raise OutOfBounds
            end)
     else ret tt) s = Done tt s1 []).
  { destruct (in_use v && (result =? uint32 PSA_SUCCESS)).
    - unfold bind, get. rewrite Hm. reflexivity.
    - injection Hm as <-. subst s1. destruct s; reflexivity. }
  rewrite (bind_Done _ _ _ _ _ _ E1).
  rewrite (bind_Done _ _ _ _ _ _ (store_vectors_eq idx (set_in_use v false) s1 Lv)).
  set (s2 := set_vectors s1 _).
  rewrite (bind_Done _ _ _ _ _ _ (reply_addr_eq idx s2 sl Hidx Hsl Hk1 Hk2)).
  rewrite (bind_Done _ _ _ _ _ _ (load_ns_slot_eq _ s2 x Hp Hx)).
  rewrite (bind_Done _ _ _ _ _ _
             (store_ns_slot_eq _ (set_return_val x (sint32 result)) s2 Hp Lx)).
  set (s3 := set_nspe_slots s2 _).
  rewrite (clean_queue_slot_eq idx s3 Hidx Lq).
  reflexivity.
Qed.


Lemma bind_inv {A B} (m : M A) (f : A -> M B) (s s2 : mbox) (b : B)
    (t : list event) :
  bind m f s = Done b s2 t ->
  exists a s1 t1 t2,
    m s = Done a s1 t1 /\ f a s1 = Done b s2 t2 /\ t = t1 ++ t2.
Proof.
  unfold bind. intros H.
  destruct (m s) as [a s1 t1|]; [|discriminate].
  destruct (f a s1) as [b' s2' t2|] eqn:E; [|discriminate].
  injection H as -> -> <-. eauto 10.
Qed.

Lemma reply_addr_inv (idx k : nat) (s s' : mbox) (t : list event) :
  get_nspe_reply_addr idx s = Done k s' t ->
  s' = s /\ t = [] /\ (idx < NUM_MAILBOX_QUEUE_SLOT)%nat /\
  exists sl,
    queue (spe_mailbox_queue s) !! idx = Some sl /\
    k = Z.to_nat (ns_slot_idx sl) /\
    (k < NUM_MAILBOX_QUEUE_SLOT)%nat /\
    (k < ns_slot_count (spe_mailbox_queue s))%nat.
Proof.
  unfold get_nspe_reply_addr, raise. intros H.
  destruct (Nat.leb_spec NUM_MAILBOX_QUEUE_SLOT idx) as [|Hidx]; [discriminate|].
  apply bind_inv in H as (sl & s1 & t1 & t2 & E1 & H & ->).
  unfold load_slot in E1.
  destruct (queue (spe_mailbox_queue s) !! idx) as [sl'|] eqn:Hsl;
    [|discriminate].
  injection E1 as ? ? ?. subst sl' s1 t1.
  destruct (Nat.leb_spec NUM_MAILBOX_QUEUE_SLOT (Z.to_nat (ns_slot_idx sl)))
    as [|Hk1]; [discriminate|].
  apply bind_inv in H as (s0 & s2 & t3 & t4 & E2 & H & ->).
  unfold get in E2. injection E2 as ? ? ?. subst s0 s2 t3.
  destruct (Nat.leb_spec (ns_slot_count (spe_mailbox_queue s))
                         (Z.to_nat (ns_slot_idx sl))) as [|Hk2];
    [discriminate|].
  unfold ret in H. injection H as ? ? ?. subst k s' t4.
  repeat split; try assumption. exists sl. repeat split; assumption.
Qed.

Lemma direct_reply_inv (idx : nat) (result : Z) (s s' : mbox) (a : unit)
    (t : list event) :
  mailbox_direct_reply idx result s = Done a s' t ->
  (idx < NUM_MAILBOX_QUEUE_SLOT)%nat /\
  exists v sl x m',
    vectors s !! idx = Some v /\
    queue (spe_mailbox_queue s) !! idx = Some sl /\
    (Z.to_nat (ns_slot_idx sl) < NUM_MAILBOX_QUEUE_SLOT)%nat /\
    (Z.to_nat (ns_slot_idx sl) < ns_slot_count (spe_mailbox_queue s))%nat /\
    ns_slots (spe_mailbox_queue s) <> NULL /\
    nspe_slots s !! Z.to_nat (ns_slot_idx sl) = Some x /\
    (if in_use v && (result =? uint32 PSA_SUCCESS)
     then copy_back_lens (out_vec v) (original_out_vec v) 0
                         (Z.to_nat (out_len v)) (ns_outvec_mem s)
     else Some (ns_outvec_mem s)) = Some m'.
Proof.
  intros H. unfold mailbox_direct_reply in H.
  apply bind_inv in H as (u0 & s0 & t0 & t0' & E0 & H & ->).
  unfold emit in E0. injection E0 as ? ? ?. subst u0 s0 t0.
  apply bind_inv in H as (v & s1 & t1 & t1' & E1 & H & ->).
  unfold load_vectors in E1.
  destruct (vectors s !! idx) as [v'|] eqn:Hv; [|discriminate].
  injection E1 as ? ? ?. subst v' s1 t1.
  apply bind_inv in H as (u2 & s2 & t2 & t2' & E2 & H & ->).
  assert (Hm : exists m',
    (if in_use v && (result =? uint32 PSA_SUCCESS)
     then copy_back_lens (out_vec v) (original_out_vec v) 0
                         (Z.to_nat (out_len v)) (ns_outvec_mem s)
     else Some (ns_outvec_mem s)) = Some m' /\
    s2 = set_ns_outvec_mem s m').
  { destruct (in_use v && (result =? uint32 PSA_SUCCESS)).
    - unfold bind, get, put, raise in E2.
      destruct (copy_back_lens _ _ _ _ _) as [m|]; [|discriminate].
      injection E2 as ? ? ?. subst s2. eauto.
    - unfold ret in E2. injection E2 as ? ? ?. subst s2.
      exists (ns_outvec_mem s). split; [reflexivity|]. destruct s; reflexivity. }
  destruct Hm as (m' & Hm & ->).
  apply bind_inv in H as (u3 & s3 & t3 & t3' & E3 & H & ->).
  unfold store_vectors in E3.
  destruct (Nat.ltb_spec idx (length (vectors (set_ns_outvec_mem s m'))));
    [|discriminate].
  injection E3 as ? ? ?. subst u3 s3 t3.
  apply bind_inv in H as (k & s4 & t4 & t4' & E4 & H & ->).
  apply reply_addr_inv in E4 as (-> & _ & Hidx & sl & Hsl & -> & Hk1 & Hk2).
  apply bind_inv in H as (x & s5 & t5 & t5' & E5 & H & ->).
  unfold load_ns_slot in E5. simpl in E5.
  destruct (Z.eqb_spec (ns_slots (spe_mailbox_queue s)) NULL) as [|Hp];
    [discriminate|].
  destruct (nspe_slots s !! Z.to_nat (ns_slot_idx sl)) as [x'|] eqn:Hx;
    [|discriminate].
  injection E5 as ? ? ?. subst x'.
  split; [exact Hidx|].
  exists v, sl, x, m'. simpl in *. repeat split; assumption.
Qed.

Lemma copy_back_lens_spec (ovs : list psa_outvec) (orig : Z) (n i : nat)
    (m m' : Z -> psa_outvec) :
  copy_back_lens ovs orig i n m = Some m' ->
  (forall a, a < orig + Z.of_nat i \/ orig + Z.of_nat i + Z.of_nat n <= a ->
             m' a = m a) /\
  (forall j, (i <= j < i + n)%nat ->
             exists o, ovs !! j = Some o /\
                       m' (orig + Z.of_nat j) =
                       mk_outvec (ov_base (m (orig + Z.of_nat j))) (ov_len o)).
Proof.
  revert i m. induction n as [|n IH]; intros i m H; simpl in H.
  - injection H as <-. split; [reflexivity | intros; lia].
  - destruct (ovs !! i) as [o|] eqn:Ho; [|discriminate].
    apply IH in H as [Hout Hin]. split.
    + intros a Ha. rewrite Hout by lia. unfold write_len.
      destruct (Z.eqb_spec a (orig + Z.of_nat i)); [lia | reflexivity].
    + intros j Hj. destruct (Nat.eq_dec j i) as [->|Hne].
      * exists o. split; [exact Ho|]. rewrite Hout by lia.
        unfold write_len. rewrite Z.eqb_refl. reflexivity.
      * destruct (Hin j) as (o' & Ho' & E); [lia|].
        exists o'. split; [exact Ho'|]. rewrite E. unfold write_len.
        destruct (Z.eqb_spec (orig + Z.of_nat j) (orig + Z.of_nat i));
          [lia | reflexivity].
Qed.

(** *** Committing a reply *)

Lemma direct_reply_final (idx : nat) (result : Z) (s s' : mbox) (a : unit)
    (t : list event) :
  mailbox_direct_reply idx result s = Done a s' t ->
  (idx < NUM_MAILBOX_QUEUE_SLOT)%nat /\
  t = [DirectReply idx result; CleanSlot idx] /\
  exists v sl x m',
    vectors s !! idx = Some v /\
    queue (spe_mailbox_queue s) !! idx = Some sl /\
    nspe_slots s !! Z.to_nat (ns_slot_idx sl) = Some x /\
    (if in_use v && (result =? uint32 PSA_SUCCESS)
     then copy_back_lens (out_vec v) (original_out_vec v) 0
                         (Z.to_nat (out_len v)) (ns_outvec_mem s)
     else Some (ns_outvec_mem s)) = Some m' /\
    s' = mk_mbox
           (set_spe_queue_empty_status idx
              (set_queue_slots (spe_mailbox_queue s)
                 (<[idx := zero_slot]> (queue (spe_mailbox_queue s)))))
           (<[idx := set_in_use v false]> (vectors s))
           (nspe_status s)
           (<[Z.to_nat (ns_slot_idx sl) := set_return_val x (sint32 result)]>
              (nspe_slots s))
           (ns_invec_mem s) m' (world s).
Proof.
  intros H.
  destruct (direct_reply_inv _ _ _ _ _ _ H)
    as (Hidx & v & sl & x & m' & Hv & Hsl & Hk1 & Hk2 & Hp & Hx & Hm).
  rewrite (direct_reply_run idx result s v sl x m') in H by assumption.
  injection H as ? ? ?. subst.
  split; [exact Hidx|]. split; [reflexivity|].
  exists v, sl, x, m'. repeat split; assumption.
Qed.

Lemma empty_status_set (idx : nat) (q : secure_mailbox_queue_t) :
  slots_fit -> (idx < NUM_MAILBOX_QUEUE_SLOT)%nat ->
  Z.testbit (empty_slots (set_spe_queue_empty_status idx q)) (Z.of_nat idx)
  = true.
Proof.
  unfold slots_fit, set_spe_queue_empty_status. intros Hfit Hidx.
  destruct (Nat.ltb_spec idx NUM_MAILBOX_QUEUE_SLOT); [|lia]. simpl.
  rewrite status_t_testbit_low by lia.
  rewrite Z.lor_spec, bit_testbit, Z.eqb_refl by lia.
  apply orb_true_r.
Qed.

Lemma empty_status_get (idx : nat) (q : secure_mailbox_queue_t) :
  (idx < NUM_MAILBOX_QUEUE_SLOT)%nat ->
  get_spe_queue_empty_status idx q = Z.testbit (empty_slots q) (Z.of_nat idx).
Proof.
  intros Hidx. unfold get_spe_queue_empty_status.
  destruct (Nat.ltb_spec idx NUM_MAILBOX_QUEUE_SLOT); [|lia]. simpl.
  symmetry. apply testbit_land_bit.
Qed.

Lemma queue_set_empty_status (idx : nat) (q : secure_mailbox_queue_t) :
  queue (set_spe_queue_empty_status idx q) = queue q.
Proof.
  unfold set_spe_queue_empty_status.
  destruct (idx <? NUM_MAILBOX_QUEUE_SLOT)%nat; reflexivity.
Qed.

(** C4.  For every slot index in range and every result, once
    [mailbox_direct_reply] has returned the slot's queue entry is all zero,
    the slot's bit is set in [empty_slots], and the slot's entry of
    [vectors] is not in use. *)
Theorem commit_reply_clears (idx : nat) (result : Z) (s s' : mbox)
    (t : list event) :
  slots_fit ->
  (idx < NUM_MAILBOX_QUEUE_SLOT)%nat ->
  mailbox_direct_reply idx result s = Done tt s' t ->
  queue (spe_mailbox_queue s') !! idx = Some zero_slot /\
  get_spe_queue_empty_status idx (spe_mailbox_queue s') = true /\
  exists v', vectors s' !! idx = Some v' /\ in_use v' = false.
Proof.
  intros Hfit Hidx H.
  apply direct_reply_final in H
    as (_ & _ & v & sl & x & m' & Hv & Hsl & Hx & Hm & ->).
  simpl. repeat split.
  - rewrite queue_set_empty_status. simpl.
    apply list_lookup_insert_eq. eapply lookup_lt_Some; eassumption.
  - rewrite empty_status_get by assumption.
    apply empty_status_set; assumption.
  - exists (set_in_use v false). split; [|reflexivity].
    apply list_lookup_insert_eq. eapply lookup_lt_Some; eassumption.
Qed.

(** *** Staging, and delivering a reply *)

(** C5.  A request whose output or input descriptor array is null while its
    length is not zero, or one of whose lengths, or their sum, exceeds
    [PSA_MAX_IOVEC], makes [local_copy_vects] return [MAILBOX_INVAL_PARAMS]
    with the state and [control] as they were and no call made. *)
Theorem stage_vectors_rejects (prm : psa_client_params_t) (idx : nat)
    (control : Z) (s : mbox) :
  0 <= cp_in_len prm ->
  0 <= cp_out_len prm ->
  2 * Z.of_nat PSA_MAX_IOVEC < 2 ^ SIZE_BITS ->
  (cp_out_vec prm = NULL /\ cp_out_len prm <> 0) \/
  (cp_in_vec prm = NULL /\ cp_in_len prm <> 0) \/
  Z.of_nat PSA_MAX_IOVEC < cp_in_len prm \/
  Z.of_nat PSA_MAX_IOVEC < cp_out_len prm \/
  Z.of_nat PSA_MAX_IOVEC < cp_in_len prm + cp_out_len prm ->
  local_copy_vects prm idx control s = Done (MAILBOX_INVAL_PARAMS, control) s [].
Proof.
  intros Hin Hout Hmax Hbad. unfold local_copy_vects.
  destruct ((cp_out_vec prm =? NULL) && negb (cp_out_len prm =? 0)
            || (cp_in_vec prm =? NULL) && negb (cp_in_len prm =? 0)) eqn:Enull;
    [reflexivity|].
  destruct ((Z.of_nat PSA_MAX_IOVEC <? cp_in_len prm)
            || (Z.of_nat PSA_MAX_IOVEC <? cp_out_len prm)
            || (Z.of_nat PSA_MAX_IOVEC <? size_t (cp_in_len prm + cp_out_len prm)))
    eqn:Elen; [reflexivity|].
  exfalso.
  apply orb_false_elim in Enull as [En1 En2].
  apply orb_false_elim in Elen as [Elen El3].
  apply orb_false_elim in Elen as [El1 El2].
  apply Z.ltb_ge in El1, El2, El3.
  assert (Hsum : size_t (cp_in_len prm + cp_out_len prm)
                 = cp_in_len prm + cp_out_len prm).
  { unfold size_t, wrap. apply Z.mod_small. lia. }
  rewrite Hsum in El3.
  lia.
Qed.

Lemma reply_msg_idx_eq (handle : Z) :
  reply_msg_idx handle =
  inr (if handle =? MAILBOX_MSG_NULL_HANDLE then O
       else Z.to_nat (uint8 (handle - 1))).
Proof.
  unfold reply_msg_idx, get_spe_mailbox_msg_idx.
  destruct (handle =? MAILBOX_MSG_NULL_HANDLE); reflexivity.
Qed.

(** C2, as the code has it.  [tfm_mailbox_reply_msg] never returns
    [MAILBOX_INVAL_PARAMS]: the null handle stands for slot 0 and any other
    handle for the slot [(uint8_t)(handle - 1)], with no check of the range;
    and when that slot is within the capacity and its bit is set in
    [empty_slots], the call returns [MAILBOX_NO_PEND_EVENT] with the state as
    it was and no call made. *)
Theorem deliver_reply_rejects_empty (handle reply : Z) (s : mbox) :
  (forall r s' t,
     tfm_mailbox_reply_msg handle reply s = Done r s' t ->
     r <> MAILBOX_INVAL_PARAMS) /\
  (get_spe_queue_empty_status
     (if handle =? MAILBOX_MSG_NULL_HANDLE then O
      else Z.to_nat (uint8 (handle - 1)))
     (spe_mailbox_queue s) = true ->
   tfm_mailbox_reply_msg handle reply s = Done MAILBOX_NO_PEND_EVENT s []).
Proof.
  split.
  - intros r s' t H.
    unfold tfm_mailbox_reply_msg in H. rewrite reply_msg_idx_eq in H.
    apply bind_inv in H as (s0 & s1 & t1 & t2 & E & H & ->).
    destruct (get_spe_queue_empty_status _ _).
    + unfold ret in H. injection H as <- _ _. discriminate.
    + repeat (apply bind_inv in H as (? & ? & ? & ? & _ & H & ->)).
      unfold ret in H. injection H as <- _ _. discriminate.
  - intros Hempty.
    unfold tfm_mailbox_reply_msg. rewrite reply_msg_idx_eq.
    unfold bind, get. rewrite Hempty. reflexivity.
Qed.

(** *** The drain pass, turn by turn *)

Lemma wf_set_world (count : nat) (s : mbox) (w : backend) :
  wf count s -> wf count (set_world s w).
Proof. intros []. constructor; assumption. Qed.

Lemma wf_set_ns_outvec_mem (count : nat) (s : mbox) (m : Z -> psa_outvec) :
  wf count s -> wf count (set_ns_outvec_mem s m).
Proof. intros []. constructor; assumption. Qed.

Lemma wf_store_vectors (count idx : nat) (s : mbox) (v : vectors_t) :
  wf count s -> vec_ok v ->
  wf count (set_vectors s (<[idx := v]> (vectors s))).
Proof.
  intros [] Hv. constructor; simpl; try assumption.
  - rewrite length_insert. assumption.
  - apply Forall_insert; assumption.
Qed.

Lemma wf_store_slot (count idx : nat) (s : mbox) (x : secure_mailbox_slot_t) :
  wf count s ->
  wf count (set_queue_field s
              (set_queue_slots (spe_mailbox_queue s)
                               (<[idx := x]> (queue (spe_mailbox_queue s))))).
Proof.
  intros []. constructor; simpl; try assumption.
  rewrite length_insert. assumption.
Qed.

Lemma wf_set_empty (count : nat) (s : mbox) (e : Z) :
  wf count s ->
  wf count (set_queue_field s (set_empty_slots (spe_mailbox_queue s) e)).
Proof. intros []. constructor; assumption. Qed.

Lemma wf_set_empty_status (count idx : nat) (s : mbox) :
  wf count s ->
  wf count (set_queue_field s
              (set_spe_queue_empty_status idx (spe_mailbox_queue s))).
Proof.
  intros H. unfold set_spe_queue_empty_status.
  destruct (idx <? NUM_MAILBOX_QUEUE_SLOT)%nat.
  - apply wf_set_empty. exact H.
  - destruct H. constructor; assumption.
Qed.

Lemma wf_clear_empty_status (count idx : nat) (s : mbox) :
  wf count s ->
  wf count (set_queue_field s
              (clear_spe_queue_empty_status idx (spe_mailbox_queue s))).
Proof.
  intros H. unfold clear_spe_queue_empty_status.
  destruct (idx <? NUM_MAILBOX_QUEUE_SLOT)%nat.
  - apply wf_set_empty. exact H.
  - destruct H. constructor; assumption.
Qed.

Lemma wf_store_ns_slot (count idx : nat) (s : mbox) (x : mailbox_slot_t) :
  wf count s -> wf count (set_nspe_slots s (<[idx := x]> (nspe_slots s))).
Proof.
  intros []. constructor; simpl; try assumption.
  rewrite length_insert. assumption.
Qed.

Lemma wf_set_nspe_status (count : nat) (s : mbox) (st : mailbox_status_t) :
  wf count s -> wf count (set_nspe_status s st).
Proof. intros []. constructor; assumption. Qed.

Lemma length_set_lens (ovs : list psa_outvec) (lens : list Z) :
  length (set_lens ovs lens) = length ovs.
Proof.
  revert lens. induction ovs as [|o ovs IH]; intros [|l lens]; simpl;
    try reflexivity.
  rewrite IH. reflexivity.
Qed.

(** Staging either rejects the request and changes nothing, or fills the
    entry of the slot and marks it in use. *)
Lemma local_copy_vects_run (count idx : nat) (prm : psa_client_params_t)
    (control : Z) (s : mbox) :
  wf count s -> (idx < NUM_MAILBOX_QUEUE_SLOT)%nat ->
  exists r s',
    local_copy_vects prm idx control s = Done r s' [] /\
    wf count s' /\
    spe_mailbox_queue s' = spe_mailbox_queue s /\
    nspe_slots s' = nspe_slots s /\
    (fst r = MAILBOX_SUCCESS ->
     exists v, vectors s' !! idx = Some v /\
               (Z.to_nat (out_len v) <= length (out_vec v))%nat).
Proof.
  intros Hwf Hidx. unfold local_copy_vects.
  destruct (_ || _) eqn:E1.
  { eexists _, s. split; [reflexivity|]. split; [assumption|].
    split; [reflexivity|]. split; [reflexivity|]. simpl. intros; discriminate. }
  destruct (_ || _) eqn:E2 in |- *.
  { eexists _, s. split; [reflexivity|]. split; [assumption|].
    split; [reflexivity|]. split; [reflexivity|]. simpl. intros; discriminate. }
  assert (Hlen : (idx < length (vectors s))%nat)
    by (rewrite (wf_vectors _ _ Hwf); exact Hidx).
  destruct (lookup_lt_is_Some_2 _ _ Hlen) as [v Hv].
  rewrite (bind_Done _ _ _ _ _ _ (load_vectors_eq idx s v Hv)).
  rewrite (bind_Done _ _ s s s []) by reflexivity.
  rewrite (bind_Done _ _ _ _ _ _ (store_vectors_eq idx _ s Hlen)).
  eexists _, _. split; [reflexivity|].
  assert (Hout : (Z.to_nat (cp_out_len prm) <= PSA_MAX_IOVEC)%nat) by lia.
  split; [|split; [reflexivity | split; [reflexivity|]]].
  - apply wf_store_vectors; [assumption|].
    intros _. simpl. rewrite length_map, length_seq. exact Hout.
  - intros _. eexists. split.
    + simpl. apply list_lookup_insert_eq. exact Hlen.
    + simpl. rewrite length_map, length_seq. exact Hout.
Qed.

Lemma call_backend_eq {A} (f : backend -> A * backend) (s : mbox) :
  call_backend f s = Done (fst (f (world s))) (set_world s (snd (f (world s)))) [].
Proof. reflexivity. Qed.

(** The switch of the dispatcher always comes to an end, makes no recorded
    call, and leaves the queue and the non-secure slots as they were. *)
Lemma dispatch_switch_run (count idx : nat) (m : mailbox_msg_t)
    (control : Z) (sync : bool) (s : mbox) :
  wf count s -> (idx < NUM_MAILBOX_QUEUE_SLOT)%nat ->
  exists r s',
    dispatch_switch m idx control sync s = Done r s' [] /\
    wf count s' /\
    spe_mailbox_queue s' = spe_mailbox_queue s /\
    nspe_slots s' = nspe_slots s.
Proof.
  intros Hwf Hidx. unfold dispatch_switch.
  destruct (call_type m =? MAILBOX_PSA_FRAMEWORK_VERSION).
  { rewrite (bind_Done _ _ _ _ _ _ (call_backend_eq _ s)).
    eexists _, _. split; [reflexivity|].
    split; [apply wf_set_world; assumption | split; reflexivity]. }
  destruct (call_type m =? MAILBOX_PSA_VERSION).
  { rewrite (bind_Done _ _ _ _ _ _ (call_backend_eq _ s)).
    eexists _, _. split; [reflexivity|].
    split; [apply wf_set_world; assumption | split; reflexivity]. }
  destruct (call_type m =? MAILBOX_PSA_CALL).
  { destruct (local_copy_vects_run count idx (params m) control s Hwf Hidx)
      as (r & s1 & E1 & Hwf1 & Hq1 & Hn1 & _).
    rewrite (bind_Done _ _ _ _ _ _ E1).
    destruct (negb (is_success (fst r))).
    { eexists _, _. split; [reflexivity|].
      split; [assumption | split; first [assumption | reflexivity]]. }
    destruct (tfm_multi_core_hal_client_id_translate (client_id m)) as [cid|].
    2: { eexists _, _. split; [reflexivity|].
      split; [assumption | split; first [assumption | reflexivity]]. }
    assert (Hlen : (idx < length (vectors s1))%nat)
      by (rewrite (wf_vectors _ _ Hwf1); exact Hidx).
    destruct (lookup_lt_is_Some_2 _ _ Hlen) as [v Hv].
    rewrite (bind_Done _ _ _ _ _ _ (load_vectors_eq idx s1 v Hv)).
    rewrite (bind_Done _ _ _ _ _ _ (call_backend_eq _ s1)).
    rewrite (bind_Done _ _ _ _ _ _
               (store_vectors_eq idx _ (set_world s1 _) Hlen)).
    eexists _, _. split; [reflexivity|].
    split; [|split; assumption].
    apply (wf_store_vectors count idx (set_world s1 _)).
    - apply wf_set_world. assumption.
    - intros Huse. simpl in *. rewrite length_set_lens.
      exact (Forall_lookup_1 _ _ _ _ (wf_vec_ok _ _ Hwf1) Hv Huse). }
  destruct (CONFIG_TFM_CONNECTION_BASED_SERVICE_API
            && (call_type m =? MAILBOX_PSA_CONNECT)).
  { destruct (tfm_multi_core_hal_client_id_translate (client_id m)) as [cid|].
    2: { eexists _, _. split; [reflexivity|].
      split; [assumption | split; first [assumption | reflexivity]]. }
    rewrite (bind_Done _ _ _ _ _ _ (call_backend_eq _ s)).
    eexists _, _. split; [reflexivity|].
    split; [apply wf_set_world; assumption | split; reflexivity]. }
  destruct (CONFIG_TFM_CONNECTION_BASED_SERVICE_API
            && (call_type m =? MAILBOX_PSA_CLOSE)).
  { destruct (tfm_multi_core_hal_client_id_translate (client_id m)) as [cid|].
    2: { eexists _, _. split; [reflexivity|].
      split; [assumption | split; first [assumption | reflexivity]]. }
    rewrite (bind_Done _ _ _ _ _ _ (call_backend_eq _ s)).
    eexists _, _. split; [reflexivity|].
    split; [apply wf_set_world; assumption | split; reflexivity]. }
  eexists _, _. split; [reflexivity|].
      split; [assumption | split; first [assumption | reflexivity]].
Qed.

Lemma wf_same_shape (count : nat) (s s' : mbox) :
  wf count s ->
  length (queue (spe_mailbox_queue s')) = length (queue (spe_mailbox_queue s)) ->
  length (vectors s') = length (vectors s) ->
  ns_slot_count (spe_mailbox_queue s') = ns_slot_count (spe_mailbox_queue s) ->
  length (nspe_slots s') = length (nspe_slots s) ->
  ns_status (spe_mailbox_queue s') = ns_status (spe_mailbox_queue s) ->
  ns_slots (spe_mailbox_queue s') = ns_slots (spe_mailbox_queue s) ->
  Forall vec_ok (vectors s') ->
  wf count s'.
Proof.
  intros [] E1 E2 E3 E4 E5 E6 Hv.
  constructor; congruence.
Qed.

Lemma set_empty_status_frame (idx : nat) (q : secure_mailbox_queue_t) :
  queue (set_spe_queue_empty_status idx q) = queue q /\
  ns_slot_count (set_spe_queue_empty_status idx q) = ns_slot_count q /\
  ns_status (set_spe_queue_empty_status idx q) = ns_status q /\
  ns_slots (set_spe_queue_empty_status idx q) = ns_slots q.
Proof.
  unfold set_spe_queue_empty_status.
  destruct (idx <? NUM_MAILBOX_QUEUE_SLOT)%nat; repeat split.
Qed.

Lemma wf_direct_reply (count idx k : nat) (s : mbox) (v : vectors_t)
    (x : mailbox_slot_t) (r : Z) (m' : Z -> psa_outvec) :
  wf count s ->
  wf count
    (mk_mbox
       (set_spe_queue_empty_status idx
          (set_queue_slots (spe_mailbox_queue s)
             (<[idx := zero_slot]> (queue (spe_mailbox_queue s)))))
       (<[idx := set_in_use v false]> (vectors s))
       (nspe_status s)
       (<[k := set_return_val x r]> (nspe_slots s))
       (ns_invec_mem s) m' (world s)).
Proof.
  intros Hwf.
  destruct (set_empty_status_frame idx
              (set_queue_slots (spe_mailbox_queue s)
                 (<[idx := zero_slot]> (queue (spe_mailbox_queue s)))))
    as (E1 & E2 & E3 & E4).
  apply (wf_same_shape count s); cbn [spe_mailbox_queue vectors nspe_slots];
    try assumption.
  - rewrite E1. apply length_insert.
  - apply length_insert.
  - apply length_insert.
  - apply Forall_insert; [exact (wf_vec_ok _ _ Hwf)|]. intros Huse. discriminate.
Qed.

(** In a well-formed state a reply to a slot that records itself as its
    origin goes through. *)
Lemma direct_reply_wf_run (count idx : nat) (result : Z) (s : mbox)
    (sl : secure_mailbox_slot_t) :
  wf count s -> (idx < count)%nat ->
  queue (spe_mailbox_queue s) !! idx = Some sl ->
  ns_slot_idx sl = Z.of_nat idx ->
  exists s',
    mailbox_direct_reply idx result s =
    Done tt s' [DirectReply idx result; CleanSlot idx] /\
    wf count s'.
Proof.
  intros Hwf Hidx Hsl Hk.
  pose proof (wf_count_cap _ _ Hwf) as Hcap.
  assert (Hlen : (idx < length (vectors s))%nat)
    by (rewrite (wf_vectors _ _ Hwf); lia).
  destruct (lookup_lt_is_Some_2 _ _ Hlen) as [v Hv].
  assert (Hlx : (idx < length (nspe_slots s))%nat)
    by (pose proof (wf_count_ns _ _ Hwf); lia).
  destruct (lookup_lt_is_Some_2 _ _ Hlx) as [x Hx].
  assert (Hm : exists m',
    (if in_use v && (result =? uint32 PSA_SUCCESS)
     then copy_back_lens (out_vec v) (original_out_vec v) 0
                         (Z.to_nat (out_len v)) (ns_outvec_mem s)
     else Some (ns_outvec_mem s)) = Some m').
  { destruct (in_use v) eqn:Huse; simpl; [|eauto].
    destruct (result =? uint32 PSA_SUCCESS); [|eauto].
    apply copy_back_lens_some.
    exact (Forall_lookup_1 _ _ _ _ (wf_vec_ok _ _ Hwf) Hv Huse). }
  destruct Hm as [m' Hm].
  assert (Ek : Z.to_nat (ns_slot_idx sl) = idx) by (rewrite Hk; lia).
  eexists. split.
  - apply (direct_reply_run idx result s v sl x m'); try assumption.
    + lia.
    + rewrite Ek. lia.
    + rewrite Ek, (wf_count _ _ Hwf). exact Hidx.
    + exact (wf_slots_ptr _ _ Hwf).
    + rewrite Ek. exact Hx.
  - apply wf_direct_reply. exact Hwf.
Qed.

(** Dispatching a message in a well-formed state: the call is rejected with
    [reply_slots] untouched, or forwarded, or answered at once with the
    slot's bit added to [reply_slots]. *)
Lemma dispatch_run (count idx : nat) (m : mailbox_msg_t) (reply_slots : Z)
    (s : mbox) (sl : secure_mailbox_slot_t) :
  wf count s -> (idx < count)%nat ->
  queue (spe_mailbox_queue s) !! idx = Some sl ->
  ns_slot_idx sl = Z.of_nat idx ->
  exists r s' t,
    tfm_mailbox_dispatch m idx reply_slots s = Done r s' t /\
    wf count s' /\
    ((fst r = MAILBOX_INVAL_PARAMS /\ t = [Dispatch idx] /\ snd r = reply_slots) \/
     (fst r = MAILBOX_SUCCESS /\ slot_trace idx reply_slots (snd r) t /\
      t <> [Dispatch idx; CleanSlot idx])).
Proof.
  intros Hwf Hidx Hsl Hk.
  pose proof (wf_count_cap _ _ Hwf) as Hcap.
  unfold tfm_mailbox_dispatch.
  rewrite (bind_Done _ _ s s tt [Dispatch idx]) by reflexivity.
  destruct (dispatch_switch_run count idx m
              (PARAM_PACK (cp_type (params m)) (cp_in_len (params m))
                          (cp_out_len (params m)))
              (negb CONFIG_TFM_SPM_BACKEND_IPC) s Hwf)
    as (r & s1 & E1 & Hwf1 & Hq1 & Hn1); [lia|].
  rewrite (bind_Done _ _ _ _ _ _ E1).
  destruct r as [[sync psa_ret]|].
  2: { eexists _, _, _. split; [reflexivity|]. split; [assumption|].
       left. repeat split. }
  destruct sync.
  - rewrite <- Hq1 in Hsl.
    destruct (direct_reply_wf_run count idx (uint32 psa_ret) s1 sl
                Hwf1 Hidx Hsl Hk) as (s2 & E2 & Hwf2).
    rewrite (bind_Done _ _ _ _ _ _ E2).
    eexists _, _, _. split; [reflexivity|]. split; [assumption|].
    right. split; [reflexivity|]. split; [|discriminate].
    right. right. exists (uint32 psa_ret). split; reflexivity.
  - eexists _, _, _. split; [reflexivity|]. split; [assumption|].
    right. split; [reflexivity|]. split; [|discriminate].
    left. split; reflexivity.
Qed.

Lemma wf_clean (count idx : nat) (s : mbox) :
  wf count s ->
  wf count
    (set_queue_field s
       (set_spe_queue_empty_status idx
          (set_queue_slots (spe_mailbox_queue s)
             (<[idx := zero_slot]> (queue (spe_mailbox_queue s)))))).
Proof.
  intros Hwf.
  destruct (set_empty_status_frame idx
              (set_queue_slots (spe_mailbox_queue s)
                 (<[idx := zero_slot]> (queue (spe_mailbox_queue s)))))
    as (E1 & E2 & E3 & E4).
  apply (wf_same_shape count s);
    cbn [set_queue_field spe_mailbox_queue vectors nspe_slots];
    try assumption; try reflexivity.
  - rewrite E1. apply length_insert.
  - exact (wf_vec_ok _ _ Hwf).
Qed.

(** One turn of the drain loop in a well-formed state. *)
Lemma handle_msg_slot_run (count idx : nat) (pend_slots reply_slots : Z)
    (s : mbox) :
  wf count s -> (idx < count)%nat ->
  exists r s' t,
    handle_msg_slot pend_slots idx reply_slots s = Done r s' t /\
    wf count s' /\
    (if pending pend_slots idx then slot_trace idx reply_slots r t
     else t = [] /\ r = reply_slots).
Proof.
  intros Hwf Hidx.
  pose proof (wf_count_cap _ _ Hwf) as Hcap.
  unfold handle_msg_slot, pending.
  destruct (Z.land pend_slots (status_t (bit idx)) =? 0).
  { exists reply_slots, s, []. split; [reflexivity|].
    split; [exact Hwf | split; reflexivity]. }
  cbn [negb].
  (* mark the slot non-empty *)
  set (s1 := set_queue_field s
               (clear_spe_queue_empty_status idx (spe_mailbox_queue s))).
  rewrite (bind_Done _ _ s s1 tt []) by reflexivity.
  assert (Hwf1 : wf count s1) by (apply wf_clear_empty_status; exact Hwf).
  (* record the origin *)
  assert (Hl1 : (idx < length (queue (spe_mailbox_queue s1)))%nat)
    by (rewrite (wf_queue _ _ Hwf1); lia).
  destruct (lookup_lt_is_Some_2 _ _ Hl1) as [sl Hsl].
  rewrite (bind_Done _ _ _ _ _ _ (load_slot_eq idx s1 sl Hsl)).
  rewrite (bind_Done _ _ _ _ _ _ (store_slot_eq idx _ s1 Hl1)).
  set (s2 := set_queue_field s1 _).
  assert (Hwf2 : wf count s2) by (apply wf_store_slot; exact Hwf1).
  (* copy the message *)
  assert (Hlx : (idx < length (nspe_slots s2))%nat)
    by (pose proof (wf_count_ns _ _ Hwf2); lia).
  destruct (lookup_lt_is_Some_2 _ _ Hlx) as [ns Hns].
  rewrite (bind_Done _ _ _ _ _ _
             (load_ns_slot_eq idx s2 ns (wf_slots_ptr _ _ Hwf2) Hns)).
  assert (Hl2 : (idx < length (queue (spe_mailbox_queue s2)))%nat)
    by (rewrite (wf_queue _ _ Hwf2); lia).
  rewrite (bind_Done _ _ _ _ _ _ (store_slot_eq idx _ s2 Hl2)).
  set (s3 := set_queue_field s2 _).
  assert (Hwf3 : wf count s3) by (apply wf_store_slot; exact Hwf2).
  (* the check passes; set the handle *)
  cbn [check_mailbox_msg is_success negb].
  unfold get_spe_mailbox_msg_handle.
  destruct (Nat.leb_spec NUM_MAILBOX_QUEUE_SLOT idx); [lia|].
  cbn [negb orb snd].
  assert (Hl3 : (idx < length (queue (spe_mailbox_queue s3)))%nat)
    by (rewrite (wf_queue _ _ Hwf3); lia).
  rewrite (bind_Done _ _ _ _ _ _ (store_slot_eq idx _ s3 Hl3)).
  set (s4 := set_queue_field s3 _).
  assert (Hwf4 : wf count s4) by (apply wf_store_slot; exact Hwf3).
  assert (Hsl4 : queue (spe_mailbox_queue s4) !! idx
                 = Some (mk_slot (Z.of_nat idx) (Z.of_nat idx + 1) (ns_msg ns)))
    by (apply list_lookup_insert_eq; exact Hl3).
  (* dispatch *)
  destruct (dispatch_run count idx (ns_msg ns) reply_slots s4 _
              Hwf4 Hidx Hsl4 eq_refl)
    as (r & s5 & t & E5 & Hwf5 & Hcase).
  rewrite (bind_Done _ _ _ _ _ _ E5).
  destruct Hcase as [(Hr & -> & Hreply)|(Hr & Htr & Hne)]; rewrite Hr;
    cbn [is_success negb].
  - assert (Hl5 : (idx < length (queue (spe_mailbox_queue s5)))%nat)
      by (rewrite (wf_queue _ _ Hwf5); lia).
    rewrite (bind_Done _ _ _ _ _ _ (clean_queue_slot_eq idx s5 ltac:(lia) Hl5)).
    eexists _, _, _. split; [reflexivity|].
    split; [apply wf_clean; exact Hwf5|].
    right. left. split; [reflexivity | exact Hreply].
  - eexists _, _, _. split; [reflexivity|]. split; [exact Hwf5|].
    cbn [app]. rewrite app_nil_r. exact Htr.
Qed.

Lemma count_app (p : event -> bool) (t1 t2 : list event) :
  count p (t1 ++ t2) = (count p t1 + count p t2)%nat.
Proof.
  induction t1 as [|e t1 IH]; simpl; [reflexivity|]. rewrite IH. lia.
Qed.

Lemma status_bit_nonzero (x : Z) (idx : nat) :
  Z.of_nat idx < STATUS_BITS -> status_t (Z.lor x (bit idx)) <> 0.
Proof.
  intros Hidx E.
  assert (H : Z.testbit (status_t (Z.lor x (bit idx))) (Z.of_nat idx) = true).
  { rewrite status_t_testbit_low by lia.
    rewrite Z.lor_spec, bit_testbit, Z.eqb_refl by lia. apply orb_true_r. }
  rewrite E, Z.bits_0 in H. discriminate.
Qed.

Lemma pending_testbit (pend_slots : Z) (idx : nat) :
  Z.of_nat idx < STATUS_BITS ->
  pending pend_slots idx = Z.testbit pend_slots (Z.of_nat idx).
Proof.
  intros Hidx. unfold pending.
  assert (E : status_t (bit idx) = bit idx).
  { unfold status_t, wrap. apply Z.mod_small. rewrite bit_pow.
    split; [apply Z.pow_nonneg; lia|].
    apply Z.pow_lt_mono_r; lia. }
  rewrite E. symmetry. apply testbit_land_bit.
Qed.

(** What a turn leaves in the trace, counted. *)
Lemma slot_trace_counts (idx : nat) (reply_slots r : Z) (t : list event) :
  Z.of_nat idx < STATUS_BITS ->
  slot_trace idx reply_slots r t ->
  (forall i, count (is_dispatch i) t = if (idx =? i)%nat then 1%nat else 0%nat) /\
  count is_notify t = 0%nat /\
  count is_pend_cleared t = 0%nat /\
  ((count is_direct_reply t = 0%nat /\ r = reply_slots) \/
   (count is_direct_reply t <> 0%nat /\ r <> 0)).
Proof.
  intros Hidx [[-> ->]|[[-> ->]|(res & -> & ->)]]; simpl.
  - repeat split; try (intros i; destruct (idx =? i)%nat; reflexivity).
    left. split; reflexivity.
  - repeat split; try (intros i; destruct (idx =? i)%nat; reflexivity).
    left. split; reflexivity.
  - repeat split; try (intros i; destruct (idx =? i)%nat; reflexivity).
    right. split; [discriminate|]. apply status_bit_nonzero. exact Hidx.
Qed.

(** The drain loop over the indices [a], ..., [a + n - 1]. *)
Lemma handle_msg_loop_run (count_ : nat) (pend_slots : Z) :
  slots_fit ->
  forall (n a : nat) (reply_slots : Z) (s : mbox),
    wf count_ s -> (a + n <= count_)%nat ->
    exists r s' t,
      handle_msg_loop pend_slots (seq a n) reply_slots s = Done r s' t /\
      wf count_ s' /\
      (forall i, count (is_dispatch i) t =
                 if (a <=? i)%nat && (i <? a + n)%nat && pending pend_slots i
                 then 1%nat else 0%nat) /\
      count is_notify t = 0%nat /\
      count is_pend_cleared t = 0%nat /\
      ((count is_direct_reply t = 0%nat /\ r = reply_slots) \/
       (count is_direct_reply t <> 0%nat /\ r <> 0)).
Proof.
  intros Hfit. induction n as [|n IH]; intros a reply_slots s Hwf Hle.
  - exists reply_slots, s, []. split; [reflexivity|]. split; [exact Hwf|].
    split; [|split; [reflexivity | split; [reflexivity|]]].
    + intros i. simpl.
      destruct (Nat.leb_spec a i), (Nat.ltb_spec i (a + 0)); try reflexivity.
      lia.
    + left. split; reflexivity.
  - cbn [seq handle_msg_loop].
    destruct (handle_msg_slot_run count_ a pend_slots reply_slots s Hwf)
      as (r1 & s1 & t1 & E1 & Hwf1 & Hst); [lia|].
    rewrite (bind_Done _ _ _ _ _ _ E1).
    destruct (IH (S a) r1 s1 Hwf1) as (r & s' & t & E & Hwf' & Hd & Hn & Hp & Hr);
      [lia|].
    rewrite E. exists r, s', (t1 ++ t).
    split; [reflexivity|]. split; [exact Hwf'|].
    pose proof (wf_count_cap _ _ Hwf) as Hcap. unfold slots_fit in Hfit.
    assert (Hbit : Z.of_nat a < STATUS_BITS) by lia.
    destruct (pending pend_slots a) eqn:Hpa.
    + apply (slot_trace_counts a reply_slots r1 t1 Hbit) in Hst
        as (Hd1 & Hn1 & Hp1 & Hr1).
      rewrite !count_app, Hn1, Hp1, Hn, Hp.
      split; [|split; [reflexivity | split; [reflexivity|]]].
      * intros i. rewrite count_app, Hd1, Hd.
        destruct (Nat.eqb_spec a i) as [<-|Hne].
        -- rewrite Hpa.
           destruct (Nat.leb_spec a a), (Nat.ltb_spec a (a + S n)),
             (Nat.leb_spec (S a) a); simpl; lia.
        -- destruct (Nat.leb_spec a i), (Nat.ltb_spec i (a + S n)),
             (Nat.leb_spec (S a) i), (Nat.ltb_spec i (S a + n));
             simpl; try lia; reflexivity.
      * destruct Hr1 as [[Hz1 ->]|[Hnz1 Hr1]], Hr as [[Hz ->]|[Hnz Hr]].
        -- left. split; [lia | reflexivity].
        -- right. split; [lia | assumption].
        -- right. split; [lia | assumption].
        -- right. split; [lia | assumption].
    + destruct Hst as [-> ->]. cbn [app].
      split; [|split; [exact Hn | split; [exact Hp | exact Hr]]].
      intros i. rewrite Hd.
      destruct (Nat.eq_dec a i) as [<-|Hne].
      * rewrite Hpa, !andb_false_r. reflexivity.
      * destruct (Nat.leb_spec a i), (Nat.ltb_spec i (a + S n)),
          (Nat.leb_spec (S a) i), (Nat.ltb_spec i (S a + n));
          simpl; try lia; reflexivity.
Qed.

(** *** The drain pass as a whole *)

Lemma load_ns_status_eq (s : mbox) :
  ns_status (spe_mailbox_queue s) <> NULL ->
  load_ns_status s = Done (nspe_status s) s [].
Proof.
  intros Hp. unfold load_ns_status.
  destruct (Z.eqb_spec (ns_status (spe_mailbox_queue s)) NULL);
    [contradiction | reflexivity].
Qed.

Lemma clear_pend_eq (mask : Z) (s : mbox) :
  ns_status (spe_mailbox_queue s) <> NULL ->
  clear_pend mask s =
  Done tt (set_nspe_status s (clear_nspe_queue_pend_status (nspe_status s) mask))
       [PendCleared mask].
Proof.
  intros Hp. unfold clear_pend.
  rewrite (bind_Done _ _ _ _ _ _ (load_ns_status_eq s Hp)).
  unfold bind, store_ns_status, emit.
  destruct (Z.eqb_spec (ns_status (spe_mailbox_queue s)) NULL);
    [contradiction | reflexivity].
Qed.

Lemma set_replied_eq (mask : Z) (s : mbox) :
  ns_status (spe_mailbox_queue s) <> NULL ->
  set_replied mask s =
  Done tt (set_nspe_status s (set_nspe_queue_replied_status (nspe_status s) mask))
       [RepliedSet mask].
Proof.
  intros Hp. unfold set_replied.
  rewrite (bind_Done _ _ _ _ _ _ (load_ns_status_eq s Hp)).
  unfold bind, store_ns_status, emit.
  destruct (Z.eqb_spec (ns_status (spe_mailbox_queue s)) NULL);
    [contradiction | reflexivity].
Qed.

Lemma cleared_bit (x mask i : Z) :
  0 <= STATUS_BITS ->
  Z.testbit mask i = true ->
  Z.testbit (status_t (Z.land x (Z.lnot mask))) i = false.
Proof.
  intros Hw Hm.
  destruct (Z.lt_ge_cases i 0) as [Hneg|Hpos].
  { apply Z.testbit_neg_r. exact Hneg. }
  destruct (Z.lt_ge_cases i STATUS_BITS) as [Hlo|Hhi].
  - rewrite status_t_testbit_low by lia.
    rewrite Z.land_spec, Z.lnot_spec, Hm by lia. apply andb_false_r.
  - unfold status_t, wrap. apply Z.mod_pow2_bits_high. lia.
Qed.

(** A whole drain pass with a pending request, in a well-formed state: the
    trace it leaves and the status mask it writes. *)
Lemma handle_msg_run (s : mbox) :
  wf (ns_slot_count (spe_mailbox_queue s)) s ->
  slots_fit -> index_fits ->
  pend_slots (nspe_status s) <> 0 ->
  exists r s' tl,
    tfm_mailbox_handle_msg s =
    Done MAILBOX_SUCCESS s'
         ([EnterCritical; ExitCritical] ++ tl ++
          [EnterCritical; PendCleared (pend_slots (nspe_status s));
           RepliedSet r; ExitCritical] ++
          (if r =? 0 then [] else [NotifyPeer])) /\
    (forall i, count (is_dispatch i) tl =
               if (i <? ns_slot_count (spe_mailbox_queue s))%nat
                  && Z.testbit (pend_slots (nspe_status s)) (Z.of_nat i)
               then 1%nat else 0%nat) /\
    count is_notify tl = 0%nat /\
    count is_pend_cleared tl = 0%nat /\
    ((count is_direct_reply tl = 0%nat /\ r = 0) \/
     (count is_direct_reply tl <> 0%nat /\ r <> 0)) /\
    (forall i, Z.testbit (pend_slots (nspe_status s)) i = true ->
               Z.testbit (pend_slots (nspe_status s')) i = false).
Proof.
  intros Hwf Hfit Hix Hpend.
  set (cnt := ns_slot_count (spe_mailbox_queue s)) in *.
  set (pend := pend_slots (nspe_status s)) in *.
  pose proof (wf_count_cap _ _ Hwf) as Hcap.
  unfold tfm_mailbox_handle_msg, tfm_mailbox_hal_enter_critical,
    tfm_mailbox_hal_exit_critical, tfm_mailbox_hal_notify_peer.
  rewrite (bind_Done _ _ s s tt [EnterCritical]) by reflexivity.
  rewrite (bind_Done _ _ _ _ _ _ (load_ns_status_eq s (wf_status_ptr _ _ Hwf))).
  rewrite (bind_Done _ _ s s tt [ExitCritical]) by reflexivity.
  unfold get_nspe_queue_pend_status. fold pend.
  destruct (Z.eqb_spec pend 0) as [|_]; [contradiction|].
  rewrite (bind_Done _ _ s s s []) by reflexivity. fold cnt.
  unfold index_fits in Hix.
  destruct (Nat.leb_spec cnt 255) as [_|]; [|lia].
  destruct (handle_msg_loop_run cnt pend Hfit cnt 0%nat 0 s Hwf)
    as (r & s1 & tl & E1 & Hwf1 & Hd & Hn & Hp & Hr); [lia|].
  rewrite (bind_Done _ _ _ _ _ _ E1).
  rewrite (bind_Done _ _ s1 s1 tt [EnterCritical]) by reflexivity.
  rewrite (bind_Done _ _ _ _ _ _
             (clear_pend_eq pend s1 (wf_status_ptr _ _ Hwf1))).
  set (s2 := set_nspe_status s1 _).
  rewrite (bind_Done _ _ _ _ _ _
             (set_replied_eq r s2 (wf_status_ptr _ _ Hwf1))).
  set (s3 := set_nspe_status s2 _).
  rewrite (bind_Done _ _ s3 s3 tt [ExitCritical]) by reflexivity.
  assert (En : (if r =? 0 then ret tt else emit NotifyPeer) s3
               = Done tt s3 (if r =? 0 then [] else [NotifyPeer]))
    by (destruct (r =? 0); reflexivity).
  rewrite (bind_Done _ _ _ _ _ _ En).
  exists r, s3, tl. split.
  { unfold ret. f_equal. cbn [app]. f_equal. f_equal. f_equal.
    rewrite app_nil_r. reflexivity. }
  split; [|split; [exact Hn | split; [exact Hp | split; [exact Hr|]]]].
  - intros i. rewrite Hd. cbn [Nat.leb andb Nat.add].
    destruct (Nat.ltb_spec i cnt) as [Hlt|]; [|reflexivity].
    cbn [andb]. rewrite pending_testbit; [reflexivity|].
    unfold slots_fit in Hfit. lia.
  - intros i Hi. cbn [s3 s2 set_nspe_status nspe_status
                      set_nspe_queue_replied_status pend_slots
                      clear_nspe_queue_pend_status].
    apply cleared_bit; [unfold slots_fit in Hfit; lia | exact Hi].
Qed.

(** C1, as the code has it.  In a drain pass that finds a request pending,
    every bit of the snapshot whose index is below [ns_slot_count] has its
    slot dispatched exactly once, and no other slot is dispatched, before the
    one clearing of the snapshot from the shared pending status, which is
    the only one; after the pass every bit of the snapshot is clear there,
    those at or above [ns_slot_count] included, whose slots were not
    dispatched. *)
Theorem drain_dispatches_once (s : mbox) :
  wf (ns_slot_count (spe_mailbox_queue s)) s ->
  slots_fit -> index_fits ->
  pend_slots (nspe_status s) <> 0 ->
  exists s' t1 t2,
    tfm_mailbox_handle_msg s =
    Done MAILBOX_SUCCESS s'
         (t1 ++ PendCleared (pend_slots (nspe_status s)) :: t2) /\
    (forall i, count (is_dispatch i) t1 =
               if (i <? ns_slot_count (spe_mailbox_queue s))%nat
                  && Z.testbit (pend_slots (nspe_status s)) (Z.of_nat i)
               then 1%nat else 0%nat) /\
    (forall i, count (is_dispatch i) t2 = 0%nat) /\
    count is_pend_cleared (t1 ++ t2) = 0%nat /\
    (forall i, Z.testbit (pend_slots (nspe_status s)) i = true ->
               Z.testbit (pend_slots (nspe_status s')) i = false).
Proof.
  intros Hwf Hfit Hix Hpend.
  destruct (handle_msg_run s Hwf Hfit Hix Hpend)
    as (r & s' & tl & E & Hd & Hn & Hp & Hr & Hclr).
  exists s', ([EnterCritical; ExitCritical] ++ tl ++ [EnterCritical]),
    ([RepliedSet r; ExitCritical] ++ (if r =? 0 then [] else [NotifyPeer])).
  split.
  { rewrite E. f_equal. rewrite <- !app_assoc. reflexivity. }
  split; [|split; [|split; [|exact Hclr]]].
  - intros i. rewrite !count_app, Hd. simpl. lia.
  - intros i. destruct (r =? 0); reflexivity.
  - rewrite !count_app, Hp. destruct (r =? 0); reflexivity.
Qed.

(** C7.  A drain pass that finds no request pending returns
    [MAILBOX_NO_PEND_EVENT] at once, having entered and left the critical
    section and nothing else; a pass that finds one returns
    [MAILBOX_SUCCESS] and notifies the peer once if some slot was answered
    within the pass, and not at all otherwise. *)
Theorem drain_notifies_once (s : mbox) :
  wf (ns_slot_count (spe_mailbox_queue s)) s ->
  slots_fit -> index_fits ->
  (pend_slots (nspe_status s) = 0 ->
   tfm_mailbox_handle_msg s =
   Done MAILBOX_NO_PEND_EVENT s [EnterCritical; ExitCritical]) /\
  (pend_slots (nspe_status s) <> 0 ->
   exists s' t,
     tfm_mailbox_handle_msg s = Done MAILBOX_SUCCESS s' t /\
     count is_notify t =
     if (count is_direct_reply t =? 0)%nat then 0%nat else 1%nat).
Proof.
  intros Hwf Hfit Hix. split.
  - intros Hz.
    unfold tfm_mailbox_handle_msg, tfm_mailbox_hal_enter_critical,
      tfm_mailbox_hal_exit_critical.
    rewrite (bind_Done _ _ s s tt [EnterCritical]) by reflexivity.
    rewrite (bind_Done _ _ _ _ _ _
               (load_ns_status_eq s (wf_status_ptr _ _ Hwf))).
    rewrite (bind_Done _ _ s s tt [ExitCritical]) by reflexivity.
    unfold get_nspe_queue_pend_status. rewrite Hz. reflexivity.
  - intros Hpend.
    destruct (handle_msg_run s Hwf Hfit Hix Hpend)
      as (r & s' & tl & E & Hd & Hn & Hp & Hr & Hclr).
    eexists _, _. split; [exact E|].
    rewrite !count_app, Hn. simpl.
    destruct Hr as [[Hz ->]|[Hnz Hr]].
    + rewrite Hz. reflexivity.
    + apply Z.eqb_neq in Hr. rewrite Hr. simpl.
      destruct (Nat.eqb_spec (count is_direct_reply tl + 0) 0); lia.
Qed.

(** *** Initialisation *)

Lemma top_slot_bit_eq :
  (1 <= NUM_MAILBOX_QUEUE_SLOT)%nat ->
  Z.of_nat NUM_MAILBOX_QUEUE_SLOT <= ULONG_BITS ->
  top_slot_bit = 2 ^ (Z.of_nat NUM_MAILBOX_QUEUE_SLOT - 1).
Proof.
  intros H1 HL. unfold top_slot_bit, ulong, wrap.
  rewrite Z.shiftl_1_l. apply Z.mod_small.
  split; [apply Z.pow_nonneg; lia|]. apply Z.pow_lt_mono_r; lia.
Qed.

(** The value the two assignments of [tfm_mailbox_init] leave in
    [empty_slots]. *)
Lemma seed_value :
  (1 <= NUM_MAILBOX_QUEUE_SLOT)%nat ->
  Z.of_nat NUM_MAILBOX_QUEUE_SLOT <= ULONG_BITS ->
  0 <= STATUS_BITS ->
  status_t (status_t (ulong (top_slot_bit - 1)) + status_t top_slot_bit)
  = Z.ones (Z.of_nat NUM_MAILBOX_QUEUE_SLOT) mod 2 ^ STATUS_BITS.
Proof.
  intros H1 HL Hw. rewrite (top_slot_bit_eq H1 HL).
  set (n := Z.of_nat NUM_MAILBOX_QUEUE_SLOT) in *.
  assert (Hpos : 0 < 2 ^ (n - 1)) by (apply Z.pow_pos_nonneg; lia).
  assert (Hlt : 2 ^ (n - 1) < 2 ^ ULONG_BITS)
    by (apply Z.pow_lt_mono_r; lia).
  assert (Eu : ulong (2 ^ (n - 1) - 1) = 2 ^ (n - 1) - 1)
    by (unfold ulong, wrap; apply Z.mod_small; lia).
  rewrite Eu. unfold status_t, wrap.
  rewrite <- Z.add_mod by (apply Z.pow_nonzero; lia).
  f_equal. rewrite Z.ones_equiv.
  replace n with (Z.succ (n - 1)) at 3 by lia.
  rewrite Z.pow_succ_r by lia. lia.
Qed.

Lemma seed_bits (i : Z) :
  0 <= STATUS_BITS -> 0 <= i ->
  Z.testbit (Z.ones (Z.of_nat NUM_MAILBOX_QUEUE_SLOT) mod 2 ^ STATUS_BITS) i
  = (i <? Z.of_nat NUM_MAILBOX_QUEUE_SLOT) && (i <? STATUS_BITS).
Proof.
  intros Hw Hi.
  destruct (Z.ltb_spec i STATUS_BITS) as [Hlo|Hhi].
  - rewrite Z.mod_pow2_bits_low by lia.
    rewrite Z.testbit_ones_nonneg by lia. rewrite andb_true_r. reflexivity.
  - rewrite Z.mod_pow2_bits_high by lia. rewrite andb_false_r. reflexivity.
Qed.

(** C10.  After [tfm_mailbox_init], whatever it returns, [empty_slots] is
    [2 ^ NUM_MAILBOX_QUEUE_SLOT - 1] reduced modulo the width of the mask:
    bit [i] is set exactly when [i] is below the capacity and below the
    width, so exactly the low [NUM_MAILBOX_QUEUE_SLOT] bits are set when the
    capacity is at most the width, the two being equal included.  The
    platform's part of the initialisation leaves [empty_slots] as it finds
    it. *)
Theorem init_seeds_empty_slots (s : mbox) :
  (1 <= NUM_MAILBOX_QUEUE_SLOT)%nat ->
  Z.of_nat NUM_MAILBOX_QUEUE_SLOT <= ULONG_BITS ->
  0 <= STATUS_BITS ->
  (forall q w,
     empty_slots (snd (fst (tfm_mailbox_hal_init q w))) = empty_slots q) ->
  exists r s' t,
    tfm_mailbox_init s = Done r s' t /\
    empty_slots (spe_mailbox_queue s')
    = (2 ^ Z.of_nat NUM_MAILBOX_QUEUE_SLOT - 1) mod 2 ^ STATUS_BITS /\
    (forall i, 0 <= i ->
       Z.testbit (empty_slots (spe_mailbox_queue s')) i
       = (i <? Z.of_nat NUM_MAILBOX_QUEUE_SLOT) && (i <? STATUS_BITS)) /\
    (Z.of_nat NUM_MAILBOX_QUEUE_SLOT <= STATUS_BITS ->
     empty_slots (spe_mailbox_queue s')
     = 2 ^ Z.of_nat NUM_MAILBOX_QUEUE_SLOT - 1).
Proof.
  intros H1 HL Hw Hhal.
  assert (Hseed : forall s' : mbox,
    empty_slots (spe_mailbox_queue s')
    = status_t (status_t (ulong (top_slot_bit - 1)) + status_t top_slot_bit) ->
    empty_slots (spe_mailbox_queue s')
    = (2 ^ Z.of_nat NUM_MAILBOX_QUEUE_SLOT - 1) mod 2 ^ STATUS_BITS /\
    (forall i, 0 <= i ->
       Z.testbit (empty_slots (spe_mailbox_queue s')) i
       = (i <? Z.of_nat NUM_MAILBOX_QUEUE_SLOT) && (i <? STATUS_BITS)) /\
    (Z.of_nat NUM_MAILBOX_QUEUE_SLOT <= STATUS_BITS ->
     empty_slots (spe_mailbox_queue s')
     = 2 ^ Z.of_nat NUM_MAILBOX_QUEUE_SLOT - 1)).
  { intros s' ->. rewrite (seed_value H1 HL Hw). split; [|split].
    - rewrite Z.ones_equiv. reflexivity.
    - intros i Hi. apply seed_bits; assumption.
    - intros Hfit. rewrite Z.ones_equiv.
      assert (2 ^ Z.of_nat NUM_MAILBOX_QUEUE_SLOT <= 2 ^ STATUS_BITS)
        by (apply Z.pow_le_mono_r; lia).
      assert (0 < 2 ^ Z.of_nat NUM_MAILBOX_QUEUE_SLOT)
        by (apply Z.pow_pos_nonneg; lia).
      rewrite Z.mod_small by lia; lia. }
  unfold tfm_mailbox_init, bind, modify_queue, call_backend, ret.
  cbn [spe_mailbox_queue set_queue_field world set_world empty_slots
       set_empty_slots zero_queue].
  destruct (fst (tfm_rpc_register_ops (world s))); cbn [negb].
  - destruct (tfm_mailbox_hal_init _ _) as [[r q] w] eqn:Eh.
    assert (Eq : empty_slots q
                 = status_t (status_t (ulong (top_slot_bit - 1))
                             + status_t top_slot_bit)).
    { match type of Eh with
      | tfm_mailbox_hal_init ?q0 ?w0 = _ => pose proof (Hhal q0 w0) as Hq
      end.
      rewrite Eh in Hq. exact Hq. }
    destruct (is_success r); cbn [negb].
    + eexists _, _, _. split; [reflexivity|]. apply Hseed. exact Eq.
    + eexists _, _, _. split; [reflexivity|]. apply Hseed. exact Eq.
  - eexists _, _, _. split; [reflexivity|]. apply Hseed. reflexivity.
Qed.

(** *** Further properties of the engine *)

(** X1.  For every slot index below [NUM_MAILBOX_QUEUE_SLOT], with at most
    255 slots, the handle of the slot is its index plus one, which is never
    the null handle; decoding that handle gives the index back, and
    [tfm_mailbox_reply_msg] resolves it to the same slot. *)
Theorem handle_round_trip (idx : nat) :
  (idx < NUM_MAILBOX_QUEUE_SLOT)%nat -> index_fits ->
  get_spe_mailbox_msg_handle idx true
  = (MAILBOX_SUCCESS, Some (Z.of_nat idx + 1)) /\
  Z.of_nat idx + 1 <> MAILBOX_MSG_NULL_HANDLE /\
  get_spe_mailbox_msg_idx (Z.of_nat idx + 1) true
  = (MAILBOX_SUCCESS, Some idx) /\
  reply_msg_idx (Z.of_nat idx + 1) = inr idx.
Proof.
  intros Hidx Hfit. unfold index_fits in Hfit.
  assert (Hh : (Z.of_nat idx + 1 =? MAILBOX_MSG_NULL_HANDLE) = false)
    by (unfold MAILBOX_MSG_NULL_HANDLE; lia).
  assert (Hd : Z.to_nat (uint8 (Z.of_nat idx + 1 - 1)) = idx).
  { unfold uint8, wrap. rewrite Z.mod_small by lia. lia. }
  split; [|split; [|split]].
  - unfold get_spe_mailbox_msg_handle.
    destruct (Nat.leb_spec NUM_MAILBOX_QUEUE_SLOT idx); [lia | reflexivity].
  - unfold MAILBOX_MSG_NULL_HANDLE. lia.
  - unfold get_spe_mailbox_msg_idx. rewrite Hh, Hd. reflexivity.
  - unfold reply_msg_idx, get_spe_mailbox_msg_idx. rewrite Hh, Hd. reflexivity.
Qed.

(** X2.  Setting the empty bit of slot [i] makes the bit of [i] read as set,
    clearing it makes it read as clear, and either leaves the bit of every
    other slot as it was; at an index that is not below
    [NUM_MAILBOX_QUEUE_SLOT] set and clear change nothing and get answers
    false. *)
Theorem empty_status_bits (i j : nat) (q : secure_mailbox_queue_t) :
  slots_fit ->
  (j < NUM_MAILBOX_QUEUE_SLOT)%nat ->
  ((i < NUM_MAILBOX_QUEUE_SLOT)%nat ->
   get_spe_queue_empty_status j (set_spe_queue_empty_status i q)
   = (if (i =? j)%nat then true else get_spe_queue_empty_status j q) /\
   get_spe_queue_empty_status j (clear_spe_queue_empty_status i q)
   = (if (i =? j)%nat then false else get_spe_queue_empty_status j q)) /\
  ((NUM_MAILBOX_QUEUE_SLOT <= i)%nat ->
   set_spe_queue_empty_status i q = q /\
   clear_spe_queue_empty_status i q = q /\
   get_spe_queue_empty_status i q = false).
Proof.
  intros Hfit Hj. unfold slots_fit in Hfit. split.
  - intros Hi. rewrite !empty_status_get by assumption.
    unfold set_spe_queue_empty_status, clear_spe_queue_empty_status.
    destruct (Nat.ltb_spec i NUM_MAILBOX_QUEUE_SLOT); [|lia].
    cbn [empty_slots set_empty_slots].
    rewrite !status_t_testbit_low by lia.
    rewrite Z.lor_spec, Z.land_spec, Z.lnot_spec, bit_testbit by lia.
    destruct (Nat.eqb_spec i j) as [->|Hne].
    + rewrite Z.eqb_refl. split; [apply orb_true_r | apply andb_false_r].
    + destruct (Z.eqb_spec (Z.of_nat j) (Z.of_nat i)); [lia|].
      split; [apply orb_false_r | apply andb_true_r].
  - intros Hi.
    unfold set_spe_queue_empty_status, clear_spe_queue_empty_status,
      get_spe_queue_empty_status.
    destruct (Nat.ltb_spec i NUM_MAILBOX_QUEUE_SLOT); [lia|].
    repeat split.
Qed.

(** A request that passes the two guards of [local_copy_vects]. *)
Lemma stage_guards_pass (prm : psa_client_params_t) :
  0 <= cp_in_len prm -> 0 <= cp_out_len prm ->
  Z.of_nat PSA_MAX_IOVEC < 2 ^ SIZE_BITS ->
  (cp_out_vec prm <> NULL \/ cp_out_len prm = 0) ->
  (cp_in_vec prm <> NULL \/ cp_in_len prm = 0) ->
  cp_in_len prm + cp_out_len prm <= Z.of_nat PSA_MAX_IOVEC ->
  ((cp_out_vec prm =? NULL) && negb (cp_out_len prm =? 0)
   || (cp_in_vec prm =? NULL) && negb (cp_in_len prm =? 0)) = false /\
  ((Z.of_nat PSA_MAX_IOVEC <? cp_in_len prm)
   || (Z.of_nat PSA_MAX_IOVEC <? cp_out_len prm)
   || (Z.of_nat PSA_MAX_IOVEC <? size_t (cp_in_len prm + cp_out_len prm)))
  = false.
Proof.
  intros Hin Hout Hmax Ho Hi Hsum.
  assert (Es : size_t (cp_in_len prm + cp_out_len prm)
               = cp_in_len prm + cp_out_len prm)
    by (unfold size_t, wrap; apply Z.mod_small; lia).
  rewrite Es. split; lia.
Qed.

Lemma lookup_map_seq {A} (f : nat -> A) (n a i : nat) :
  (i < n)%nat -> map f (seq a n) !! i = Some (f (a + i)%nat).
Proof.
  revert a i. induction n as [|n IH]; intros a i Hi; [lia|].
  destruct i as [|i]; simpl.
  - rewrite Nat.add_0_r. reflexivity.
  - rewrite IH by lia. f_equal. f_equal. lia.
Qed.

(** A reply committed in a well-formed state to a slot that records itself
    as its origin: what it writes. *)
Lemma direct_reply_wf_final (count idx : nat) (result : Z) (s : mbox)
    (sl : secure_mailbox_slot_t) :
  wf count s -> (idx < count)%nat ->
  queue (spe_mailbox_queue s) !! idx = Some sl ->
  ns_slot_idx sl = Z.of_nat idx ->
  exists s' x,
    mailbox_direct_reply idx result s =
    Done tt s' [DirectReply idx result; CleanSlot idx] /\
    wf count s' /\
    nspe_slots s !! idx = Some x /\
    nspe_slots s' = <[idx := set_return_val x (sint32 result)]> (nspe_slots s) /\
    queue (spe_mailbox_queue s') = <[idx := zero_slot]> (queue (spe_mailbox_queue s)) /\
    empty_slots (spe_mailbox_queue s')
    = empty_slots (set_spe_queue_empty_status idx (spe_mailbox_queue s)) /\
    (exists v, vectors s !! idx = Some v /\
               vectors s' = <[idx := set_in_use v false]> (vectors s)) /\
    nspe_status s' = nspe_status s /\ world s' = world s /\
    ns_invec_mem s' = ns_invec_mem s.
Proof.
  intros Hwf Hidx Hsl Hk.
  destruct (direct_reply_wf_run count idx result s sl Hwf Hidx Hsl Hk)
    as (s' & E & Hwf').
  destruct (direct_reply_final _ _ _ _ _ _ E)
    as (HN & _ & v & sl' & x & m' & Hv & Hsl' & Hx & Hm & Es).
  rewrite Hsl in Hsl'. injection Hsl' as <-.
  assert (Ek : Z.to_nat (ns_slot_idx sl) = idx) by (rewrite Hk; lia).
  rewrite Ek in Hx, Es.
  exists s', x. split; [exact E|]. split; [exact Hwf'|].
  split; [exact Hx|]. subst s'.
  cbn [nspe_slots spe_mailbox_queue vectors nspe_status world ns_invec_mem].
  split; [reflexivity|].
  split; [rewrite queue_set_empty_status; reflexivity|].
  split.
  { unfold set_spe_queue_empty_status.
    destruct (idx <? NUM_MAILBOX_QUEUE_SLOT)%nat; reflexivity. }
  split; [exists v; split; [exact Hv | reflexivity]|].
  repeat split.
Qed.

Lemma known_call_type_false (ct : Z) :
  known_call_type ct = false ->
  (ct =? MAILBOX_PSA_FRAMEWORK_VERSION) = false /\
  (ct =? MAILBOX_PSA_VERSION) = false /\
  (ct =? MAILBOX_PSA_CALL) = false /\
  CONFIG_TFM_CONNECTION_BASED_SERVICE_API && (ct =? MAILBOX_PSA_CONNECT) = false /\
  CONFIG_TFM_CONNECTION_BASED_SERVICE_API && (ct =? MAILBOX_PSA_CLOSE) = false.
Proof.
  unfold known_call_type. intros H.
  destruct (ct =? MAILBOX_PSA_FRAMEWORK_VERSION), (ct =? MAILBOX_PSA_VERSION),
    (ct =? MAILBOX_PSA_CALL), CONFIG_TFM_CONNECTION_BASED_SERVICE_API,
    (ct =? MAILBOX_PSA_CONNECT), (ct =? MAILBOX_PSA_CLOSE);
    simpl in *; try discriminate; repeat split.
Qed.

(** The dispatcher has no case for the call type: nothing happens. *)
Lemma dispatch_unknown (m : mailbox_msg_t) (idx : nat) (reply_slots : Z)
    (s : mbox) :
  known_call_type (call_type m) = false ->
  tfm_mailbox_dispatch m idx reply_slots s
  = Done (MAILBOX_INVAL_PARAMS, reply_slots) s [Dispatch idx].
Proof.
  intros H. apply known_call_type_false in H as (H1 & H2 & H3 & H4 & H5).
  unfold tfm_mailbox_dispatch, dispatch_switch.
  rewrite H1, H2, H3, H4, H5. reflexivity.
Qed.

Lemma wrap_nil {A} (o : outcome A) :
  match o with
  | Done b s t => Done b s ([] ++ t)
  | Fault e => Fault e
  end = o.
Proof. destruct o; reflexivity. Qed.

Lemma clear_empty_status_frame (idx : nat) (q : secure_mailbox_queue_t) :
  queue (clear_spe_queue_empty_status idx q) = queue q /\
  ns_slot_count (clear_spe_queue_empty_status idx q) = ns_slot_count q /\
  ns_status (clear_spe_queue_empty_status idx q) = ns_status q /\
  ns_slots (clear_spe_queue_empty_status idx q) = ns_slots q.
Proof.
  unfold clear_spe_queue_empty_status.
  destruct (idx <? NUM_MAILBOX_QUEUE_SLOT)%nat; repeat split.
Qed.

(** A turn of the drain loop for a pending slot, up to the dispatch: the
    slot is marked non-empty and holds the message, its own index as origin
    and its handle; nothing else has changed. *)
Lemma handle_msg_slot_prefix (count idx : nat) (pend_slots reply_slots : Z)
    (s : mbox) (ns : mailbox_slot_t) :
  wf count s -> (idx < count)%nat ->
  pending pend_slots idx = true ->
  nspe_slots s !! idx = Some ns ->
  exists s4,
    handle_msg_slot pend_slots idx reply_slots s
    = bind (tfm_mailbox_dispatch (ns_msg ns) idx reply_slots)
           (fun r => if negb (is_success (fst r))
                     then bind (mailbox_clean_queue_slot idx)
                               (fun _ => ret (snd r))
                     else ret (snd r)) s4 /\
    wf count s4 /\
    queue (spe_mailbox_queue s4) !! idx
    = Some (mk_slot (Z.of_nat idx) (Z.of_nat idx + 1) (ns_msg ns)) /\
    (forall j, j <> idx ->
       queue (spe_mailbox_queue s4) !! j = queue (spe_mailbox_queue s) !! j) /\
    empty_slots (spe_mailbox_queue s4)
    = empty_slots (clear_spe_queue_empty_status idx (spe_mailbox_queue s)) /\
    vectors s4 = vectors s /\ nspe_slots s4 = nspe_slots s /\
    nspe_status s4 = nspe_status s /\ world s4 = world s /\
    ns_invec_mem s4 = ns_invec_mem s /\ ns_outvec_mem s4 = ns_outvec_mem s.
Proof.
  intros Hwf Hidx Hpend Hns.
  pose proof (wf_count_cap _ _ Hwf) as Hcap.
  unfold handle_msg_slot. unfold pending in Hpend.
  apply negb_true_iff in Hpend. rewrite Hpend.
  set (s1 := set_queue_field s
               (clear_spe_queue_empty_status idx (spe_mailbox_queue s))).
  rewrite (bind_Done _ _ s s1 tt []) by reflexivity.
  assert (Hwf1 : wf count s1) by (apply wf_clear_empty_status; exact Hwf).
  assert (Hl1 : (idx < length (queue (spe_mailbox_queue s1)))%nat)
    by (rewrite (wf_queue _ _ Hwf1); lia).
  destruct (lookup_lt_is_Some_2 _ _ Hl1) as [sl Hsl].
  rewrite (bind_Done _ _ _ _ _ _ (load_slot_eq idx s1 sl Hsl)).
  rewrite (bind_Done _ _ _ _ _ _ (store_slot_eq idx _ s1 Hl1)).
  set (s2 := set_queue_field s1 _).
  assert (Hwf2 : wf count s2) by (apply wf_store_slot; exact Hwf1).
  rewrite (bind_Done _ _ _ _ _ _
             (load_ns_slot_eq idx s2 ns (wf_slots_ptr _ _ Hwf2) Hns)).
  assert (Hl2 : (idx < length (queue (spe_mailbox_queue s2)))%nat)
    by (rewrite (wf_queue _ _ Hwf2); lia).
  rewrite (bind_Done _ _ _ _ _ _ (store_slot_eq idx _ s2 Hl2)).
  set (s3 := set_queue_field s2 _).
  assert (Hwf3 : wf count s3) by (apply wf_store_slot; exact Hwf2).
  cbn [check_mailbox_msg is_success negb].
  unfold get_spe_mailbox_msg_handle.
  destruct (Nat.leb_spec NUM_MAILBOX_QUEUE_SLOT idx); [lia|].
  cbn [negb orb snd].
  assert (Hl3 : (idx < length (queue (spe_mailbox_queue s3)))%nat)
    by (rewrite (wf_queue _ _ Hwf3); lia).
  rewrite (bind_Done _ _ _ _ _ _ (store_slot_eq idx _ s3 Hl3)).
  set (s4 := set_queue_field s3 _).
  assert (Hwf4 : wf count s4) by (apply wf_store_slot; exact Hwf3).
  rewrite !wrap_nil.
  exists s4. split; [reflexivity|]. split; [exact Hwf4|].
  destruct (clear_empty_status_frame idx (spe_mailbox_queue s)) as (Eq & _).
  split; [apply list_lookup_insert_eq; exact Hl3|].
  split.
  { intros j Hj. subst s4 s3 s2 s1.
    cbn [spe_mailbox_queue set_queue_field queue set_queue_slots].
    rewrite !list_lookup_insert_ne by congruence. rewrite Eq. reflexivity. }
  repeat split.
Qed.

(** X5.  One turn of the drain loop on a pending slot whose call type is
    none of those the dispatcher knows: the message is dispatched, rejected,
    and the slot is cleaned (zeroed and marked empty) without a reply being
    written; [reply_slots] comes back unchanged, and the shared memory, the
    staging entries and the collaborators are as before. *)
Theorem drain_cleans_rejected (count idx : nat) (pend_slots reply_slots : Z)
    (s : mbox) (ns : mailbox_slot_t) :
  wf count s -> (idx < count)%nat -> slots_fit ->
  pending pend_slots idx = true ->
  nspe_slots s !! idx = Some ns ->
  known_call_type (call_type (ns_msg ns)) = false ->
  exists s',
    handle_msg_slot pend_slots idx reply_slots s
    = Done reply_slots s' [Dispatch idx; CleanSlot idx] /\
    queue (spe_mailbox_queue s') !! idx = Some zero_slot /\
    get_spe_queue_empty_status idx (spe_mailbox_queue s') = true /\
    nspe_slots s' = nspe_slots s /\ nspe_status s' = nspe_status s /\
    vectors s' = vectors s /\ world s' = world s.
Proof.
  intros Hwf Hidx Hfit Hpend Hns Hct.
  pose proof (wf_count_cap _ _ Hwf) as Hcap.
  destruct (handle_msg_slot_prefix count idx pend_slots reply_slots s ns
              Hwf Hidx Hpend Hns)
    as (s4 & E & Hwf4 & Hq4 & _ & _ & Ev & En & Est & Ew & _).
  rewrite E. clear E.
  rewrite (bind_Done _ _ _ _ _ _
             (dispatch_unknown (ns_msg ns) idx reply_slots s4 Hct)).
  cbn [fst snd is_success negb].
  assert (Hl : (idx < length (queue (spe_mailbox_queue s4)))%nat)
    by (rewrite (wf_queue _ _ Hwf4); lia).
  rewrite (bind_Done _ _ _ _ _ _ (clean_queue_slot_eq idx s4 ltac:(lia) Hl)).
  eexists. split; [reflexivity|].
  cbn [spe_mailbox_queue set_queue_field nspe_slots nspe_status vectors world].
  split; [|split; [|repeat split; assumption]].
  - rewrite queue_set_empty_status. apply list_lookup_insert_eq. exact Hl.
  - rewrite empty_status_get by lia. apply empty_status_set; [exact Hfit | lia].
Qed.

(** The dispatcher after its switch, when the switch asks for an answer at
    once and when it does not. *)
Lemma dispatch_after_switch (count idx : nat) (m : mailbox_msg_t)
    (reply_slots : Z) (s s1 : mbox) (sl : secure_mailbox_slot_t)
    (sync : bool) (psa_ret : Z) :
  dispatch_switch m idx
    (PARAM_PACK (cp_type (params m)) (cp_in_len (params m))
                (cp_out_len (params m)))
    (negb CONFIG_TFM_SPM_BACKEND_IPC) s
  = Done (Some (sync, psa_ret)) s1 [] ->
  wf count s1 -> (idx < count)%nat ->
  queue (spe_mailbox_queue s1) !! idx = Some sl ->
  ns_slot_idx sl = Z.of_nat idx ->
  if sync then
    exists s' x,
      tfm_mailbox_dispatch m idx reply_slots s
      = Done (MAILBOX_SUCCESS, status_t (Z.lor reply_slots (bit idx))) s'
             [Dispatch idx; DirectReply idx (uint32 psa_ret); CleanSlot idx] /\
      wf count s' /\
      nspe_slots s1 !! idx = Some x /\
      nspe_slots s'
      = <[idx := set_return_val x (sint32 (uint32 psa_ret))]> (nspe_slots s1) /\
      queue (spe_mailbox_queue s')
      = <[idx := zero_slot]> (queue (spe_mailbox_queue s1)) /\
      empty_slots (spe_mailbox_queue s')
      = empty_slots (set_spe_queue_empty_status idx (spe_mailbox_queue s1)) /\
      (exists v, vectors s1 !! idx = Some v /\
                 vectors s' = <[idx := set_in_use v false]> (vectors s1)) /\
      nspe_status s' = nspe_status s1 /\ world s' = world s1 /\
      ns_invec_mem s' = ns_invec_mem s1
  else
    tfm_mailbox_dispatch m idx reply_slots s
    = Done (MAILBOX_SUCCESS, reply_slots) s1 [Dispatch idx].
Proof.
  intros E1 Hwf1 Hidx Hsl Hk.
  unfold tfm_mailbox_dispatch.
  rewrite (bind_Done _ _ s s tt [Dispatch idx]) by reflexivity.
  rewrite (bind_Done _ _ _ _ _ _ E1).
  destruct sync; [|reflexivity].
  destruct (direct_reply_wf_final count idx (uint32 psa_ret) s1 sl
              Hwf1 Hidx Hsl Hk) as (s' & x & E & Hrest).
  rewrite (bind_Done _ _ _ _ _ _ E).
  exists s', x. split; [reflexivity | exact Hrest].
Qed.

Lemma switch_framework_version (m : mailbox_msg_t) (idx : nat) (control : Z)
    (sync : bool) (s : mbox) :
  call_type m = MAILBOX_PSA_FRAMEWORK_VERSION ->
  dispatch_switch m idx control sync s
  = Done (Some (true, fst (tfm_rpc_psa_framework_version (world s))))
         (set_world s (snd (tfm_rpc_psa_framework_version (world s)))) [].
Proof.
  intros Hct. unfold dispatch_switch. rewrite Hct, Z.eqb_refl. reflexivity.
Qed.

Lemma switch_version (m : mailbox_msg_t) (idx : nat) (control : Z)
    (sync : bool) (s : mbox) :
  call_type m <> MAILBOX_PSA_FRAMEWORK_VERSION ->
  call_type m = MAILBOX_PSA_VERSION ->
  dispatch_switch m idx control sync s
  = Done (Some (true,
               fst (tfm_rpc_psa_version (psa_version_sid (params m)) (world s))))
         (set_world s
            (snd (tfm_rpc_psa_version (psa_version_sid (params m)) (world s))))
         [].
Proof.
  intros Hne Hct. unfold dispatch_switch.
  apply Z.eqb_neq in Hne. rewrite Hne, Hct, Z.eqb_refl. reflexivity.
Qed.

(** X6.  A framework-version or a version query is answered at once: the
    dispatcher calls the RPC layer, writes the value it returns into the
    caller's slot as the reply, cleans the slot, and adds the slot's bit to
    [reply_slots], whatever the backend. *)
Theorem dispatch_answers_version_queries (count idx : nat) (m : mailbox_msg_t)
    (reply_slots : Z) (s : mbox) (sl : secure_mailbox_slot_t) :
  wf count s -> (idx < count)%nat ->
  queue (spe_mailbox_queue s) !! idx = Some sl ->
  ns_slot_idx sl = Z.of_nat idx ->
  forall v w,
    (call_type m = MAILBOX_PSA_FRAMEWORK_VERSION /\
     tfm_rpc_psa_framework_version (world s) = (v, w)) \/
    (call_type m <> MAILBOX_PSA_FRAMEWORK_VERSION /\
     call_type m = MAILBOX_PSA_VERSION /\
     tfm_rpc_psa_version (psa_version_sid (params m)) (world s) = (v, w)) ->
    exists s' x,
      tfm_mailbox_dispatch m idx reply_slots s
      = Done (MAILBOX_SUCCESS, status_t (Z.lor reply_slots (bit idx))) s'
             [Dispatch idx; DirectReply idx (uint32 v); CleanSlot idx] /\
      nspe_slots s !! idx = Some x /\
      nspe_slots s' !! idx = Some (set_return_val x (sint32 (uint32 v))) /\
      queue (spe_mailbox_queue s') !! idx = Some zero_slot /\
      world s' = w.
Proof.
  intros Hwf Hidx Hsl Hk v w Hcase.
  assert (Hsw : dispatch_switch m idx
            (PARAM_PACK (cp_type (params m)) (cp_in_len (params m))
                        (cp_out_len (params m)))
            (negb CONFIG_TFM_SPM_BACKEND_IPC) s
          = Done (Some (true, v)) (set_world s w) []).
  { destruct Hcase as [[Hct Hv]|(Hne & Hct & Hv)].
    - rewrite switch_framework_version by exact Hct. rewrite Hv. reflexivity.
    - rewrite switch_version by assumption. rewrite Hv. reflexivity. }
  pose proof (dispatch_after_switch count idx m reply_slots s (set_world s w)
                sl true v Hsw (wf_set_world _ _ w Hwf) Hidx Hsl Hk) as H.
  cbn beta iota in H.
  destruct H as (s' & x & E & Hwf' & Hx & En & Eq & _ & _ & _ & Ew & _).
  exists s', x. split; [exact E|]. split; [exact Hx|].
  pose proof (lookup_lt_Some _ _ _ Hx) as Lx.
  pose proof (lookup_lt_Some _ _ _ Hsl) as Lq.
  split; [rewrite En; apply list_lookup_insert_eq; exact Lx|].
  split; [rewrite Eq; apply list_lookup_insert_eq; exact Lq|].
  exact Ew.
Qed.

Lemma tags_apart :
  tags_distinct ->
  MAILBOX_PSA_FRAMEWORK_VERSION <> MAILBOX_PSA_VERSION /\
  MAILBOX_PSA_FRAMEWORK_VERSION <> MAILBOX_PSA_CALL /\
  MAILBOX_PSA_FRAMEWORK_VERSION <> MAILBOX_PSA_CONNECT /\
  MAILBOX_PSA_FRAMEWORK_VERSION <> MAILBOX_PSA_CLOSE /\
  MAILBOX_PSA_VERSION <> MAILBOX_PSA_CALL /\
  MAILBOX_PSA_VERSION <> MAILBOX_PSA_CONNECT /\
  MAILBOX_PSA_VERSION <> MAILBOX_PSA_CLOSE /\
  MAILBOX_PSA_CALL <> MAILBOX_PSA_CONNECT /\
  MAILBOX_PSA_CALL <> MAILBOX_PSA_CLOSE /\
  MAILBOX_PSA_CONNECT <> MAILBOX_PSA_CLOSE.
Proof.
  unfold tags_distinct. rewrite !NoDup_cons, !not_elem_of_cons.
  intros H. intuition congruence.
Qed.

(** Staging either rejects the request and changes nothing, or replaces the
    entry of the slot in [vectors]; it makes no recorded call. *)
Lemma local_copy_vects_inv (prm : psa_client_params_t) (idx : nat)
    (control : Z) (s s1 : mbox) (r : mailbox_status * Z) (t : list event) :
  local_copy_vects prm idx control s = Done r s1 t ->
  t = [] /\
  ((fst r = MAILBOX_INVAL_PARAMS /\ s1 = s) \/
   (fst r = MAILBOX_SUCCESS /\ (idx < length (vectors s))%nat /\
    exists v, in_use v = true /\
              s1 = set_vectors s (<[idx := v]> (vectors s)))).
Proof.
  unfold local_copy_vects. intros H.
  destruct (_ || _) in H.
  { unfold ret in H. injection H as ? ? ?. subst. split; [reflexivity|].
    left. split; reflexivity. }
  destruct (_ || _) in H.
  { unfold ret in H. injection H as ? ? ?. subst. split; [reflexivity|].
    left. split; reflexivity. }
  apply bind_inv in H as (v0 & s0 & t0 & t0' & E0 & H & ->).
  unfold load_vectors in E0.
  destruct (vectors s !! idx) as [v0'|] eqn:Hv; [|discriminate].
  injection E0 as ? ? ?. subst v0' s0 t0.
  apply bind_inv in H as (s0 & s0' & t1 & t1' & E1 & H & ->).
  unfold get in E1. injection E1 as ? ? ?. subst s0 s0' t1.
  apply bind_inv in H as (u & s2 & t2 & t2' & E2 & H & ->).
  unfold store_vectors in E2.
  destruct (Nat.ltb_spec idx (length (vectors s))) as [Hlen|]; [|discriminate].
  injection E2 as ? ? ?. subst u s2 t2.
  unfold ret in H. injection H as ? ? ?. subst.
  split; [reflexivity|]. right. split; [reflexivity|].
  split; [exact Hlen|]. eexists. split; [|reflexivity]. reflexivity.
Qed.

Lemma local_copy_vects_frame (prm : psa_client_params_t) (idx : nat)
    (control : Z) (s s1 : mbox) (r : mailbox_status * Z) (t : list event) :
  local_copy_vects prm idx control s = Done r s1 t ->
  t = [] /\
  spe_mailbox_queue s1 = spe_mailbox_queue s /\
  nspe_status s1 = nspe_status s /\ nspe_slots s1 = nspe_slots s /\
  ns_invec_mem s1 = ns_invec_mem s /\ ns_outvec_mem s1 = ns_outvec_mem s /\
  world s1 = world s /\
  (forall j, j <> idx -> vectors s1 !! j = vectors s !! j).
Proof.
  intros H. apply local_copy_vects_inv in H
    as [-> [[_ ->]|(_ & _ & v & _ & ->)]].
  - repeat split.
  - cbn [set_vectors spe_mailbox_queue nspe_status nspe_slots ns_invec_mem
         ns_outvec_mem world vectors].
    repeat split. intros j Hj. apply list_lookup_insert_ne. congruence.
Qed.

(** The switch when the client id does not translate: every case that
    translates it asks for [PSA_ERROR_INVALID_ARGUMENT] at once, and the RPC
    layer is not called. *)
Lemma switch_unresolved_identity (count idx : nat) (m : mailbox_msg_t)
    (control : Z) (sync : bool) (s : mbox) :
  wf count s -> (idx < NUM_MAILBOX_QUEUE_SLOT)%nat ->
  tags_distinct ->
  tfm_multi_core_hal_client_id_translate (client_id m) = None ->
  call_type m = MAILBOX_PSA_CALL \/
  (CONFIG_TFM_CONNECTION_BASED_SERVICE_API = true /\
   (call_type m = MAILBOX_PSA_CONNECT \/ call_type m = MAILBOX_PSA_CLOSE)) ->
  exists s1,
    dispatch_switch m idx control sync s
    = Done (Some (true, PSA_ERROR_INVALID_ARGUMENT)) s1 [] /\
    wf count s1 /\
    spe_mailbox_queue s1 = spe_mailbox_queue s /\
    nspe_slots s1 = nspe_slots s /\ world s1 = world s.
Proof.
  intros Hwf Hidx Htags Htr Hct.
  destruct (tags_apart Htags)
    as (T1 & T2 & T3 & T4 & T5 & T6 & T7 & T8 & T9 & T10).
  unfold dispatch_switch.
  destruct Hct as [Hct|(Hcfg & [Hct|Hct])]; rewrite Hct, ?Hcfg.
  - destruct (Z.eqb_spec MAILBOX_PSA_CALL MAILBOX_PSA_FRAMEWORK_VERSION);
      [congruence|].
    destruct (Z.eqb_spec MAILBOX_PSA_CALL MAILBOX_PSA_VERSION); [congruence|].
    rewrite Z.eqb_refl.
    destruct (local_copy_vects_run count idx (params m) control s Hwf Hidx)
      as (r & s1 & E1 & Hwf1 & Hq1 & Hn1 & _).
    pose proof (local_copy_vects_frame _ _ _ _ _ _ _ E1)
      as (_ & _ & _ & _ & _ & _ & Hw1 & _).
    rewrite (bind_Done _ _ _ _ _ _ E1).
    destruct (negb (is_success (fst r)));
      [|rewrite Htr]; exists s1;
      (split; [reflexivity|]; split; [assumption|];
       split; [assumption|]; split; assumption).
  - destruct (Z.eqb_spec MAILBOX_PSA_CONNECT MAILBOX_PSA_FRAMEWORK_VERSION);
      [congruence|].
    destruct (Z.eqb_spec MAILBOX_PSA_CONNECT MAILBOX_PSA_VERSION);
      [congruence|].
    destruct (Z.eqb_spec MAILBOX_PSA_CONNECT MAILBOX_PSA_CALL); [congruence|].
    rewrite Z.eqb_refl. cbn [andb]. rewrite Htr.
    exists s. split; [reflexivity|]. split; [exact Hwf|]. repeat split.
  - destruct (Z.eqb_spec MAILBOX_PSA_CLOSE MAILBOX_PSA_FRAMEWORK_VERSION);
      [congruence|].
    destruct (Z.eqb_spec MAILBOX_PSA_CLOSE MAILBOX_PSA_VERSION); [congruence|].
    destruct (Z.eqb_spec MAILBOX_PSA_CLOSE MAILBOX_PSA_CALL); [congruence|].
    destruct (Z.eqb_spec MAILBOX_PSA_CLOSE MAILBOX_PSA_CONNECT); [congruence|].
    rewrite Z.eqb_refl. cbn [andb]. rewrite Htr.
    exists s. split; [reflexivity|]. split; [exact Hwf|]. repeat split.
Qed.

(** X7.  When the client id of a call, a connect or a close does not
    translate, the dispatcher answers [PSA_ERROR_INVALID_ARGUMENT] at once
    and the RPC layer is not called: the collaborators' state is
    unchanged. *)
Theorem dispatch_unresolved_identity (count idx : nat) (m : mailbox_msg_t)
    (reply_slots : Z) (s : mbox) (sl : secure_mailbox_slot_t) :
  wf count s -> (idx < count)%nat ->
  queue (spe_mailbox_queue s) !! idx = Some sl ->
  ns_slot_idx sl = Z.of_nat idx ->
  tags_distinct ->
  tfm_multi_core_hal_client_id_translate (client_id m) = None ->
  call_type m = MAILBOX_PSA_CALL \/
  (CONFIG_TFM_CONNECTION_BASED_SERVICE_API = true /\
   (call_type m = MAILBOX_PSA_CONNECT \/ call_type m = MAILBOX_PSA_CLOSE)) ->
  exists s' x,
    tfm_mailbox_dispatch m idx reply_slots s
    = Done (MAILBOX_SUCCESS, status_t (Z.lor reply_slots (bit idx))) s'
           [Dispatch idx;
            DirectReply idx (uint32 PSA_ERROR_INVALID_ARGUMENT);
            CleanSlot idx] /\
    nspe_slots s !! idx = Some x /\
    nspe_slots s' !! idx
    = Some (set_return_val x (sint32 (uint32 PSA_ERROR_INVALID_ARGUMENT))) /\
    queue (spe_mailbox_queue s') !! idx = Some zero_slot /\
    world s' = world s.
Proof.
  intros Hwf Hidx Hsl Hk Htags Htr Hct.
  pose proof (wf_count_cap _ _ Hwf) as Hcap.
  destruct (switch_unresolved_identity count idx m
              (PARAM_PACK (cp_type (params m)) (cp_in_len (params m))
                          (cp_out_len (params m)))
              (negb CONFIG_TFM_SPM_BACKEND_IPC) s Hwf ltac:(lia) Htags Htr Hct)
    as (s1 & Hsw & Hwf1 & Hq1 & Hn1 & Hw1).
  rewrite <- Hq1 in Hsl.
  pose proof (dispatch_after_switch count idx m reply_slots s s1 sl true _
                Hsw Hwf1 Hidx Hsl Hk) as H.
  cbn beta iota in H.
  destruct H as (s' & x & E & Hwf' & Hx & En & Eq & _ & _ & _ & Ew & _).
  exists s', x. split; [exact E|].
  pose proof (lookup_lt_Some _ _ _ Hx) as Lx.
  pose proof (lookup_lt_Some _ _ _ Hsl) as Lq.
  split; [rewrite <- Hn1; exact Hx|].
  split; [rewrite En; apply list_lookup_insert_eq; exact Lx|].
  split; [rewrite Eq; apply list_lookup_insert_eq; exact Lq|].
  congruence.
Qed.

(** The switch for a connect or a close whose client id translates: the RPC
    layer is called, and an answer at once is asked for when it fails. *)
Lemma switch_connection_call (m : mailbox_msg_t) (idx : nat) (control : Z)
    (sync : bool) (s : mbox) (cid st : Z) (w : backend) :
  tags_distinct ->
  CONFIG_TFM_CONNECTION_BASED_SERVICE_API = true ->
  tfm_multi_core_hal_client_id_translate (client_id m) = Some cid ->
  (call_type m = MAILBOX_PSA_CONNECT /\
   tfm_rpc_psa_connect (psa_connect_sid (params m))
                       (psa_connect_version (params m)) cid idx (world s)
   = (st, w)) \/
  (call_type m = MAILBOX_PSA_CLOSE /\
   tfm_rpc_psa_close (psa_close_handle (params m)) cid (world s) = (st, w)) ->
  dispatch_switch m idx control sync s
  = Done (Some (if negb (st =? PSA_SUCCESS) then true else sync, st))
         (set_world s w) [].
Proof.
  intros Htags Hcfg Htr Hcase.
  destruct (tags_apart Htags)
    as (T1 & T2 & T3 & T4 & T5 & T6 & T7 & T8 & T9 & T10).
  unfold dispatch_switch.
  destruct Hcase as [[Hct Hrpc]|[Hct Hrpc]]; rewrite Hct, Hcfg.
  - destruct (Z.eqb_spec MAILBOX_PSA_CONNECT MAILBOX_PSA_FRAMEWORK_VERSION);
      [congruence|].
    destruct (Z.eqb_spec MAILBOX_PSA_CONNECT MAILBOX_PSA_VERSION);
      [congruence|].
    destruct (Z.eqb_spec MAILBOX_PSA_CONNECT MAILBOX_PSA_CALL); [congruence|].
    rewrite Z.eqb_refl. cbn [andb]. rewrite Htr.
    unfold bind, call_backend, ret. rewrite Hrpc. reflexivity.
  - destruct (Z.eqb_spec MAILBOX_PSA_CLOSE MAILBOX_PSA_FRAMEWORK_VERSION);
      [congruence|].
    destruct (Z.eqb_spec MAILBOX_PSA_CLOSE MAILBOX_PSA_VERSION); [congruence|].
    destruct (Z.eqb_spec MAILBOX_PSA_CLOSE MAILBOX_PSA_CALL); [congruence|].
    destruct (Z.eqb_spec MAILBOX_PSA_CLOSE MAILBOX_PSA_CONNECT); [congruence|].
    rewrite Z.eqb_refl. cbn [andb]. rewrite Htr.
    unfold bind, call_backend, ret. rewrite Hrpc. reflexivity.
Qed.

(** X8.  A connect or a close whose client id translates is handed to the
    RPC layer.  With the IPC backend and a [PSA_SUCCESS] status nothing is
    replied and only the collaborators' state has changed; without the IPC
    backend, or on any other status, the status is written as the reply at
    once and the slot is cleaned. *)
Theorem dispatch_forwards_connection_calls (count idx : nat)
    (m : mailbox_msg_t) (reply_slots : Z) (s : mbox)
    (sl : secure_mailbox_slot_t) (cid st : Z) (w : backend) :
  wf count s -> (idx < count)%nat ->
  queue (spe_mailbox_queue s) !! idx = Some sl ->
  ns_slot_idx sl = Z.of_nat idx ->
  tags_distinct ->
  CONFIG_TFM_CONNECTION_BASED_SERVICE_API = true ->
  tfm_multi_core_hal_client_id_translate (client_id m) = Some cid ->
  (call_type m = MAILBOX_PSA_CONNECT /\
   tfm_rpc_psa_connect (psa_connect_sid (params m))
                       (psa_connect_version (params m)) cid idx (world s)
   = (st, w)) \/
  (call_type m = MAILBOX_PSA_CLOSE /\
   tfm_rpc_psa_close (psa_close_handle (params m)) cid (world s) = (st, w)) ->
  (CONFIG_TFM_SPM_BACKEND_IPC = true -> st = PSA_SUCCESS ->
   tfm_mailbox_dispatch m idx reply_slots s
   = Done (MAILBOX_SUCCESS, reply_slots) (set_world s w) [Dispatch idx]) /\
  (CONFIG_TFM_SPM_BACKEND_IPC = false \/ st <> PSA_SUCCESS ->
   exists s' x,
     tfm_mailbox_dispatch m idx reply_slots s
     = Done (MAILBOX_SUCCESS, status_t (Z.lor reply_slots (bit idx))) s'
            [Dispatch idx; DirectReply idx (uint32 st); CleanSlot idx] /\
     nspe_slots s !! idx = Some x /\
     nspe_slots s' !! idx = Some (set_return_val x (sint32 (uint32 st))) /\
     queue (spe_mailbox_queue s') !! idx = Some zero_slot /\
     world s' = w).
Proof.
  intros Hwf Hidx Hsl Hk Htags Hcfg Htr Hcase.
  pose proof (switch_connection_call m idx
                (PARAM_PACK (cp_type (params m)) (cp_in_len (params m))
                            (cp_out_len (params m)))
                (negb CONFIG_TFM_SPM_BACKEND_IPC) s cid st w
                Htags Hcfg Htr Hcase) as Hsw.
  pose proof (wf_set_world _ _ w Hwf) as Hwf1.
  split.
  - intros Hipc ->.
    assert (Es : (if negb (PSA_SUCCESS =? PSA_SUCCESS) then true
                  else negb CONFIG_TFM_SPM_BACKEND_IPC) = false)
      by (rewrite Z.eqb_refl, Hipc; reflexivity).
    rewrite Es in Hsw.
    exact (dispatch_after_switch count idx m reply_slots s (set_world s w)
             sl false _ Hsw Hwf1 Hidx Hsl Hk).
  - intros Hsync.
    assert (Es : (if negb (st =? PSA_SUCCESS) then true
                  else negb CONFIG_TFM_SPM_BACKEND_IPC) = true).
    { destruct Hsync as [Hipc|Hne];
        [rewrite Hipc; destruct (st =? PSA_SUCCESS); reflexivity|].
      apply Z.eqb_neq in Hne. rewrite Hne. reflexivity. }
    rewrite Es in Hsw.
    pose proof (dispatch_after_switch count idx m reply_slots s (set_world s w)
                  sl true _ Hsw Hwf1 Hidx Hsl Hk) as H.
    cbn beta iota in H.
    destruct H as (s' & x & E & Hwf' & Hx & En & Eq & _ & _ & _ & Ew & _).
    exists s', x. split; [exact E|]. split; [exact Hx|].
    pose proof (lookup_lt_Some _ _ _ Hx) as Lx.
    pose proof (lookup_lt_Some _ _ _ Hsl) as Lq.
    split; [rewrite En; apply list_lookup_insert_eq; exact Lx|].
    split; [rewrite Eq; apply list_lookup_insert_eq; exact Lq|].
    exact Ew.
Qed.

(** A reply delivered in a well-formed state to a slot that is not empty
    and records itself as its origin. *)
Lemma reply_msg_run (count idx : nat) (handle reply : Z) (s : mbox)
    (sl : secure_mailbox_slot_t) :
  wf count s -> slots_fit ->
  reply_msg_idx handle = inr idx -> (idx < count)%nat ->
  queue (spe_mailbox_queue s) !! idx = Some sl ->
  ns_slot_idx sl = Z.of_nat idx ->
  get_spe_queue_empty_status idx (spe_mailbox_queue s) = false ->
  exists s' x,
    tfm_mailbox_reply_msg handle reply s
    = Done MAILBOX_SUCCESS s'
           [DirectReply idx (uint32 reply); CleanSlot idx; EnterCritical;
            RepliedSet (status_t (bit idx)); ExitCritical; NotifyPeer] /\
    wf count s' /\
    nspe_slots s !! idx = Some x /\
    nspe_slots s' !! idx = Some (set_return_val x (sint32 (uint32 reply))) /\
    Z.testbit (replied_slots (nspe_status s')) (Z.of_nat idx) = true /\
    pend_slots (nspe_status s') = pend_slots (nspe_status s) /\
    queue (spe_mailbox_queue s') !! idx = Some zero_slot /\
    get_spe_queue_empty_status idx (spe_mailbox_queue s') = true.
Proof.
  intros Hwf Hfit Hdec Hidx Hsl Hk Hempty.
  pose proof (wf_count_cap _ _ Hwf) as Hcap.
  unfold tfm_mailbox_reply_msg, tfm_mailbox_hal_enter_critical,
    tfm_mailbox_hal_exit_critical, tfm_mailbox_hal_notify_peer.
  rewrite Hdec.
  rewrite (bind_Done _ _ s s s []) by reflexivity. rewrite Hempty.
  destruct (direct_reply_wf_final count idx (uint32 reply) s sl
              Hwf Hidx Hsl Hk)
    as (s1 & x & E1 & Hwf1 & Hx & En & Eq & Ee & _ & Est & _).
  rewrite (bind_Done _ _ _ _ _ _ E1).
  rewrite (bind_Done _ _ s1 s1 tt [EnterCritical]) by reflexivity.
  rewrite (bind_Done _ _ _ _ _ _
             (set_replied_eq (status_t (bit idx)) s1 (wf_status_ptr _ _ Hwf1))).
  set (s2 := set_nspe_status s1 _).
  rewrite (bind_Done _ _ s2 s2 tt [ExitCritical]) by reflexivity.
  rewrite (bind_Done _ _ s2 s2 tt [NotifyPeer]) by reflexivity.
  exists s2, x. split; [reflexivity|].
  split; [apply wf_set_nspe_status; exact Hwf1|].
  split; [exact Hx|].
  pose proof (lookup_lt_Some _ _ _ Hx) as Lx.
  pose proof (lookup_lt_Some _ _ _ Hsl) as Lq.
  unfold slots_fit in Hfit.
  cbn [s2 set_nspe_status nspe_slots nspe_status spe_mailbox_queue
       set_nspe_queue_replied_status replied_slots pend_slots].
  split; [rewrite En; apply list_lookup_insert_eq; exact Lx|].
  split.
  { rewrite status_t_testbit_low by lia.
    rewrite Z.lor_spec, status_t_testbit_low, bit_testbit, Z.eqb_refl by lia.
    apply orb_true_r. }
  split; [rewrite Est; reflexivity|].
  split; [rewrite Eq; apply list_lookup_insert_eq; exact Lq|].
  rewrite empty_status_get by lia. rewrite Ee.
  apply empty_status_set; [exact Hfit | lia].
Qed.

(** X9.  [tfm_mailbox_reply_msg] with a handle that resolves to an occupied
    slot below the slot count commits the reply: the return value is written
    to the caller's slot, the queue slot is zeroed and marked empty, the
    slot's replied bit is set inside the critical section with the pending
    mask left alone, and the peer is notified once. *)
Theorem deliver_reply_commits (count idx : nat) (handle reply : Z) (s : mbox)
    (sl : secure_mailbox_slot_t) :
  wf count s -> slots_fit ->
  reply_msg_idx handle = inr idx -> (idx < count)%nat ->
  queue (spe_mailbox_queue s) !! idx = Some sl ->
  ns_slot_idx sl = Z.of_nat idx ->
  get_spe_queue_empty_status idx (spe_mailbox_queue s) = false ->
  exists s' x,
    tfm_mailbox_reply_msg handle reply s
    = Done MAILBOX_SUCCESS s'
           [DirectReply idx (uint32 reply); CleanSlot idx; EnterCritical;
            RepliedSet (status_t (bit idx)); ExitCritical; NotifyPeer] /\
    wf count s' /\
    nspe_slots s !! idx = Some x /\
    nspe_slots s' !! idx = Some (set_return_val x (sint32 (uint32 reply))) /\
    Z.testbit (replied_slots (nspe_status s')) (Z.of_nat idx) = true /\
    pend_slots (nspe_status s') = pend_slots (nspe_status s) /\
    queue (spe_mailbox_queue s') !! idx = Some zero_slot /\
    get_spe_queue_empty_status idx (spe_mailbox_queue s') = true.
Proof. apply reply_msg_run. Qed.


Lemma set_replied_inv (mask : Z) (s s' : mbox) (u : unit) (t : list event) :
  set_replied mask s = Done u s' t ->
  s' = set_nspe_status s
         (set_nspe_queue_replied_status (nspe_status s) mask).
Proof.
  unfold set_replied. intros H.
  apply bind_inv in H as (ns & s1 & t1 & t2 & E1 & H & ->).
  unfold load_ns_status in E1.
  destruct (ns_status (spe_mailbox_queue s) =? NULL) eqn:Ep; [discriminate|].
  injection E1 as ? ? ?. subst ns s1 t1.
  apply bind_inv in H as (u1 & s2 & t3 & t4 & E2 & H & ->).
  unfold store_ns_status in E2. rewrite Ep in E2.
  injection E2 as ? ? ?. subst u1 s2 t3.
  unfold emit in H. injection H as ? ? ?. subst. reflexivity.
Qed.

(** X10.  A reply is delivered once: after [tfm_mailbox_reply_msg] has
    returned [MAILBOX_SUCCESS] for a handle, a second call with the same
    handle returns [MAILBOX_NO_PEND_EVENT], changes nothing and makes no
    call. *)
Theorem deliver_reply_once (handle reply reply' : Z) (s s' : mbox)
    (t : list event) :
  slots_fit ->
  tfm_mailbox_reply_msg handle reply s = Done MAILBOX_SUCCESS s' t ->
  tfm_mailbox_reply_msg handle reply' s' = Done MAILBOX_NO_PEND_EVENT s' [].
Proof.
  intros Hfit H.
  unfold tfm_mailbox_reply_msg in H. rewrite reply_msg_idx_eq in H.
  set (idx := if handle =? MAILBOX_MSG_NULL_HANDLE then O
              else Z.to_nat (uint8 (handle - 1))) in *.
  apply bind_inv in H as (s0 & s0' & t0 & t0' & E0 & H & ->).
  unfold get in E0. injection E0 as ? ? ?. subst s0 s0' t0.
  destruct (get_spe_queue_empty_status idx (spe_mailbox_queue s));
    [unfold ret in H; discriminate|].
  apply bind_inv in H as (u1 & s1 & t1 & t1' & E1 & H & ->).
  apply bind_inv in H as (u2 & s2 & t2 & t2' & E2 & H & ->).
  unfold tfm_mailbox_hal_enter_critical, emit in E2.
  injection E2 as ? ? ?. subst u2 s2 t2.
  apply bind_inv in H as (u3 & s3 & t3 & t3' & E3 & H & ->).
  apply set_replied_inv in E3. subst s3.
  apply bind_inv in H as (u4 & s4 & t4 & t4' & E4 & H & ->).
  unfold tfm_mailbox_hal_exit_critical, emit in E4.
  injection E4 as ? ? ?. subst u4 s4 t4.
  apply bind_inv in H as (u5 & s5 & t5 & t5' & E5 & H & ->).
  unfold tfm_mailbox_hal_notify_peer, emit in E5.
  injection E5 as ? ? ?. subst u5 s5 t5.
  unfold ret in H. injection H as ? ?. subst s'.
  apply direct_reply_final in E1
    as (Hidx & _ & v & sl & x & m' & _ & _ & _ & _ & ->).
  unfold tfm_mailbox_reply_msg. rewrite reply_msg_idx_eq. fold idx.
  unfold bind, get.
  cbn [set_nspe_status spe_mailbox_queue].
  rewrite empty_status_get by exact Hidx.
  rewrite empty_status_set by assumption. reflexivity.
Qed.

(** The switch of the dispatcher leaves the shared status as it is. *)
Lemma dispatch_switch_status (m : mailbox_msg_t) (idx : nat) (control : Z)
    (sync : bool) (s s' : mbox) (r : option (bool * Z)) (t : list event) :
  dispatch_switch m idx control sync s = Done r s' t ->
  nspe_status s' = nspe_status s.
Proof.
  unfold dispatch_switch. intros H.
  destruct (call_type m =? MAILBOX_PSA_FRAMEWORK_VERSION).
  { unfold bind, call_backend, ret in H. injection H as ? ? ?. subst.
    reflexivity. }
  destruct (call_type m =? MAILBOX_PSA_VERSION).
  { unfold bind, call_backend, ret in H. injection H as ? ? ?. subst.
    reflexivity. }
  destruct (call_type m =? MAILBOX_PSA_CALL).
  { apply bind_inv in H as (r1 & s1 & t1 & t1' & E1 & H & ->).
    apply local_copy_vects_frame in E1 as (_ & _ & Est & _).
    destruct (negb (is_success (fst r1))).
    { unfold ret in H. injection H as ? ? ?. subst. exact Est. }
    destruct (tfm_multi_core_hal_client_id_translate (client_id m)).
    2: { unfold ret in H. injection H as ? ? ?. subst. exact Est. }
    apply bind_inv in H as (v & s2 & t2 & t2' & E2 & H & ->).
    unfold load_vectors in E2.
    destruct (vectors s1 !! idx); [|discriminate].
    injection E2 as ? ? ?. subst s2.
    apply bind_inv in H as (o & s3 & t3 & t3' & E3 & H & ->).
    unfold call_backend in E3. injection E3 as ? ? ?. subst s3.
    apply bind_inv in H as (u & s4 & t4 & t4' & E4 & H & ->).
    unfold store_vectors in E4.
    destruct (_ <? _)%nat in E4; [|discriminate].
    injection E4 as ? ? ?. subst s4.
    unfold ret in H. injection H as ? ? ?. subst. exact Est. }
  destruct (CONFIG_TFM_CONNECTION_BASED_SERVICE_API
            && (call_type m =? MAILBOX_PSA_CONNECT)).
  { destruct (tfm_multi_core_hal_client_id_translate (client_id m)).
    - unfold bind, call_backend, ret in H. injection H as ? ? ?. subst.
      reflexivity.
    - unfold ret in H. injection H as ? ? ?. subst. reflexivity. }
  destruct (CONFIG_TFM_CONNECTION_BASED_SERVICE_API
            && (call_type m =? MAILBOX_PSA_CLOSE)).
  { destruct (tfm_multi_core_hal_client_id_translate (client_id m)).
    - unfold bind, call_backend, ret in H. injection H as ? ? ?. subst.
      reflexivity.
    - unfold ret in H. injection H as ? ? ?. subst. reflexivity. }
  unfold ret in H. injection H as ? ? ?. subst. reflexivity.
Qed.

(** Dispatching in a well-formed state, with what it leaves untouched. *)
Lemma dispatch_strong (count idx : nat) (m : mailbox_msg_t) (reply_slots : Z)
    (s : mbox) (sl : secure_mailbox_slot_t) :
  wf count s -> (idx < count)%nat ->
  queue (spe_mailbox_queue s) !! idx = Some sl ->
  ns_slot_idx sl = Z.of_nat idx ->
  exists r s' t,
    tfm_mailbox_dispatch m idx reply_slots s = Done r s' t /\
    wf count s' /\ nspe_status s' = nspe_status s /\
    ((fst r = MAILBOX_INVAL_PARAMS /\ t = [Dispatch idx] /\
      snd r = reply_slots /\
      spe_mailbox_queue s' = spe_mailbox_queue s) \/
     (fst r = MAILBOX_SUCCESS /\ t = [Dispatch idx] /\ snd r = reply_slots /\
      spe_mailbox_queue s' = spe_mailbox_queue s) \/
     (fst r = MAILBOX_SUCCESS /\
      snd r = status_t (Z.lor reply_slots (bit idx)) /\
      exists res, t = [Dispatch idx; DirectReply idx res; CleanSlot idx])).
Proof.
  intros Hwf Hidx Hsl Hk.
  pose proof (wf_count_cap _ _ Hwf) as Hcap.
  destruct (dispatch_switch_run count idx m
              (PARAM_PACK (cp_type (params m)) (cp_in_len (params m))
                          (cp_out_len (params m)))
              (negb CONFIG_TFM_SPM_BACKEND_IPC) s Hwf)
    as (r & s1 & E1 & Hwf1 & Hq1 & Hn1); [lia|].
  pose proof (dispatch_switch_status _ _ _ _ _ _ _ _ E1) as Hst1.
  destruct r as [[[] psa_ret]|].
  - rewrite <- Hq1 in Hsl.
    pose proof (dispatch_after_switch count idx m reply_slots s s1 sl true
                  psa_ret E1 Hwf1 Hidx Hsl Hk) as H.
    cbn beta iota in H.
    destruct H as (s' & x & E & Hwf' & _ & _ & _ & _ & _ & Est & _).
    eexists _, s', _. split; [exact E|]. split; [exact Hwf'|].
    split; [congruence|]. right. right.
    split; [reflexivity|]. split; [reflexivity|]. eexists. reflexivity.
  - rewrite <- Hq1 in Hsl.
    pose proof (dispatch_after_switch count idx m reply_slots s s1 sl false
                  psa_ret E1 Hwf1 Hidx Hsl Hk) as E.
    cbn beta iota in E.
    eexists _, s1, _. split; [exact E|]. split; [exact Hwf1|].
    split; [exact Hst1|]. right. left. repeat split. exact Hq1.
  - unfold tfm_mailbox_dispatch.
    rewrite (bind_Done _ _ s s tt [Dispatch idx]) by reflexivity.
    rewrite (bind_Done _ _ _ _ _ _ E1).
    eexists _, s1, _. split; [reflexivity|]. split; [exact Hwf1|].
    split; [exact Hst1|]. left. repeat split. exact Hq1.
Qed.

(** One turn of the drain loop, with what it leaves untouched and what it
    leaves in the queue when it forwards the request. *)
Lemma handle_msg_slot_strong (count idx : nat) (pend_slots reply_slots : Z)
    (s : mbox) :
  wf count s -> (idx < count)%nat ->
  exists r s' t,
    handle_msg_slot pend_slots idx reply_slots s = Done r s' t /\
    wf count s' /\ nspe_status s' = nspe_status s /\
    (if pending pend_slots idx
     then slot_trace idx reply_slots r t /\
          (t = [Dispatch idx] ->
           (exists msg_,
              queue (spe_mailbox_queue s') !! idx
              = Some (mk_slot (Z.of_nat idx) (Z.of_nat idx + 1) msg_)) /\
           empty_slots (spe_mailbox_queue s')
           = empty_slots
               (clear_spe_queue_empty_status idx (spe_mailbox_queue s)))
     else t = [] /\ r = reply_slots /\ s' = s).
Proof.
  intros Hwf Hidx.
  pose proof (wf_count_cap _ _ Hwf) as Hcap.
  destruct (pending pend_slots idx) eqn:Hpend.
  2: { exists reply_slots, s, []. unfold handle_msg_slot.
       unfold pending in Hpend. apply negb_false_iff in Hpend.
       rewrite Hpend. split; [reflexivity|]. split; [exact Hwf|].
       repeat split. }
  assert (Hlx : (idx < length (nspe_slots s))%nat)
    by (pose proof (wf_count_ns _ _ Hwf); lia).
  destruct (lookup_lt_is_Some_2 _ _ Hlx) as [ns Hns].
  destruct (handle_msg_slot_prefix count idx pend_slots reply_slots s ns
              Hwf Hidx Hpend Hns)
    as (s4 & E & Hwf4 & Hq4 & _ & He4 & _ & _ & Est4 & _).
  rewrite E. clear E.
  destruct (dispatch_strong count idx (ns_msg ns) reply_slots s4 _
              Hwf4 Hidx Hq4 eq_refl)
    as (r & s5 & t & E5 & Hwf5 & Est5 & Hcase).
  rewrite (bind_Done _ _ _ _ _ _ E5).
  destruct Hcase as [(Hr & -> & Hreply & Hq5)|
                     [(Hr & -> & Hreply & Hq5)|(Hr & Hreply & res & ->)]];
    rewrite Hr; cbn [is_success negb].
  - assert (Hl5 : (idx < length (queue (spe_mailbox_queue s5)))%nat)
      by (rewrite (wf_queue _ _ Hwf5); lia).
    rewrite (bind_Done _ _ _ _ _ _ (clean_queue_slot_eq idx s5 ltac:(lia) Hl5)).
    eexists _, _, _. split; [reflexivity|].
    split; [apply wf_clean; exact Hwf5|].
    split; [cbn [set_queue_field nspe_status]; congruence|].
    split; [right; left; split; [reflexivity | exact Hreply]|].
    intros Habs. discriminate Habs.
  - eexists _, _, _. split; [reflexivity|]. split; [exact Hwf5|].
    split; [congruence|].
    split; [left; split; [reflexivity | exact Hreply]|].
    intros _. rewrite Hq5. split; [eexists; exact Hq4 | exact He4].
  - eexists _, _, _. split; [reflexivity|]. split; [exact Hwf5|].
    split; [congruence|].
    split; [right; right; exists res; split; [reflexivity | exact Hreply]|].
    intros Habs. discriminate Habs.
Qed.

Lemma dispatched_app (t1 t2 : list event) :
  dispatched (t1 ++ t2) = dispatched t1 ++ dispatched t2.
Proof.
  induction t1 as [|e t1 IH]; [reflexivity|].
  destruct e; simpl; rewrite IH; reflexivity.
Qed.

(** What a turn for a pending slot leaves in the trace, read as the slots
    dispatched and the bits gained by [reply_slots]. *)
Lemma slot_trace_bits (idx : nat) (reply_slots r : Z) (t : list event) :
  Z.of_nat idx < STATUS_BITS ->
  slot_trace idx reply_slots r t ->
  dispatched t = [idx] /\
  forall i : nat, Z.of_nat i < STATUS_BITS ->
    Z.testbit r (Z.of_nat i)
    = Z.testbit reply_slots (Z.of_nat i) || (0 <? count (is_reply_of i) t)%nat.
Proof.
  intros Hidx [[-> ->]|[[-> ->]|(res & -> & ->)]]; (split; [reflexivity|]);
    intros i Hi; cbn [count is_reply_of Nat.add].
  - rewrite orb_false_r. reflexivity.
  - rewrite orb_false_r. reflexivity.
  - rewrite status_t_testbit_low by lia.
    rewrite Z.lor_spec, bit_testbit by lia. f_equal.
    destruct (Nat.eqb_spec idx i) as [->|Hne].
    + rewrite Z.eqb_refl. reflexivity.
    + destruct (Z.eqb_spec (Z.of_nat i) (Z.of_nat idx)); [lia | reflexivity].
Qed.

(** The drain loop over the indices [a], ..., [a + n - 1]: the slots it
    dispatches, in order, and the bits it adds to [reply_slots]. *)
Lemma handle_msg_loop_strong (count_ : nat) (pend_slots : Z) :
  slots_fit ->
  forall (n a : nat) (reply_slots : Z) (s : mbox),
    wf count_ s -> (a + n <= count_)%nat ->
    exists r s' t,
      handle_msg_loop pend_slots (seq a n) reply_slots s = Done r s' t /\
      wf count_ s' /\ nspe_status s' = nspe_status s /\
      dispatched t = pending_of pend_slots (seq a n) /\
      forall i : nat, Z.of_nat i < STATUS_BITS ->
        Z.testbit r (Z.of_nat i)
        = Z.testbit reply_slots (Z.of_nat i)
          || (0 <? count (is_reply_of i) t)%nat.
Proof.
  intros Hfit. induction n as [|n IH]; intros a reply_slots s Hwf Hle.
  - exists reply_slots, s, []. split; [reflexivity|]. split; [exact Hwf|].
    split; [reflexivity|]. split; [reflexivity|].
    intros i Hi. cbn [count]. rewrite orb_false_r. reflexivity.
  - cbn [seq handle_msg_loop].
    destruct (handle_msg_slot_strong count_ a pend_slots reply_slots s Hwf)
      as (r1 & s1 & t1 & E1 & Hwf1 & Hst1 & Hcase); [lia|].
    rewrite (bind_Done _ _ _ _ _ _ E1).
    destruct (IH (S a) r1 s1 Hwf1) as (r & s' & t & E & Hwf' & Hst & Hd & Hb);
      [lia|].
    rewrite E. exists r, s', (t1 ++ t).
    split; [reflexivity|]. split; [exact Hwf'|]. split; [congruence|].
    pose proof (wf_count_cap _ _ Hwf) as Hcap. unfold slots_fit in Hfit.
    assert (Hbit : Z.of_nat a < STATUS_BITS) by lia.
    unfold pending_of in *. cbn [List.filter].
    destruct (pending pend_slots a).
    + destruct Hcase as [Htr _].
      apply (slot_trace_bits a reply_slots r1 t1 Hbit) in Htr as [Hd1 Hb1].
      split; [rewrite dispatched_app, Hd1, Hd; reflexivity|].
      intros i Hi. rewrite Hb, Hb1, count_app by exact Hi.
      destruct (count (is_reply_of i) t1), (count (is_reply_of i) t);
        cbn [Nat.add Nat.ltb Nat.leb];
        rewrite ?orb_false_r, ?orb_true_r; reflexivity.
    + destruct Hcase as (-> & -> & ->). cbn [app].
      split; [exact Hd | exact Hb].
Qed.

(** A whole drain pass with a request pending, in a well-formed state: the
    loop it runs, the state it ends in and the trace it leaves. *)
Lemma handle_msg_pass (s : mbox) :
  wf (ns_slot_count (spe_mailbox_queue s)) s ->
  slots_fit -> index_fits ->
  pend_slots (nspe_status s) <> 0 ->
  exists r s1 tl,
    handle_msg_loop (pend_slots (nspe_status s))
                    (seq 0 (ns_slot_count (spe_mailbox_queue s))) 0 s
    = Done r s1 tl /\
    wf (ns_slot_count (spe_mailbox_queue s)) s1 /\
    nspe_status s1 = nspe_status s /\
    dispatched tl
    = pending_of (pend_slots (nspe_status s))
                 (seq 0 (ns_slot_count (spe_mailbox_queue s))) /\
    (forall i : nat, Z.of_nat i < STATUS_BITS ->
       Z.testbit r (Z.of_nat i) = (0 <? count (is_reply_of i) tl)%nat) /\
    tfm_mailbox_handle_msg s =
    Done MAILBOX_SUCCESS
         (set_nspe_status s1
            (set_nspe_queue_replied_status
               (clear_nspe_queue_pend_status (nspe_status s)
                                             (pend_slots (nspe_status s)))
               r))
         ([EnterCritical; ExitCritical] ++ tl ++
          [EnterCritical; PendCleared (pend_slots (nspe_status s));
           RepliedSet r; ExitCritical] ++
          (if r =? 0 then [] else [NotifyPeer])).
Proof.
  intros Hwf Hfit Hix Hpend.
  set (cnt := ns_slot_count (spe_mailbox_queue s)) in *.
  set (pend := pend_slots (nspe_status s)) in *.
  pose proof (wf_count_cap _ _ Hwf) as Hcap.
  destruct (handle_msg_loop_strong cnt pend Hfit cnt 0%nat 0 s Hwf)
    as (r & s1 & tl & E1 & Hwf1 & Hst1 & Hd & Hb); [lia|].
  exists r, s1, tl. split; [exact E1|]. split; [exact Hwf1|].
  split; [exact Hst1|]. split; [exact Hd|].
  split.
  { intros i Hi. rewrite Hb by exact Hi. rewrite Z.bits_0. reflexivity. }
  unfold tfm_mailbox_handle_msg, tfm_mailbox_hal_enter_critical,
    tfm_mailbox_hal_exit_critical, tfm_mailbox_hal_notify_peer.
  rewrite (bind_Done _ _ s s tt [EnterCritical]) by reflexivity.
  rewrite (bind_Done _ _ _ _ _ _ (load_ns_status_eq s (wf_status_ptr _ _ Hwf))).
  rewrite (bind_Done _ _ s s tt [ExitCritical]) by reflexivity.
  unfold get_nspe_queue_pend_status. fold pend.
  destruct (Z.eqb_spec pend 0) as [|_]; [contradiction|].
  rewrite (bind_Done _ _ s s s []) by reflexivity. fold cnt.
  unfold index_fits in Hix.
  destruct (Nat.leb_spec cnt 255) as [_|]; [|lia].
  rewrite (bind_Done _ _ _ _ _ _ E1).
  rewrite (bind_Done _ _ s1 s1 tt [EnterCritical]) by reflexivity.
  rewrite (bind_Done _ _ _ _ _ _
             (clear_pend_eq pend s1 (wf_status_ptr _ _ Hwf1))).
  set (s2 := set_nspe_status s1 _).
  rewrite (bind_Done _ _ _ _ _ _
             (set_replied_eq r s2 (wf_status_ptr _ _ Hwf1))).
  set (s3 := set_nspe_status s2 _).
  rewrite (bind_Done _ _ s3 s3 tt [ExitCritical]) by reflexivity.
  assert (En : (if r =? 0 then ret tt else emit NotifyPeer) s3
               = Done tt s3 (if r =? 0 then [] else [NotifyPeer]))
    by (destruct (r =? 0); reflexivity).
  rewrite (bind_Done _ _ _ _ _ _ En).
  unfold ret. f_equal.
  - subst s3 s2. cbn [set_nspe_status nspe_status]. rewrite Hst1.
    destruct s1; reflexivity.
  - cbn [app]. f_equal. f_equal. f_equal. rewrite app_nil_r. reflexivity.
Qed.

Lemma handle_msg_idle (s : mbox) :
  ns_status (spe_mailbox_queue s) <> NULL ->
  pend_slots (nspe_status s) = 0 ->
  tfm_mailbox_handle_msg s
  = Done MAILBOX_NO_PEND_EVENT s [EnterCritical; ExitCritical].
Proof.
  intros Hp Hz.
  unfold tfm_mailbox_handle_msg, tfm_mailbox_hal_enter_critical,
    tfm_mailbox_hal_exit_critical.
  rewrite (bind_Done _ _ s s tt [EnterCritical]) by reflexivity.
  rewrite (bind_Done _ _ _ _ _ _ (load_ns_status_eq s Hp)).
  rewrite (bind_Done _ _ s s tt [ExitCritical]) by reflexivity.
  unfold get_nspe_queue_pend_status. rewrite Hz. reflexivity.
Qed.

Lemma filter_seq_sorted (p : nat -> bool) (n a : nat) :
  StronglySorted lt (List.filter p (seq a n)).
Proof.
  revert a. induction n as [|n IH]; intros a; cbn [seq List.filter].
  - constructor.
  - destruct (p a); [|apply IH].
    constructor; [apply IH|].
    apply List.Forall_forall. intros x Hx.
    apply List.filter_In in Hx as [Hx _].
    apply List.in_seq in Hx. lia.
Qed.

(** X11.  A drain pass dispatches exactly the slots below the slot count
    whose bit is set in the pending mask read at its start, each once, in
    increasing order of index. *)
Theorem drain_dispatches_in_order (s : mbox) :
  wf (ns_slot_count (spe_mailbox_queue s)) s ->
  slots_fit -> index_fits ->
  pend_slots (nspe_status s) <> 0 ->
  exists s' t,
    tfm_mailbox_handle_msg s = Done MAILBOX_SUCCESS s' t /\
    dispatched t
    = pending_of (pend_slots (nspe_status s))
                 (seq 0 (ns_slot_count (spe_mailbox_queue s))) /\
    StronglySorted lt (dispatched t).
Proof.
  intros Hwf Hfit Hix Hpend.
  destruct (handle_msg_pass s Hwf Hfit Hix Hpend)
    as (r & s1 & tl & _ & _ & _ & Hd & _ & E).
  eexists _, _. split; [exact E|].
  assert (Ed : dispatched
                 ([EnterCritical; ExitCritical] ++ tl ++
                  [EnterCritical; PendCleared (pend_slots (nspe_status s));
                   RepliedSet r; ExitCritical] ++
                  (if r =? 0 then [] else [NotifyPeer]))
               = dispatched tl).
  { rewrite !dispatched_app. cbn [dispatched app].
    destruct (r =? 0); cbn [dispatched]; rewrite app_nil_r; reflexivity. }
  rewrite Ed, Hd. split; [reflexivity|]. apply filter_seq_sorted.
Qed.

(** X12.  A drain pass adds to the replied mask the bits of the slots it
    has answered and no other: after the pass the replied bit of a slot is
    set exactly when it was set before or the slot was answered during the
    pass. *)
Theorem drain_sets_replied_bits (s : mbox) :
  wf (ns_slot_count (spe_mailbox_queue s)) s ->
  slots_fit -> index_fits ->
  pend_slots (nspe_status s) <> 0 ->
  exists s' t,
    tfm_mailbox_handle_msg s = Done MAILBOX_SUCCESS s' t /\
    forall i : nat, Z.of_nat i < STATUS_BITS ->
      Z.testbit (replied_slots (nspe_status s')) (Z.of_nat i)
      = Z.testbit (replied_slots (nspe_status s)) (Z.of_nat i)
        || (0 <? count (is_reply_of i) t)%nat.
Proof.
  intros Hwf Hfit Hix Hpend.
  destruct (handle_msg_pass s Hwf Hfit Hix Hpend)
    as (r & s1 & tl & _ & _ & _ & _ & Hb & E).
  eexists _, _. split; [exact E|].
  cbn [set_nspe_status nspe_status set_nspe_queue_replied_status
       clear_nspe_queue_pend_status pend_slots replied_slots].
  intros i Hi. rewrite status_t_testbit_low by lia.
  rewrite Z.lor_spec, Hb by exact Hi. f_equal.
  rewrite !count_app. cbn [count is_reply_of Nat.add].
  destruct (r =? 0); cbn [count is_reply_of Nat.add];
    rewrite Nat.add_0_r; reflexivity.
Qed.

Lemma empty_status_cleared (idx : nat) (q q' : secure_mailbox_queue_t) :
  slots_fit -> (idx < NUM_MAILBOX_QUEUE_SLOT)%nat ->
  empty_slots q' = empty_slots (clear_spe_queue_empty_status idx q) ->
  get_spe_queue_empty_status idx q' = false.
Proof.
  intros Hfit Hidx He. unfold slots_fit in Hfit.
  rewrite empty_status_get by exact Hidx. rewrite He.
  unfold clear_spe_queue_empty_status.
  destruct (Nat.ltb_spec idx NUM_MAILBOX_QUEUE_SLOT); [|lia].
  cbn [empty_slots set_empty_slots].
  rewrite status_t_testbit_low by lia.
  rewrite Z.land_spec, Z.lnot_spec, bit_testbit, Z.eqb_refl by lia.
  apply andb_false_r.
Qed.

(** What a returning [tfm_mailbox_reply_msg] has done. *)
Lemma reply_msg_inv (handle reply : Z) (s s' : mbox) (r : mailbox_status)
    (t : list event) :
  tfm_mailbox_reply_msg handle reply s = Done r s' t ->
  (r = MAILBOX_NO_PEND_EVENT /\ s' = s /\ t = []) \/
  (r = MAILBOX_SUCCESS /\
   exists idx s1 t1,
     reply_msg_idx handle = inr idx /\
     mailbox_direct_reply idx (uint32 reply) s = Done tt s1 t1 /\
     s' = set_nspe_status s1
            (set_nspe_queue_replied_status (nspe_status s1)
                                           (status_t (bit idx)))).
Proof.
  intros H. unfold tfm_mailbox_reply_msg in H.
  pose proof (reply_msg_idx_eq handle) as Hdec. rewrite Hdec in H.
  set (idx := if handle =? MAILBOX_MSG_NULL_HANDLE then O
              else Z.to_nat (uint8 (handle - 1))) in *.
  apply bind_inv in H as (s0 & s0' & t0 & t0' & E0 & H & ->).
  unfold get in E0. injection E0 as ? ? ?. subst s0 s0' t0.
  destruct (get_spe_queue_empty_status idx (spe_mailbox_queue s)).
  { unfold ret in H. injection H as ? ? ?. subst. left. repeat split. }
  apply bind_inv in H as (u1 & s1 & t1 & t1' & E1 & H & ->).
  apply bind_inv in H as (u2 & s2 & t2 & t2' & E2 & H & ->).
  unfold tfm_mailbox_hal_enter_critical, emit in E2.
  injection E2 as ? ? ?. subst u2 s2 t2.
  apply bind_inv in H as (u3 & s3 & t3 & t3' & E3 & H & ->).
  apply set_replied_inv in E3. subst s3.
  apply bind_inv in H as (u4 & s4 & t4 & t4' & E4 & H & ->).
  unfold tfm_mailbox_hal_exit_critical, emit in E4.
  injection E4 as ? ? ?. subst u4 s4 t4.
  apply bind_inv in H as (u5 & s5 & t5 & t5' & E5 & H & ->).
  unfold tfm_mailbox_hal_notify_peer, emit in E5.
  injection E5 as ? ? ?. subst u5 s5 t5.
  unfold ret in H. injection H as ? ? ?. subst.
  right. split; [reflexivity|]. exists idx, s1, t1.
  destruct u1. split; [exact Hdec|]. split; [exact E1 | reflexivity].
Qed.

(** X13.  Well-formedness of the engine's state (sizes of the queue, of the
    staging entries and of the shared slots, and the staged output
    descriptors covering their recorded lengths) is preserved by every drain
    pass and every reply that returns. *)
Theorem engine_keeps_well_formed (s : mbox) :
  wf (ns_slot_count (spe_mailbox_queue s)) s ->
  slots_fit -> index_fits ->
  (forall r s' t,
     tfm_mailbox_handle_msg s = Done r s' t ->
     wf (ns_slot_count (spe_mailbox_queue s)) s') /\
  (forall handle reply r s' t,
     tfm_mailbox_reply_msg handle reply s = Done r s' t ->
     wf (ns_slot_count (spe_mailbox_queue s)) s').
Proof.
  intros Hwf Hfit Hix. split.
  - intros r s' t H.
    destruct (Z.eq_dec (pend_slots (nspe_status s)) 0) as [Hz|Hnz].
    + rewrite (handle_msg_idle s (wf_status_ptr _ _ Hwf) Hz) in H.
      injection H as ? ? ?. subst. exact Hwf.
    + destruct (handle_msg_pass s Hwf Hfit Hix Hnz)
        as (r0 & s1 & tl & _ & Hwf1 & _ & _ & _ & E).
      rewrite E in H. injection H as ? ? ?. subst.
      apply wf_set_nspe_status. exact Hwf1.
  - intros handle reply r s' t H.
    apply reply_msg_inv in H
      as [(_ & -> & _)|(_ & idx & s1 & t1 & _ & E1 & ->)]; [exact Hwf|].
    apply wf_set_nspe_status.
    apply direct_reply_final in E1
      as (_ & _ & v & sl & x & m' & _ & _ & _ & _ & ->).
    apply wf_direct_reply. exact Hwf.
Qed.

(** X14.  After a turn of the drain loop has forwarded the message of a
    slot without replying, the reply callback called with that slot as owner
    reads the slot's handle and delivers the reply to the same slot: return
    value written, replied bit set, slot emptied, peer notified. *)
Theorem reply_reaches_forwarded_slot (count idx : nat)
    (pend_slots reply_slots ret_ r : Z) (s s' : mbox) :
  wf count s -> slots_fit -> index_fits -> (idx < count)%nat ->
  pending pend_slots idx = true ->
  handle_msg_slot pend_slots idx reply_slots s = Done r s' [Dispatch idx] ->
  exists s'' x,
    mailbox_reply (Some idx) ret_ s'
    = Done tt s''
           [DirectReply idx (uint32 ret_); CleanSlot idx; EnterCritical;
            RepliedSet (status_t (bit idx)); ExitCritical; NotifyPeer] /\
    nspe_slots s' !! idx = Some x /\
    nspe_slots s'' !! idx = Some (set_return_val x (sint32 (uint32 ret_))) /\
    Z.testbit (replied_slots (nspe_status s'')) (Z.of_nat idx) = true /\
    get_spe_queue_empty_status idx (spe_mailbox_queue s'') = true.
Proof.
  intros Hwf Hfit Hix Hidx Hpend H.
  pose proof (wf_count_cap _ _ Hwf) as Hcap.
  destruct (handle_msg_slot_strong count idx pend_slots reply_slots s
              Hwf Hidx) as (r0 & s0 & t0 & E & Hwf' & _ & Hcase).
  rewrite E in H. injection H as ? ? ?. subst r0 s0 t0.
  rewrite Hpend in Hcase. destruct Hcase as [_ Hfw].
  destruct (Hfw eq_refl) as [[msg_ Hq] He].
  assert (Hempty : get_spe_queue_empty_status idx (spe_mailbox_queue s')
                   = false)
    by (eapply empty_status_cleared; [exact Hfit | lia | exact He]).
  assert (Hdec : reply_msg_idx (Z.of_nat idx + 1) = inr idx).
  { rewrite reply_msg_idx_eq. unfold MAILBOX_MSG_NULL_HANDLE.
    destruct (Z.eqb_spec (Z.of_nat idx + 1) 0); [lia|].
    f_equal. unfold uint8, wrap. unfold index_fits in Hix.
    rewrite Z.mod_small by lia. lia. }
  destruct (reply_msg_run count idx (Z.of_nat idx + 1) ret_ s' _
              Hwf' Hfit Hdec Hidx Hq eq_refl Hempty)
    as (s'' & x & E' & _ & Hx & Hn & Hb & _ & _ & He').
  assert (Eh : bind (load_slot idx) (fun sl => ret (msg_handle sl)) s'
               = Done (Z.of_nat idx + 1) s' []).
  { rewrite (bind_Done _ _ _ _ _ _ (load_slot_eq idx s' _ Hq)). reflexivity. }
  unfold mailbox_reply.
  rewrite (bind_Done _ _ _ _ _ _ Eh).
  rewrite (bind_Done _ _ _ _ _ _ E').
  exists s'', x. split.
  { unfold ret. cbn [app]. reflexivity. }
  repeat split; assumption.
Qed.

(** X15.  The outcomes of [tfm_mailbox_init].  When the registration of the
    callbacks fails it returns [MAILBOX_CALLBACK_REG_ERROR] without calling
    the platform's initialisation, the queue being the seeded zero queue;
    when the platform's initialisation fails it unregisters the callbacks and
    returns the platform's status; otherwise it returns [MAILBOX_SUCCESS].
    The staging entries and the shared memory are untouched in each case. *)
Theorem init_failure_paths (s : mbox) (ok : bool) (w0 w : backend)
    (r : mailbox_status) (q : secure_mailbox_queue_t) :
  tfm_rpc_register_ops (world s) = (ok, w0) ->
  tfm_mailbox_hal_init
    (set_empty_slots zero_queue
       (status_t (status_t (ulong (top_slot_bit - 1)) + status_t top_slot_bit)))
    w0 = (r, q, w) ->
  exists s',
    tfm_mailbox_init s
    = Done (if ok then (if is_success r then MAILBOX_SUCCESS else r)
            else MAILBOX_CALLBACK_REG_ERROR) s' [] /\
    world s' = (if ok then (if is_success r then w
                            else tfm_rpc_unregister_ops w)
                else w0) /\
    spe_mailbox_queue s'
    = (if ok then q
       else set_empty_slots zero_queue
              (status_t (status_t (ulong (top_slot_bit - 1))
                         + status_t top_slot_bit))) /\
    vectors s' = vectors s /\ nspe_status s' = nspe_status s /\
    nspe_slots s' = nspe_slots s.
Proof.
  intros Hreg Hhal.
  unfold tfm_mailbox_init, bind, modify_queue, call_backend, ret.
  cbn [spe_mailbox_queue set_queue_field world set_world empty_slots
       set_empty_slots zero_queue].
  rewrite Hreg. cbn [fst snd].
  destruct ok; cbn [negb].
  - match goal with
    | |- context [tfm_mailbox_hal_init ?q0 ?w1] =>
        replace (tfm_mailbox_hal_init q0 w1) with (r, q, w)
          by (rewrite <- Hhal; reflexivity)
    end.
    destruct (is_success r) eqn:Hr; cbn [negb].
    + destruct r; try discriminate.
      eexists. split; [reflexivity|]. repeat split.
    + eexists. split; [reflexivity|]. repeat split.
  - eexists. split; [reflexivity|]. repeat split.
Qed.

Lemma bind_Fault {A B} (m : M A) (f : A -> M B) (s : mbox) (e : fault) :
  m s = Fault e -> bind m f s = Fault e.
Proof. intros H. unfold bind. rewrite H. reflexivity. Qed.

Lemma reply_addr_panics (idx : nat) (s : mbox) (sl : secure_mailbox_slot_t) :
  (idx < NUM_MAILBOX_QUEUE_SLOT)%nat ->
  queue (spe_mailbox_queue s) !! idx = Some sl ->
  (NUM_MAILBOX_QUEUE_SLOT <= Z.to_nat (ns_slot_idx sl))%nat \/
  (ns_slot_count (spe_mailbox_queue s) <= Z.to_nat (ns_slot_idx sl))%nat ->
  get_nspe_reply_addr idx s = Fault PsaPanic.
Proof.
  intros Hidx Hsl Hbad. unfold get_nspe_reply_addr.
  destruct (Nat.leb_spec NUM_MAILBOX_QUEUE_SLOT idx); [lia|].
  rewrite (bind_Done _ _ _ _ _ _ (load_slot_eq idx s sl Hsl)).
  destruct (Nat.leb_spec NUM_MAILBOX_QUEUE_SLOT (Z.to_nat (ns_slot_idx sl)));
    [reflexivity|].
  rewrite (bind_Done _ _ s s s []) by reflexivity.
  destruct (Nat.leb_spec (ns_slot_count (spe_mailbox_queue s))
                         (Z.to_nat (ns_slot_idx sl))); [reflexivity | lia].
Qed.

(** X29.  The reply address of a slot is looked up with a panic for a guard:
    in a well-formed state, when the origin recorded in the queue slot is not
    below [NUM_MAILBOX_QUEUE_SLOT] or not below the count of non-secure
    slots, [get_nspe_reply_addr] panics, and so do [mailbox_direct_reply]
    and, for an occupied slot, [tfm_mailbox_reply_msg]: none of them
    returns. *)
Theorem reply_panics_on_stray_origin (count idx : nat) (result reply : Z)
    (s : mbox) (sl : secure_mailbox_slot_t) :
  wf count s -> index_fits -> (idx < NUM_MAILBOX_QUEUE_SLOT)%nat ->
  queue (spe_mailbox_queue s) !! idx = Some sl ->
  (NUM_MAILBOX_QUEUE_SLOT <= Z.to_nat (ns_slot_idx sl))%nat \/
  (count <= Z.to_nat (ns_slot_idx sl))%nat ->
  get_nspe_reply_addr idx s = Fault PsaPanic /\
  mailbox_direct_reply idx result s = Fault PsaPanic /\
  (get_spe_queue_empty_status idx (spe_mailbox_queue s) = false ->
   tfm_mailbox_reply_msg (Z.of_nat idx + 1) reply s = Fault PsaPanic).
Proof.
  intros Hwf Hfit Hidx Hsl Hbad.
  assert (Hbad' : (NUM_MAILBOX_QUEUE_SLOT <= Z.to_nat (ns_slot_idx sl))%nat \/
                  (ns_slot_count (spe_mailbox_queue s)
                   <= Z.to_nat (ns_slot_idx sl))%nat)
    by (rewrite (wf_count _ _ Hwf); exact Hbad).
  assert (Hdr : forall res, mailbox_direct_reply idx res s = Fault PsaPanic).
  { intros res. unfold mailbox_direct_reply.
    rewrite (bind_Done _ _ s s tt [DirectReply idx res]) by reflexivity.
    assert (Hlen : (idx < length (vectors s))%nat)
      by (rewrite (wf_vectors _ _ Hwf); exact Hidx).
    destruct (lookup_lt_is_Some_2 _ _ Hlen) as [v Hv].
    rewrite (bind_Done _ _ _ _ _ _ (load_vectors_eq idx s v Hv)).
    assert (Hm : exists s1,
              (if in_use v && (res =? uint32 PSA_SUCCESS)
               then
                 bind get (fun s0 =>
                   match copy_back_lens (out_vec v) (original_out_vec v) 0
                           (Z.to_nat (out_len v)) (ns_outvec_mem s0) with
                   | Some m => put (set_ns_outvec_mem s0 m)
                   | None => raise OutOfBounds
                   end)
               else ret tt) s = Done tt s1 [] /\
              queue (spe_mailbox_queue s1) = queue (spe_mailbox_queue s) /\
              ns_slot_count (spe_mailbox_queue s1)
              = ns_slot_count (spe_mailbox_queue s) /\
              length (vectors s1) = length (vectors s)).
    { destruct (in_use v) eqn:Huse; cbn [andb]; [|exists s; auto].
      destruct (res =? uint32 PSA_SUCCESS); [|exists s; auto].
      destruct (copy_back_lens_some (out_vec v) (original_out_vec v)
                  (Z.to_nat (out_len v)) 0 (ns_outvec_mem s)) as [m' Hm'].
      { exact (Forall_lookup_1 _ _ _ _ (wf_vec_ok _ _ Hwf) Hv Huse). }
      exists (set_ns_outvec_mem s m'). split; [|auto].
      unfold bind, get, put. rewrite Hm'. reflexivity. }
    destruct Hm as (s1 & E1 & Hq1 & Hc1 & Hl1).
    rewrite (bind_Done _ _ _ _ _ _ E1).
    assert (Hlen1 : (idx < length (vectors s1))%nat) by (rewrite Hl1; exact Hlen).
    rewrite (bind_Done _ _ _ _ _ _
               (store_vectors_eq idx (set_in_use v false) s1 Hlen1)).
    rewrite (bind_Fault _ _ _ PsaPanic).
    - reflexivity.
    - apply (reply_addr_panics idx _ sl Hidx).
      + cbn [set_vectors spe_mailbox_queue]. rewrite Hq1. exact Hsl.
      + cbn [set_vectors spe_mailbox_queue]. rewrite Hc1. exact Hbad'. }
  split; [exact (reply_addr_panics idx s sl Hidx Hsl Hbad')|].
  split; [apply Hdr|].
  intros Hocc. unfold tfm_mailbox_reply_msg.
  rewrite reply_msg_idx_eq.
  destruct (Z.eqb_spec (Z.of_nat idx + 1) MAILBOX_MSG_NULL_HANDLE) as [E0|_];
    [unfold MAILBOX_MSG_NULL_HANDLE in E0; lia|].
  replace (Z.to_nat (uint8 (Z.of_nat idx + 1 - 1))) with idx.
  2: { unfold index_fits in Hfit. unfold uint8, wrap.
       rewrite Z.mod_small by lia. lia. }
  rewrite (bind_Done _ _ s s s []) by reflexivity.
  rewrite Hocc. rewrite (bind_Fault _ _ _ PsaPanic (Hdr _)). reflexivity.
Qed.

(** A request [local_copy_vects] turns down. *)
Lemma stage_rejects_run (prm : psa_client_params_t) (idx : nat)
    (control : Z) (s : mbox) :
  0 <= cp_in_len prm -> 0 <= cp_out_len prm ->
  2 * Z.of_nat PSA_MAX_IOVEC < 2 ^ SIZE_BITS ->
  (cp_out_vec prm = NULL /\ cp_out_len prm <> 0) \/
  (cp_in_vec prm = NULL /\ cp_in_len prm <> 0) \/
  Z.of_nat PSA_MAX_IOVEC < cp_in_len prm + cp_out_len prm ->
  local_copy_vects prm idx control s
  = Done (MAILBOX_INVAL_PARAMS, control) s [].
Proof.
  intros Hin Hout Hmax Hbad. unfold local_copy_vects.
  destruct ((cp_out_vec prm =? NULL) && negb (cp_out_len prm =? 0)
            || (cp_in_vec prm =? NULL) && negb (cp_in_len prm =? 0))
    eqn:Enull; [reflexivity|].
  destruct ((Z.of_nat PSA_MAX_IOVEC <? cp_in_len prm)
            || (Z.of_nat PSA_MAX_IOVEC <? cp_out_len prm)
            || (Z.of_nat PSA_MAX_IOVEC
                <? size_t (cp_in_len prm + cp_out_len prm)))
    eqn:Elen; [reflexivity|].
  exfalso.
  assert (Hsum : size_t (cp_in_len prm + cp_out_len prm)
                 = cp_in_len prm + cp_out_len prm \/
                 Z.of_nat PSA_MAX_IOVEC < cp_in_len prm \/
                 Z.of_nat PSA_MAX_IOVEC < cp_out_len prm).
  { destruct (Z.le_gt_cases (cp_in_len prm) (Z.of_nat PSA_MAX_IOVEC));
      [|lia].
    destruct (Z.le_gt_cases (cp_out_len prm) (Z.of_nat PSA_MAX_IOVEC));
      [|lia].
    left. unfold size_t, wrap. apply Z.mod_small. lia. }
  destruct Hsum as [Hsum|Hsum]; [rewrite Hsum in Elen|]; lia.
Qed.

(** X30.  A call whose descriptors [local_copy_vects] turns down is not
    handed to the RPC layer: the dispatcher answers
    [PSA_ERROR_INVALID_ARGUMENT] at once, cleans the slot and adds its bit to
    [reply_slots], and the collaborators' state is as before. *)
Theorem dispatch_refuses_bad_vectors (count idx : nat) (m : mailbox_msg_t)
    (reply_slots : Z) (s : mbox) (sl : secure_mailbox_slot_t) :
  wf count s -> (idx < count)%nat ->
  queue (spe_mailbox_queue s) !! idx = Some sl ->
  ns_slot_idx sl = Z.of_nat idx ->
  tags_distinct ->
  call_type m = MAILBOX_PSA_CALL ->
  0 <= cp_in_len (params m) -> 0 <= cp_out_len (params m) ->
  2 * Z.of_nat PSA_MAX_IOVEC < 2 ^ SIZE_BITS ->
  (cp_out_vec (params m) = NULL /\ cp_out_len (params m) <> 0) \/
  (cp_in_vec (params m) = NULL /\ cp_in_len (params m) <> 0) \/
  Z.of_nat PSA_MAX_IOVEC < cp_in_len (params m) + cp_out_len (params m) ->
  exists s' x,
    tfm_mailbox_dispatch m idx reply_slots s
    = Done (MAILBOX_SUCCESS, status_t (Z.lor reply_slots (bit idx))) s'
           [Dispatch idx;
            DirectReply idx (uint32 PSA_ERROR_INVALID_ARGUMENT);
            CleanSlot idx] /\
    nspe_slots s !! idx = Some x /\
    nspe_slots s' !! idx
    = Some (set_return_val x (sint32 (uint32 PSA_ERROR_INVALID_ARGUMENT))) /\
    queue (spe_mailbox_queue s') !! idx = Some zero_slot /\
    world s' = world s.
Proof.
  intros Hwf Hidx Hsl Hk Htags Hct Hin Hout Hmax Hbad.
  destruct (tags_apart Htags)
    as (T1 & T2 & T3 & T4 & T5 & T6 & T7 & T8 & T9 & T10).
  assert (Hsw : dispatch_switch m idx
                  (PARAM_PACK (cp_type (params m)) (cp_in_len (params m))
                              (cp_out_len (params m)))
                  (negb CONFIG_TFM_SPM_BACKEND_IPC) s
                = Done (Some (true, PSA_ERROR_INVALID_ARGUMENT)) s []).
  { unfold dispatch_switch. rewrite Hct.
    destruct (Z.eqb_spec MAILBOX_PSA_CALL MAILBOX_PSA_FRAMEWORK_VERSION);
      [congruence|].
    destruct (Z.eqb_spec MAILBOX_PSA_CALL MAILBOX_PSA_VERSION);
      [congruence|].
    rewrite Z.eqb_refl.
    rewrite (bind_Done _ _ _ _ _ _
               (stage_rejects_run (params m) idx _ s Hin Hout Hmax Hbad)).
    reflexivity. }
  pose proof (dispatch_after_switch count idx m reply_slots s s sl true _
                Hsw Hwf Hidx Hsl Hk) as H.
  cbn beta iota in H.
  destruct H as (s' & x & E & Hwf' & Hx & En & Eq & _ & _ & _ & Ew & _).
  exists s', x. split; [exact E|].
  pose proof (lookup_lt_Some _ _ _ Hx) as Lx.
  pose proof (lookup_lt_Some _ _ _ Hsl) as Lq.
  split; [exact Hx|].
  split; [rewrite En; apply list_lookup_insert_eq; exact Lx|].
  split; [rewrite Eq; apply list_lookup_insert_eq; exact Lq|].
  exact Ew.
Qed.

End Props.

(** *** On the concrete platform *)

Import Demo.

(** Well-formedness of a state of the concrete platform, by evaluation. *)
Ltac demo_wf :=
  constructor;
  [ reflexivity | reflexivity | reflexivity
  | vm_compute; lia | vm_compute; lia
  | vm_compute; discriminate | vm_compute; discriminate
  | repeat constructor; intros Hu; vm_compute in Hu |- *;
    first [discriminate Hu | lia] ].

Lemma drain_dispatches_once_witness :
  pend_slots (nspe_status pending4) <> 0 /\
  exists s' t1 t2,
    tfm_mailbox_handle_msg pending4 =
    Done MAILBOX_SUCCESS s'
         (t1 ++ PendCleared (pend_slots (nspe_status pending4)) :: t2) /\
    (forall i, count (is_dispatch i) t1 =
               if (i <? ns_slot_count (spe_mailbox_queue pending4))%nat
                  && Z.testbit (pend_slots (nspe_status pending4)) (Z.of_nat i)
               then 1%nat else 0%nat) /\
    (forall i, count (is_dispatch i) t2 = 0%nat) /\
    count is_pend_cleared (t1 ++ t2) = 0%nat /\
    (forall i, Z.testbit (pend_slots (nspe_status pending4)) i = true ->
               Z.testbit (pend_slots (nspe_status s')) i = false).
Proof.
  split; [vm_compute; discriminate|].
  apply (drain_dispatches_once pending4).
  - demo_wf.
  - vm_compute. discriminate.
  - vm_compute. lia.
  - vm_compute. discriminate.
Defined.

Lemma drain_notifies_once_witness :
  exists s' t,
    tfm_mailbox_handle_msg pending4 = Done MAILBOX_SUCCESS s' t /\
    count is_notify t =
    if (count is_direct_reply t =? 0)%nat then 0%nat else 1%nat.
Proof.
  apply (drain_notifies_once pending4).
  - demo_wf.
  - vm_compute. discriminate.
  - vm_compute. lia.
  - vm_compute. discriminate.
Defined.

Lemma commit_reply_clears_witness :
  queue (spe_mailbox_queue committed) !! 1%nat = Some zero_slot /\
  get_spe_queue_empty_status 1 (spe_mailbox_queue committed) = true /\
  exists v', vectors committed !! 1%nat = Some v' /\ in_use v' = false.
Proof.
  apply (commit_reply_clears 1 0 drained committed
           [DirectReply 1 0; CleanSlot 1]).
  - vm_compute. discriminate.
  - vm_compute. lia.
  - vm_compute. reflexivity.
Defined.

Lemma stage_vectors_rejects_witness :
  local_copy_vects (params (call_msg 10 3 20 2)) 1 0 pending4
  = Done (MAILBOX_INVAL_PARAMS, 0) pending4 [].
Proof.
  apply (stage_vectors_rejects (params (call_msg 10 3 20 2)) 1 0 pending4).
  - vm_compute. discriminate.
  - vm_compute. discriminate.
  - vm_compute. reflexivity.
  - right. right. right. right. vm_compute. reflexivity.
Defined.

Lemma deliver_reply_rejects_empty_witness :
  get_spe_queue_empty_status 0 (spe_mailbox_queue drained) = true /\
  tfm_mailbox_reply_msg 1 0 drained = Done MAILBOX_NO_PEND_EVENT drained [].
Proof.
  split; [reflexivity|].
  apply (proj2 (deliver_reply_rejects_empty 1 0 drained)).
  reflexivity.
Defined.

Lemma init_seeds_empty_slots_witness :
  exists r s' t,
    tfm_mailbox_init drained = Done r s' t /\
    empty_slots (spe_mailbox_queue s') = (2 ^ 4 - 1) mod 2 ^ 32 /\
    (forall i, 0 <= i ->
       Z.testbit (empty_slots (spe_mailbox_queue s')) i
       = (i <? 4) && (i <? 32)) /\
    (4 <= 32 -> empty_slots (spe_mailbox_queue s') = 2 ^ 4 - 1).
Proof.
  apply (init_seeds_empty_slots drained).
  - vm_compute. lia.
  - vm_compute. discriminate.
  - vm_compute. discriminate.
  - intros q w. reflexivity.
Defined.

(** C1 fails as stated: with one non-secure slot and bit 1 pending, the pass
    succeeds, never dispatches, cleans or answers slot 1, and clears bit 1
    from the shared pending status. *)
Lemma drain_clears_undrained_bit :
  Z.testbit (pend_slots (nspe_status short)) 1 = true /\
  returned (tfm_mailbox_handle_msg short) = Some MAILBOX_SUCCESS /\
  count (is_dispatch 1) (trace (tfm_mailbox_handle_msg short)) = 0%nat /\
  count (is_clean 1) (trace (tfm_mailbox_handle_msg short)) = 0%nat /\
  count is_direct_reply (trace (tfm_mailbox_handle_msg short)) = 0%nat /\
  count is_pend_cleared (trace (tfm_mailbox_handle_msg short)) = 1%nat /\
  option_map (fun s => Z.testbit (pend_slots (nspe_status s)) 1)
             (final (tfm_mailbox_handle_msg short)) = Some false.
Proof. vm_compute. repeat split. Qed.

(** C2 fails as stated: 258 is not null and is not the index of a slot plus
    one, yet the reply is taken for slot 1 and delivered; 5 decodes to the
    index 4, which is no slot, and the call does not return at all. *)
Lemma deliver_reply_accepts_malformed :
  258 <> MAILBOX_MSG_NULL_HANDLE /\
  (forall i : nat, (i < NUM_MAILBOX_QUEUE_SLOT)%nat -> 258 <> Z.of_nat i + 1) /\
  returned (tfm_mailbox_reply_msg 258 0 drained) = Some MAILBOX_SUCCESS /\
  option_map (fun s => replied_slots (nspe_status s))
             (final (tfm_mailbox_reply_msg 258 0 drained)) = Some 11 /\
  replied_slots (nspe_status drained) = 9 /\
  returned (tfm_mailbox_reply_msg 5 0 drained) = None.
Proof.
  split; [discriminate|]. split.
  - intros i Hi. change NUM_MAILBOX_QUEUE_SLOT with 4%nat in Hi. lia.
  - vm_compute. repeat split.
Qed.

(** *** The further properties, on the concrete platforms *)

(** Well-formedness of a state that a run has produced, by evaluation. *)
Ltac demo_wf_run :=
  constructor;
  [ vm_compute; reflexivity | vm_compute; reflexivity | vm_compute; reflexivity
  | vm_compute; lia | vm_compute; lia
  | vm_compute; discriminate | vm_compute; discriminate
  | vm_compute; repeat constructor; intros Hu; vm_compute in Hu |- *;
    first [discriminate Hu | lia] ].

(** A run that returns is determined by its result and its calls. *)
Lemma run_eq {A} (o : outcome A) (r : A) (s : mbox) (t : list event) :
  returned o = Some r -> trace o = t -> o = Done r (after o s) t.
Proof.
  destruct o as [a s1 t1|f]; simpl; intros Hr Ht; [|discriminate].
  injection Hr as ->. subst t. reflexivity.
Qed.

(** The five call types of the concrete platforms are distinct. *)
Ltac demo_tags :=
  unfold tags_distinct;
  match goal with |- NoDup ?l => refine (bool_decide_unpack (NoDup l) _) end;
  vm_compute; exact I.

Lemma handle_round_trip_witness :
  get_spe_mailbox_msg_handle 2 true
  = (MAILBOX_SUCCESS, Some (Z.of_nat 2 + 1)) /\
  Z.of_nat 2 + 1 <> MAILBOX_MSG_NULL_HANDLE /\
  get_spe_mailbox_msg_idx (Z.of_nat 2 + 1) true
  = (MAILBOX_SUCCESS, Some 2%nat) /\
  reply_msg_idx (Z.of_nat 2 + 1) = inr 2%nat.
Proof. apply (handle_round_trip 2); vm_compute; lia. Defined.

Lemma empty_status_bits_witness :
  ((1 < NUM_MAILBOX_QUEUE_SLOT)%nat ->
   get_spe_queue_empty_status 2
     (set_spe_queue_empty_status 1 (spe_mailbox_queue drained))
   = (if (1 =? 2)%nat then true
      else get_spe_queue_empty_status 2 (spe_mailbox_queue drained)) /\
   get_spe_queue_empty_status 2
     (clear_spe_queue_empty_status 1 (spe_mailbox_queue drained))
   = (if (1 =? 2)%nat then false
      else get_spe_queue_empty_status 2 (spe_mailbox_queue drained))) /\
  ((NUM_MAILBOX_QUEUE_SLOT <= 1)%nat ->
   set_spe_queue_empty_status 1 (spe_mailbox_queue drained)
   = spe_mailbox_queue drained /\
   clear_spe_queue_empty_status 1 (spe_mailbox_queue drained)
   = spe_mailbox_queue drained /\
   get_spe_queue_empty_status 1 (spe_mailbox_queue drained) = false).
Proof.
  apply (empty_status_bits 1 2 (spe_mailbox_queue drained)).
  - vm_compute. discriminate.
  - vm_compute. lia.
Defined.


Lemma drain_cleans_rejected_witness :
  exists s',
    handle_msg_slot 1 0 0 stray4
    = Done 0 s' [Dispatch 0; CleanSlot 0] /\
    queue (spe_mailbox_queue s') !! 0%nat = Some zero_slot /\
    get_spe_queue_empty_status 0 (spe_mailbox_queue s') = true /\
    nspe_slots s' = nspe_slots stray4 /\
    nspe_status s' = nspe_status stray4 /\
    vectors s' = vectors stray4 /\ world s' = world stray4.
Proof.
  apply (drain_cleans_rejected 4 0 1 0 stray4 (mk_ns_slot stray_msg 0)).
  - demo_wf.
  - vm_compute. lia.
  - vm_compute. discriminate.
  - vm_compute. reflexivity.
  - reflexivity.
  - vm_compute. reflexivity.
Defined.

Lemma dispatch_answers_version_queries_witness :
  exists s' x,
    tfm_mailbox_dispatch version_msg 0 0 pending4
    = Done (MAILBOX_SUCCESS, status_t (Z.lor 0 (bit 0))) s'
           [Dispatch 0; DirectReply 0 (uint32 257); CleanSlot 0] /\
    nspe_slots pending4 !! 0%nat = Some x /\
    nspe_slots s' !! 0%nat = Some (set_return_val x (sint32 (uint32 257))) /\
    queue (spe_mailbox_queue s') !! 0%nat = Some zero_slot /\
    world s' = 1%nat.
Proof.
  apply (dispatch_answers_version_queries 4 0 version_msg 0 pending4 zero_slot).
  - demo_wf.
  - vm_compute. lia.
  - reflexivity.
  - reflexivity.
  - left. split; reflexivity.
Defined.

Lemma dispatch_unresolved_identity_witness :
  exists s' x,
    tfm_mailbox_dispatch foreign_call_msg 0 0 pending4
    = Done (MAILBOX_SUCCESS, status_t (Z.lor 0 (bit 0))) s'
           [Dispatch 0;
            DirectReply 0 (uint32 PSA_ERROR_INVALID_ARGUMENT);
            CleanSlot 0] /\
    nspe_slots pending4 !! 0%nat = Some x /\
    nspe_slots s' !! 0%nat
    = Some (set_return_val x (sint32 (uint32 PSA_ERROR_INVALID_ARGUMENT))) /\
    queue (spe_mailbox_queue s') !! 0%nat = Some zero_slot /\
    world s' = world pending4.
Proof.
  apply (dispatch_unresolved_identity 4 0 foreign_call_msg 0 pending4
           zero_slot).
  - demo_wf.
  - vm_compute. lia.
  - reflexivity.
  - reflexivity.
  - demo_tags.
  - reflexivity.
  - left. reflexivity.
Defined.

Lemma dispatch_forwards_connection_calls_witness :
  tfm_mailbox_dispatch connect_msg 0 0 pending4
  = Done (MAILBOX_SUCCESS, 0) (set_world pending4 1%nat) [Dispatch 0].
Proof.
  apply (proj1 (dispatch_forwards_connection_calls 4 0 connect_msg 0 pending4
                  zero_slot (-1) 0 1%nat
                  ltac:(demo_wf) ltac:(vm_compute; lia) eq_refl eq_refl
                  ltac:(demo_tags) eq_refl eq_refl
                  (or_introl (conj eq_refl eq_refl))));
    reflexivity.
Defined.

Lemma deliver_reply_commits_witness :
  exists s' x,
    tfm_mailbox_reply_msg 2 0 drained
    = Done MAILBOX_SUCCESS s'
           [DirectReply 1 (uint32 0); CleanSlot 1; EnterCritical;
            RepliedSet (status_t (bit 1)); ExitCritical; NotifyPeer] /\
    wf 4 s' /\
    nspe_slots drained !! 1%nat = Some x /\
    nspe_slots s' !! 1%nat = Some (set_return_val x (sint32 (uint32 0))) /\
    Z.testbit (replied_slots (nspe_status s')) (Z.of_nat 1) = true /\
    pend_slots (nspe_status s') = pend_slots (nspe_status drained) /\
    queue (spe_mailbox_queue s') !! 1%nat = Some zero_slot /\
    get_spe_queue_empty_status 1 (spe_mailbox_queue s') = true.
Proof.
  apply (deliver_reply_commits 4 1 2 0 drained
           (mk_slot 1 2 (call_msg 10 2 20 2))).
  - demo_wf_run.
  - vm_compute. discriminate.
  - reflexivity.
  - vm_compute. lia.
  - vm_compute. reflexivity.
  - reflexivity.
  - vm_compute. reflexivity.
Defined.

Lemma deliver_reply_once_witness :
  tfm_mailbox_reply_msg 2 5
    (after (tfm_mailbox_reply_msg 2 0 drained) drained)
  = Done MAILBOX_NO_PEND_EVENT
         (after (tfm_mailbox_reply_msg 2 0 drained) drained) [].
Proof.
  apply (deliver_reply_once 2 0 5 drained
           (after (tfm_mailbox_reply_msg 2 0 drained) drained)
           [DirectReply 1 (uint32 0); CleanSlot 1; EnterCritical;
            RepliedSet (status_t (bit 1)); ExitCritical; NotifyPeer]).
  - vm_compute. discriminate.
  - apply run_eq; vm_compute; reflexivity.
Defined.

Lemma drain_dispatches_in_order_witness :
  exists s' t,
    tfm_mailbox_handle_msg pending4 = Done MAILBOX_SUCCESS s' t /\
    dispatched t
    = pending_of (pend_slots (nspe_status pending4))
                 (seq 0 (ns_slot_count (spe_mailbox_queue pending4))) /\
    StronglySorted lt (dispatched t).
Proof.
  apply (drain_dispatches_in_order pending4).
  - demo_wf.
  - vm_compute. discriminate.
  - vm_compute. lia.
  - vm_compute. discriminate.
Defined.

Lemma drain_sets_replied_bits_witness :
  exists s' t,
    tfm_mailbox_handle_msg pending4 = Done MAILBOX_SUCCESS s' t /\
    forall i : nat, Z.of_nat i < STATUS_BITS ->
      Z.testbit (replied_slots (nspe_status s')) (Z.of_nat i)
      = Z.testbit (replied_slots (nspe_status pending4)) (Z.of_nat i)
        || (0 <? count (is_reply_of i) t)%nat.
Proof.
  apply (drain_sets_replied_bits pending4).
  - demo_wf.
  - vm_compute. discriminate.
  - vm_compute. lia.
  - vm_compute. discriminate.
Defined.

Lemma engine_keeps_well_formed_witness :
  (forall r s' t,
     tfm_mailbox_handle_msg pending4 = Done r s' t ->
     wf (ns_slot_count (spe_mailbox_queue pending4)) s') /\
  (forall handle reply r s' t,
     tfm_mailbox_reply_msg handle reply pending4 = Done r s' t ->
     wf (ns_slot_count (spe_mailbox_queue pending4)) s').
Proof.
  apply (engine_keeps_well_formed pending4).
  - demo_wf.
  - vm_compute. discriminate.
  - vm_compute. lia.
Defined.

Lemma reply_reaches_forwarded_slot_witness :
  exists s'' x,
    mailbox_reply (Some 1%nat) 0
      (after (handle_msg_slot 15 1 0 pending4) pending4)
    = Done tt s''
           [DirectReply 1 (uint32 0); CleanSlot 1; EnterCritical;
            RepliedSet (status_t (bit 1)); ExitCritical; NotifyPeer] /\
    nspe_slots (after (handle_msg_slot 15 1 0 pending4) pending4) !! 1%nat
    = Some x /\
    nspe_slots s'' !! 1%nat = Some (set_return_val x (sint32 (uint32 0))) /\
    Z.testbit (replied_slots (nspe_status s'')) (Z.of_nat 1) = true /\
    get_spe_queue_empty_status 1 (spe_mailbox_queue s'') = true.
Proof.
  apply (reply_reaches_forwarded_slot 4 1 15 0 0 0 pending4
           (after (handle_msg_slot 15 1 0 pending4) pending4)).
  - demo_wf.
  - vm_compute. discriminate.
  - vm_compute. lia.
  - vm_compute. lia.
  - vm_compute. reflexivity.
  - apply run_eq; vm_compute; reflexivity.
Defined.

Lemma init_failure_paths_witness :
  exists s',
    tfm_mailbox_init drained = Done MAILBOX_SUCCESS s' [] /\
    world s' = 6%nat /\
    spe_mailbox_queue s' = mk_queue 15 (replicate 4 zero_slot) 4096 8192 4 /\
    vectors s' = vectors drained /\ nspe_status s' = nspe_status drained /\
    nspe_slots s' = nspe_slots drained.
Proof.
  apply (init_failure_paths drained true 5%nat 6%nat MAILBOX_SUCCESS
           (mk_queue 15 (replicate 4 zero_slot) 4096 8192 4)).
  - vm_compute. reflexivity.
  - vm_compute. reflexivity.
Defined.

Lemma reply_panics_on_stray_origin_witness :
  get_nspe_reply_addr 0 strayed = Fault PsaPanic /\
  mailbox_direct_reply 0 0 strayed = Fault PsaPanic /\
  (get_spe_queue_empty_status 0 (spe_mailbox_queue strayed) = false ->
   tfm_mailbox_reply_msg (Z.of_nat 0 + 1) 0 strayed = Fault PsaPanic).
Proof.
  apply (reply_panics_on_stray_origin 4 0 0 0 strayed
           (mk_slot 7 1 version_msg)).
  - demo_wf.
  - vm_compute. lia.
  - vm_compute. lia.
  - reflexivity.
  - left. vm_compute. lia.
Defined.

Lemma dispatch_refuses_bad_vectors_witness :
  exists s' x,
    tfm_mailbox_dispatch (call_msg 10 3 20 2) 0 0 pending4
    = Done (MAILBOX_SUCCESS, status_t (Z.lor 0 (bit 0))) s'
           [Dispatch 0;
            DirectReply 0 (uint32 PSA_ERROR_INVALID_ARGUMENT);
            CleanSlot 0] /\
    nspe_slots pending4 !! 0%nat = Some x /\
    nspe_slots s' !! 0%nat
    = Some (set_return_val x (sint32 (uint32 PSA_ERROR_INVALID_ARGUMENT))) /\
    queue (spe_mailbox_queue s') !! 0%nat = Some zero_slot /\
    world s' = world pending4.
Proof.
  apply (dispatch_refuses_bad_vectors 4 0 (call_msg 10 3 20 2) 0 pending4
           zero_slot).
  - demo_wf.
  - vm_compute. lia.
  - reflexivity.
  - reflexivity.
  - demo_tags.
  - reflexivity.
  - vm_compute. discriminate.
  - vm_compute. discriminate.
  - vm_compute. reflexivity.
  - right. right. vm_compute. reflexivity.
Defined.

End MailboxProps.

(* ===================================================================== *)
(** ** Properties of staging and write-back over one memory *)
(* ===================================================================== *)

Module WordsProps.
Import Mailbox MailboxProps Words.

Section Props.
Context `{PS : PsaStatus} `{P : Platform} `{L : Layout}.

Lemma poke_eq (m : ram) (a v : Z) : poke m a v a = v.
Proof. unfold poke. rewrite Z.eqb_refl. reflexivity. Qed.

Lemma poke_ne (m : ram) (a v x : Z) : x <> a -> poke m a v x = m x.
Proof.
  intros H. unfold poke. destruct (Z.eqb_spec x a); [contradiction|reflexivity].
Qed.

Lemma apart_inside (idx : nat) (a b : Z) :
  apart idx a -> inside idx b -> b <> a.
Proof. unfold apart, inside. lia. Qed.

(** The addresses of the fields of [vectors[idx]] lie in the entry. *)
Lemma inside_fields (idx : nat) :
  inside idx (original_out_vec_at idx) /\ inside idx (out_len_at idx) /\
  inside idx (in_use_at idx) /\
  forall i : nat, (i < PSA_MAX_IOVEC)%nat ->
    inside idx (in_vec_at idx i) /\ inside idx (in_vec_at idx i + 1) /\
    inside idx (out_vec_at idx i) /\ inside idx (out_vec_at idx i + 1).
Proof.
  unfold inside, original_out_vec_at, out_len_at, in_use_at, in_vec_at,
    out_vec_at, stride.
  repeat split; lia.
Qed.

(** *** The write-back loop *)




(** *** Staging *)

Lemma copy_vec_spec (idx : nat) (dst src len : Z) :
  forall (n i : nat) (m : ram),
    (forall j : nat, (i <= j < i + n)%nat ->
       inside idx (dst + 2 * Z.of_nat j) /\
       inside idx (dst + 2 * Z.of_nat j + 1)) ->
    (forall a,
       (forall j : nat, (i <= j < i + n)%nat ->
          a <> dst + 2 * Z.of_nat j /\ a <> dst + 2 * Z.of_nat j + 1) ->
       copy_vec m dst src len i n a = m a) /\
    ((forall j : nat, Z.of_nat j < len ->
        apart idx (src + 2 * Z.of_nat j) /\
        apart idx (src + 2 * Z.of_nat j + 1)) ->
     forall j : nat, (i <= j < i + n)%nat ->
       copy_vec m dst src len i n (dst + 2 * Z.of_nat j)
       = (if Z.of_nat j <? len then m (src + 2 * Z.of_nat j) else 0) /\
       copy_vec m dst src len i n (dst + 2 * Z.of_nat j + 1)
       = (if Z.of_nat j <? len then m (src + 2 * Z.of_nat j + 1) else 0)).
Proof.
  induction n as [|n IH]; intros i m Hdst.
  - split; [reflexivity | intros; lia].
  - cbn [copy_vec].
    set (m1 := if Z.of_nat i <? len
               then poke (poke m (dst + 2 * Z.of_nat i)
                               (m (src + 2 * Z.of_nat i)))
                         (dst + 2 * Z.of_nat i + 1)
                         (m (src + 2 * Z.of_nat i + 1))
               else poke (poke m (dst + 2 * Z.of_nat i) 0)
                         (dst + 2 * Z.of_nat i + 1) 0).
    assert (F1 : forall a, a <> dst + 2 * Z.of_nat i ->
                           a <> dst + 2 * Z.of_nat i + 1 -> m1 a = m a).
    { intros a H1 H2. subst m1.
      destruct (Z.of_nat i <? len); rewrite !poke_ne by assumption;
        reflexivity. }
    destruct (IH (S i) m1) as [Hfr Hval].
    { intros j Hj. apply Hdst. lia. }
    split.
    + intros a Ha. rewrite Hfr by (intros j Hj; apply Ha; lia).
      apply F1; apply (Ha i); lia.
    + intros Hsrc j Hj.
      assert (Hm1 : forall k : nat, Z.of_nat k < len ->
                m1 (src + 2 * Z.of_nat k) = m (src + 2 * Z.of_nat k) /\
                m1 (src + 2 * Z.of_nat k + 1) = m (src + 2 * Z.of_nat k + 1)).
      { intros k Hk. destruct (Hsrc k Hk) as [A1 A2].
        destruct (Hdst i ltac:(lia)) as [D1 D2].
        split; apply F1;
          first [ exact (not_eq_sym (apart_inside idx _ _ A1 D1))
                | exact (not_eq_sym (apart_inside idx _ _ A1 D2))
                | exact (not_eq_sym (apart_inside idx _ _ A2 D1))
                | exact (not_eq_sym (apart_inside idx _ _ A2 D2)) ]. }
      destruct (Nat.eq_dec j i) as [->|Hne].
      * rewrite !Hfr by (intros j' Hj'; lia). subst m1.
        destruct (Z.of_nat i <? len).
        -- split; [rewrite poke_ne by lia; apply poke_eq | apply poke_eq].
        -- split; [rewrite poke_ne by lia; apply poke_eq | apply poke_eq].
      * destruct (Hval Hsrc j ltac:(lia)) as [V1 V2]. rewrite V1, V2.
        destruct (Z.ltb_spec (Z.of_nat j) len) as [Hl|Hl]; [|split; reflexivity].
        destruct (Hm1 j Hl) as [-> ->]. split; reflexivity.
Qed.

(** What [staged_ram] holds. *)
Lemma staged_memory (prm : psa_client_params_t) (idx : nat) (m : ram) :
  (forall a, apart idx a -> staged_ram prm idx m a = m a) /\
  staged_ram prm idx m (out_len_at idx) = cp_out_len prm /\
  staged_ram prm idx m (original_out_vec_at idx) = cp_out_vec prm /\
  staged_ram prm idx m (in_use_at idx) = 1 /\
  ((forall j : nat, Z.of_nat j < cp_in_len prm ->
      apart idx (cp_in_vec prm + 2 * Z.of_nat j) /\
      apart idx (cp_in_vec prm + 2 * Z.of_nat j + 1)) ->
   forall i : nat, (i < PSA_MAX_IOVEC)%nat ->
     staged_ram prm idx m (in_vec_at idx i)
     = (if Z.of_nat i <? cp_in_len prm
        then m (cp_in_vec prm + 2 * Z.of_nat i) else 0) /\
     staged_ram prm idx m (in_vec_at idx i + 1)
     = (if Z.of_nat i <? cp_in_len prm
        then m (cp_in_vec prm + 2 * Z.of_nat i + 1) else 0)) /\
  ((forall j : nat, Z.of_nat j < cp_out_len prm ->
      apart idx (cp_out_vec prm + 2 * Z.of_nat j) /\
      apart idx (cp_out_vec prm + 2 * Z.of_nat j + 1)) ->
   forall i : nat, (i < PSA_MAX_IOVEC)%nat ->
     staged_ram prm idx m (out_vec_at idx i)
     = (if Z.of_nat i <? cp_out_len prm
        then m (cp_out_vec prm + 2 * Z.of_nat i) else 0) /\
     staged_ram prm idx m (out_vec_at idx i + 1)
     = (if Z.of_nat i <? cp_out_len prm
        then m (cp_out_vec prm + 2 * Z.of_nat i + 1) else 0)).
Proof.
  unfold staged_ram.
  destruct (inside_fields idx) as (Io & Il & Iu & Iv).
  set (m1 := copy_vec m (in_vec_at idx 0) (cp_in_vec prm) (cp_in_len prm)
                      0 PSA_MAX_IOVEC).
  set (m2 := copy_vec m1 (out_vec_at idx 0) (cp_out_vec prm) (cp_out_len prm)
                      0 PSA_MAX_IOVEC).
  assert (Ein : forall j : nat,
            in_vec_at idx 0 + 2 * Z.of_nat j = in_vec_at idx j)
    by (intros j; unfold in_vec_at; lia).
  assert (Eout : forall j : nat,
            out_vec_at idx 0 + 2 * Z.of_nat j = out_vec_at idx j)
    by (intros j; unfold out_vec_at; lia).
  destruct (copy_vec_spec idx (in_vec_at idx 0) (cp_in_vec prm)
              (cp_in_len prm) PSA_MAX_IOVEC 0 m) as [F1 V1].
  { intros j Hj. rewrite Ein. destruct (Iv j ltac:(lia)) as (A & B & _).
    split; assumption. }
  destruct (copy_vec_spec idx (out_vec_at idx 0) (cp_out_vec prm)
              (cp_out_len prm) PSA_MAX_IOVEC 0 m1) as [F2 V2].
  { intros j Hj. rewrite Eout. destruct (Iv j ltac:(lia)) as (_ & _ & A & B).
    split; assumption. }
  fold m1 in F1, V1. fold m2 in F2, V2.
  assert (Hm1 : forall a, apart idx a -> m1 a = m a).
  { intros a Ha. apply F1. intros j Hj. rewrite Ein.
    destruct (Iv j ltac:(lia)) as (A & B & _).
    split; apply not_eq_sym; eapply apart_inside; eassumption. }
  assert (Hm2 : forall a, apart idx a -> m2 a = m1 a).
  { intros a Ha. apply F2. intros j Hj. rewrite Eout.
    destruct (Iv j ltac:(lia)) as (_ & _ & A & B).
    split; apply not_eq_sym; eapply apart_inside; eassumption. }
  assert (Hne : original_out_vec_at idx <> out_len_at idx /\
                in_use_at idx <> out_len_at idx /\
                in_use_at idx <> original_out_vec_at idx)
    by (unfold original_out_vec_at, out_len_at, in_use_at; lia).
  destruct Hne as (N1 & N2 & N3).
  split.
  { intros a Ha.
    rewrite !poke_ne
      by (apply not_eq_sym; eapply apart_inside; eassumption).
    rewrite Hm2, Hm1 by exact Ha. reflexivity. }
  split.
  { rewrite poke_ne, poke_ne by auto. apply poke_eq. }
  split.
  { rewrite poke_ne by auto. apply poke_eq. }
  split; [apply poke_eq|].
  assert (Hfield : forall a,
            a <> out_len_at idx -> a <> original_out_vec_at idx ->
            a <> in_use_at idx ->
            poke (poke (poke m2 (out_len_at idx) (cp_out_len prm))
                       (original_out_vec_at idx) (cp_out_vec prm))
                 (in_use_at idx) 1 a = m2 a)
    by (intros a A1 A2 A3; rewrite !poke_ne by assumption; reflexivity).
  split.
  - intros Hsrc i Hi'.
    assert (Hd : in_vec_at idx i <> out_len_at idx /\
                 in_vec_at idx i <> original_out_vec_at idx /\
                 in_vec_at idx i <> in_use_at idx /\
                 in_vec_at idx i + 1 <> out_len_at idx /\
                 in_vec_at idx i + 1 <> original_out_vec_at idx /\
                 in_vec_at idx i + 1 <> in_use_at idx)
      by (unfold in_vec_at, original_out_vec_at, out_len_at, in_use_at; lia).
    destruct Hd as (D1 & D2 & D3 & D4 & D5 & D6).
    rewrite !Hfield by assumption.
    assert (Hk : forall a, a = in_vec_at idx i \/ a = in_vec_at idx i + 1 ->
                           m2 a = m1 a).
    { intros a Ha. apply F2. intros j Hj. rewrite Eout.
      unfold in_vec_at, out_vec_at in *. lia. }
    rewrite !Hk by auto.
    destruct (V1 Hsrc i ltac:(lia)) as [A B].
    rewrite Ein in A, B. split; assumption.
  - intros Hsrc i Hi'.
    assert (Hd : out_vec_at idx i <> out_len_at idx /\
                 out_vec_at idx i <> original_out_vec_at idx /\
                 out_vec_at idx i <> in_use_at idx /\
                 out_vec_at idx i + 1 <> out_len_at idx /\
                 out_vec_at idx i + 1 <> original_out_vec_at idx /\
                 out_vec_at idx i + 1 <> in_use_at idx)
      by (unfold out_vec_at, original_out_vec_at, out_len_at, in_use_at; lia).
    destruct Hd as (D1 & D2 & D3 & D4 & D5 & D6).
    rewrite !Hfield by assumption.
    destruct (V2 Hsrc i ltac:(lia)) as [A B].
    rewrite Eout in A, B. rewrite A, B.
    destruct (Z.ltb_spec (Z.of_nat i) (cp_out_len prm)) as [Hl|Hl];
      [|split; reflexivity].
    destruct (Hsrc i Hl) as [S1 S2].
    rewrite !Hm1 by assumption. split; reflexivity.
Qed.


(** X3.  [local_copy_vects] on a request that passes its checks returns
    [MAILBOX_SUCCESS] with both non-secure flags added to [control] and
    writes the entry [vectors[idx]] only.  When the caller's two arrays lie
    apart from that entry, each staged descriptor is the caller's below the
    declared length and zero from there on; and in any case the entry
    records the caller's output array and its length and is in use. *)
Theorem stage_vectors_fills (prm : psa_client_params_t) (idx : nat)
    (control : Z) (m : ram) :
  (idx < NUM_MAILBOX_QUEUE_SLOT)%nat ->
  0 <= cp_in_len prm -> 0 <= cp_out_len prm ->
  Z.of_nat PSA_MAX_IOVEC < 2 ^ SIZE_BITS ->
  (cp_out_vec prm <> NULL \/ cp_out_len prm = 0) ->
  (cp_in_vec prm <> NULL \/ cp_in_len prm = 0) ->
  cp_in_len prm + cp_out_len prm <= Z.of_nat PSA_MAX_IOVEC ->
  exists m',
    local_copy_vects prm idx control m
    = Some (MAILBOX_SUCCESS,
            PARAM_SET_NS_OUTVEC (PARAM_SET_NS_INVEC control), m') /\
    (forall a, apart idx a -> m' a = m a) /\
    m' (out_len_at idx) = cp_out_len prm /\
    m' (original_out_vec_at idx) = cp_out_vec prm /\
    m' (in_use_at idx) = 1 /\
    ((forall j : nat, Z.of_nat j < cp_in_len prm ->
        apart idx (cp_in_vec prm + 2 * Z.of_nat j) /\
        apart idx (cp_in_vec prm + 2 * Z.of_nat j + 1)) ->
     forall i : nat, (i < PSA_MAX_IOVEC)%nat ->
       m' (in_vec_at idx i)
       = (if Z.of_nat i <? cp_in_len prm
          then m (cp_in_vec prm + 2 * Z.of_nat i) else 0) /\
       m' (in_vec_at idx i + 1)
       = (if Z.of_nat i <? cp_in_len prm
          then m (cp_in_vec prm + 2 * Z.of_nat i + 1) else 0)) /\
    ((forall j : nat, Z.of_nat j < cp_out_len prm ->
        apart idx (cp_out_vec prm + 2 * Z.of_nat j) /\
        apart idx (cp_out_vec prm + 2 * Z.of_nat j + 1)) ->
     forall i : nat, (i < PSA_MAX_IOVEC)%nat ->
       m' (out_vec_at idx i)
       = (if Z.of_nat i <? cp_out_len prm
          then m (cp_out_vec prm + 2 * Z.of_nat i) else 0) /\
       m' (out_vec_at idx i + 1)
       = (if Z.of_nat i <? cp_out_len prm
          then m (cp_out_vec prm + 2 * Z.of_nat i + 1) else 0)).
Proof.
  intros Hidx Hin Hout Hmax Ho Hi Hsum.
  destruct (stage_guards_pass prm Hin Hout Hmax Ho Hi Hsum) as [G1 G2].
  exists (staged_ram prm idx m). split; [|apply staged_memory].
  unfold local_copy_vects. rewrite G1, G2.
  destruct (Nat.leb_spec NUM_MAILBOX_QUEUE_SLOT idx); [lia | reflexivity].
Qed.


(** *** Staging, the callee, and the reply *)






End Props.
(** *** On the concrete platform *)

Import Demo DemoWords.




(** The caller's output array of [callers] lies apart from the entry of
    slot 1. *)
Lemma callers_apart (j : nat) :
  Z.of_nat j < cp_out_len (params (call_msg 10 2 20 2)) ->
  apart 1 (cp_out_vec (params (call_msg 10 2 20 2)) + 2 * Z.of_nat j) /\
  apart 1 (cp_out_vec (params (call_msg 10 2 20 2)) + 2 * Z.of_nat j + 1).
Proof.
  intros Hj.
  change (cp_out_len (params (call_msg 10 2 20 2))) with 2 in Hj.
  change (cp_out_vec (params (call_msg 10 2 20 2))) with 20.
  unfold apart. change (entry 1) with 5019. lia.
Qed.

(** The caller's input array of [callers] lies apart from the entry of
    slot 1. *)
Lemma callers_in_apart (j : nat) :
  Z.of_nat j < cp_in_len (params (call_msg 10 2 20 2)) ->
  apart 1 (cp_in_vec (params (call_msg 10 2 20 2)) + 2 * Z.of_nat j) /\
  apart 1 (cp_in_vec (params (call_msg 10 2 20 2)) + 2 * Z.of_nat j + 1).
Proof.
  intros Hj.
  change (cp_in_len (params (call_msg 10 2 20 2))) with 2 in Hj.
  change (cp_in_vec (params (call_msg 10 2 20 2))) with 10.
  unfold apart. change (entry 1) with 5019. lia.
Qed.

Lemma stage_vectors_fills_witness :
  exists m',
    local_copy_vects (params (call_msg 10 2 20 2)) 1 0 (ram_of callers)
    = Some (MAILBOX_SUCCESS,
            PARAM_SET_NS_OUTVEC (PARAM_SET_NS_INVEC 0), m') /\
    (forall a, apart 1 a -> m' a = ram_of callers a) /\
    m' (out_len_at 1) = 2 /\
    m' (original_out_vec_at 1) = 20 /\
    m' (in_use_at 1) = 1 /\
    (forall i : nat, (i < PSA_MAX_IOVEC)%nat ->
       m' (in_vec_at 1 i)
       = (if Z.of_nat i <? 2
          then ram_of callers (10 + 2 * Z.of_nat i) else 0) /\
       m' (in_vec_at 1 i + 1)
       = (if Z.of_nat i <? 2
          then ram_of callers (10 + 2 * Z.of_nat i + 1) else 0)) /\
    (forall i : nat, (i < PSA_MAX_IOVEC)%nat ->
       m' (out_vec_at 1 i)
       = (if Z.of_nat i <? 2
          then ram_of callers (20 + 2 * Z.of_nat i) else 0) /\
       m' (out_vec_at 1 i + 1)
       = (if Z.of_nat i <? 2
          then ram_of callers (20 + 2 * Z.of_nat i + 1) else 0)).
Proof.
  assert (H1 : (1 < NUM_MAILBOX_QUEUE_SLOT)%nat) by (vm_compute; lia).
  assert (H2 : 0 <= cp_in_len (params (call_msg 10 2 20 2)))
    by (vm_compute; discriminate).
  assert (H3 : 0 <= cp_out_len (params (call_msg 10 2 20 2)))
    by (vm_compute; discriminate).
  assert (H4 : Z.of_nat PSA_MAX_IOVEC < 2 ^ SIZE_BITS)
    by (vm_compute; reflexivity).
  assert (H5 : cp_out_vec (params (call_msg 10 2 20 2)) <> NULL
               \/ cp_out_len (params (call_msg 10 2 20 2)) = 0)
    by (left; vm_compute; discriminate).
  assert (H6 : cp_in_vec (params (call_msg 10 2 20 2)) <> NULL
               \/ cp_in_len (params (call_msg 10 2 20 2)) = 0)
    by (left; vm_compute; discriminate).
  assert (H7 : cp_in_len (params (call_msg 10 2 20 2))
               + cp_out_len (params (call_msg 10 2 20 2))
               <= Z.of_nat PSA_MAX_IOVEC)
    by (vm_compute; discriminate).
  destruct (stage_vectors_fills (params (call_msg 10 2 20 2)) 1 0
              (ram_of callers) H1 H2 H3 H4 H5 H6 H7)
    as (m' & E & Hfr & Hl & Ho & Hu & Hin & Hout).
  exists m'.
  split; [exact E|]. split; [exact Hfr|]. split; [exact Hl|].
  split; [exact Ho|]. split; [exact Hu|].
  split; [exact (Hin callers_in_apart) | exact (Hout callers_apart)].
Defined.



End WordsProps.

(* ===================================================================== *)
(** ** Properties of the connection API *)
(* ===================================================================== *)

Module SpmProps.
Import Spm.

Section Props.
Context `{PS : PsaStatus} `{E : SpmEnv}.

Lemma update_conn_at (s : spm) (p : Z) (f : connection_t -> connection_t) :
  conns (update_conn s p f) p = f (conns s p).
Proof. unfold update_conn. simpl. rewrite Z.eqb_refl. reflexivity. Qed.

(** How [spm_psa_connect_client_id_associated] goes, by the outcome of its
    four checks and of the allocation. *)
Lemma connect_refused_unknown (sid version client_id : Z) (s : spm) :
  service_exists sid = false ->
  spm_psa_connect_client_id_associated sid version client_id s
  = (PSA_ERROR_CONNECTION_REFUSED, None, s).
Proof.
  unfold service_exists, spm_psa_connect_client_id_associated. intros H.
  apply negb_false_iff in H. rewrite H. reflexivity.
Qed.

Lemma connect_check_fails (sid version client_id : Z) (s : spm) :
  service_exists sid && service_stateful sid
  && caller_authorized sid client_id && version_supported sid version = false ->
  exists st,
    spm_psa_connect_client_id_associated sid version client_id s
    = (st, None, s).
Proof.
  unfold service_exists, service_stateful, caller_authorized,
    version_supported, spm_psa_connect_client_id_associated.
  intros H.
  destruct (tfm_spm_get_service_by_sid sid =? NULL); [eauto|].
  destruct (SERVICE_IS_STATELESS _); [eauto|].
  destruct (tfm_spm_check_authorization _ _ _ =? PSA_SUCCESS); [|eauto].
  destruct (tfm_spm_check_client_version _ _ =? PSA_SUCCESS); [|eauto].
  discriminate.
Qed.

Lemma connect_checks_pass (sid version client_id : Z) (s : spm) :
  service_exists sid = true -> service_stateful sid = true ->
  caller_authorized sid client_id = true ->
  version_supported sid version = true ->
  spm_psa_connect_client_id_associated sid version client_id s =
  let '(connection, s1) := spm_allocate_connection s in
  if connection =? NULL then (PSA_ERROR_CONNECTION_BUSY, None, s1)
  else
    (PSA_SUCCESS, Some connection,
     update_conn
       (update_conn s1 connection
          (fun c => spm_init_idle_connection
                      c (tfm_spm_get_service_by_sid sid) client_id))
       connection (set_msg_type PSA_IPC_CONNECT)).
Proof.
  unfold service_exists, service_stateful, caller_authorized,
    version_supported, spm_psa_connect_client_id_associated.
  intros H1 H2 H3 H4.
  apply negb_true_iff in H1, H2. rewrite H1, H2, H3, H4. reflexivity.
Qed.

(** C8.  A connect to a service id that does not exist returns
    [PSA_ERROR_CONNECTION_REFUSED] and leaves the pool as it was; when the
    four checks pass and the pool has no connection to give, connect returns
    [PSA_ERROR_CONNECTION_BUSY] and the pool is as the failed allocation left
    it, that is unchanged; whenever one of the four checks fails the state is
    unchanged and no connection is handed out, so that a connection handed
    out was allocated after all four had passed. *)
Theorem connect_allocates_after_checks (sid version client_id : Z) (s : spm) :
  (fst (spm_allocate_connection s) = NULL ->
   snd (spm_allocate_connection s) = s) ->
  (service_exists sid = false ->
   spm_psa_connect_client_id_associated sid version client_id s
   = (PSA_ERROR_CONNECTION_REFUSED, None, s)) /\
  (service_exists sid = true -> service_stateful sid = true ->
   caller_authorized sid client_id = true ->
   version_supported sid version = true ->
   fst (spm_allocate_connection s) = NULL ->
   spm_psa_connect_client_id_associated sid version client_id s
   = (PSA_ERROR_CONNECTION_BUSY, None, s)) /\
  (service_exists sid && service_stateful sid
   && caller_authorized sid client_id && version_supported sid version = false ->
   exists st,
     spm_psa_connect_client_id_associated sid version client_id s
     = (st, None, s)) /\
  (forall st p s',
     spm_psa_connect_client_id_associated sid version client_id s
     = (st, Some p, s') ->
     service_exists sid = true /\ service_stateful sid = true /\
     caller_authorized sid client_id = true /\
     version_supported sid version = true /\
     fst (spm_allocate_connection s) = p /\ p <> NULL).
Proof.
  intros Halloc. split; [|split; [|split]].
  - apply connect_refused_unknown.
  - intros H1 H2 H3 H4 Hnull.
    rewrite connect_checks_pass by assumption.
    specialize (Halloc Hnull).
    destruct (spm_allocate_connection s) as [c s1]. simpl in *.
    subst c s1. reflexivity.
  - apply connect_check_fails.
  - intros st p s' H.
    destruct (service_exists sid && service_stateful sid
              && caller_authorized sid client_id
              && version_supported sid version) eqn:Hc.
    + apply andb_prop in Hc as [Hc H4]. apply andb_prop in Hc as [Hc H3].
      apply andb_prop in Hc as [H1 H2].
      rewrite connect_checks_pass in H by assumption.
      destruct (spm_allocate_connection s) as [c s1]. simpl.
      destruct (Z.eqb_spec c NULL); [discriminate|].
      injection H as _ -> _. repeat split; assumption.
    + destruct (connect_check_fails sid version client_id s Hc) as [st' Hf].
      rewrite Hf in H. discriminate.
Qed.

(** C3, as the code has it.  When the checks pass and a connection is
    allocated, [tfm_spm_client_psa_connect] forwards it to the backend,
    returns the status of the forward, and sets the connection's status to
    ACTIVE whatever that status is. *)
Theorem connect_marks_active (sid version : Z) (s s1 s2 : spm) (p st : Z) :
  spm_psa_connect_client_id_associated
    sid version (tfm_spm_get_client_id tfm_spm_is_ns_caller) s
  = (PSA_SUCCESS, Some p, s1) ->
  backend_messaging p s1 = (st, s2) ->
  tfm_spm_client_psa_connect sid version s
  = (st, update_conn s2 p (set_status TFM_HANDLE_STATUS_ACTIVE)) /\
  status (conns (snd (tfm_spm_client_psa_connect sid version s)) p)
  = TFM_HANDLE_STATUS_ACTIVE.
Proof.
  intros Hc Hb.
  assert (Eq : tfm_spm_client_psa_connect sid version s
               = (st, update_conn s2 p (set_status TFM_HANDLE_STATUS_ACTIVE))).
  { unfold tfm_spm_client_psa_connect. rewrite Hc, Z.eqb_refl. simpl.
    rewrite Hb. reflexivity. }
  split; [exact Eq|]. rewrite Eq. simpl. rewrite Z.eqb_refl. reflexivity.
Qed.

(** C9.  A close with the null handle returns [PSA_SUCCESS] and changes
    nothing, for every client id, and so does any number of them in a row. *)
Theorem close_null_is_idempotent (ids : list Z) (s : spm) :
  close_each PSA_NULL_HANDLE ids s = (map (fun _ => PSA_SUCCESS) ids, s) /\
  tfm_spm_client_psa_close PSA_NULL_HANDLE s = (PSA_SUCCESS, s).
Proof.
  split.
  - induction ids as [|id ids IH]; simpl; [reflexivity|].
    unfold spm_psa_close_client_id_associated at 1.
    rewrite Z.eqb_refl, IH. reflexivity.
  - unfold tfm_spm_client_psa_close, spm_psa_close_client_id_associated.
    rewrite Z.eqb_refl. reflexivity.
Qed.

(** *** Further properties of the connection API *)

Lemma update_conn_other (s : spm) (p a : Z) (f : connection_t -> connection_t) :
  a <> p -> conns (update_conn s p f) a = conns s a.
Proof.
  intros H. unfold update_conn. simpl.
  destruct (Z.eqb_spec a p); [contradiction | reflexivity].
Qed.

(** The status of a connect that fails one of its four checks. *)
Lemma connect_failed_check_status (sid version client_id : Z) (s : spm) :
  service_exists sid && service_stateful sid
  && caller_authorized sid client_id && version_supported sid version = false ->
  spm_psa_connect_client_id_associated sid version client_id s
  = (if service_exists sid && negb (service_stateful sid)
     then PSA_ERROR_PROGRAMMER_ERROR else PSA_ERROR_CONNECTION_REFUSED,
     None, s).
Proof.
  unfold service_exists, service_stateful, caller_authorized,
    version_supported, spm_psa_connect_client_id_associated.
  intros H.
  destruct (tfm_spm_get_service_by_sid sid =? NULL); [reflexivity|].
  destruct (SERVICE_IS_STATELESS _); [reflexivity|].
  destruct (tfm_spm_check_authorization _ _ _ =? PSA_SUCCESS); [|reflexivity].
  destruct (tfm_spm_check_client_version _ _ =? PSA_SUCCESS); [|reflexivity].
  discriminate.
Qed.

(** X17.  A connect that fails one of its four checks returns
    [PSA_ERROR_PROGRAMMER_ERROR] exactly when the service exists and is
    stateless, whatever the authorisation and the version are, and
    [PSA_ERROR_CONNECTION_REFUSED] otherwise; the state is unchanged and no
    connection is handed out. *)
Theorem connect_failure_status (sid version client_id : Z) (s : spm) :
  service_exists sid && service_stateful sid
  && caller_authorized sid client_id && version_supported sid version = false ->
  exists st,
    spm_psa_connect_client_id_associated sid version client_id s
    = (st, None, s) /\
    (service_exists sid = true -> service_stateful sid = false ->
     st = PSA_ERROR_PROGRAMMER_ERROR) /\
    (service_exists sid = false \/ service_stateful sid = true ->
     st = PSA_ERROR_CONNECTION_REFUSED).
Proof.
  intros H. eexists. split; [apply connect_failed_check_status; exact H|].
  split.
  - intros -> ->. reflexivity.
  - intros [->| ->]; [reflexivity|].
    rewrite andb_false_r. reflexivity.
Qed.

(** X18.  A connect that hands out a connection returns [PSA_SUCCESS]; the
    connection is the one the allocator gave, it has been initialised by
    [spm_init_idle_connection] for the service and the caller and then given
    the message type [PSA_IPC_CONNECT]; the pool and every other connection
    are as the allocator left them. *)
Theorem connect_initialises_connection (sid version client_id : Z)
    (s s' : spm) (st p : Z) :
  spm_psa_connect_client_id_associated sid version client_id s
  = (st, Some p, s') ->
  st = PSA_SUCCESS /\
  p = fst (spm_allocate_connection s) /\
  pool_free s' = pool_free (snd (spm_allocate_connection s)) /\
  conns s' p
  = set_msg_type PSA_IPC_CONNECT
      (spm_init_idle_connection
         (conns (snd (spm_allocate_connection s)) p)
         (tfm_spm_get_service_by_sid sid) client_id) /\
  (forall a, a <> p ->
     conns s' a = conns (snd (spm_allocate_connection s)) a).
Proof.
  intros H.
  destruct (service_exists sid && service_stateful sid
            && caller_authorized sid client_id
            && version_supported sid version) eqn:Hc.
  - apply andb_prop in Hc as [Hc H4]. apply andb_prop in Hc as [Hc H3].
    apply andb_prop in Hc as [H1 H2].
    rewrite connect_checks_pass in H by assumption.
    destruct (spm_allocate_connection s) as [c s1]. cbn [fst snd].
    destruct (Z.eqb_spec c NULL); [discriminate|].
    injection H as <- <- <-.
    split; [reflexivity|]. split; [reflexivity|]. split; [reflexivity|].
    split.
    + rewrite update_conn_at, update_conn_at. reflexivity.
    + intros a Ha. rewrite !update_conn_other by exact Ha. reflexivity.
  - rewrite (connect_failed_check_status sid version client_id s Hc) in H.
    discriminate.
Qed.

(** X19.  [tfm_spm_client_psa_connect] hands a failure of the checks back to
    its caller: with the error statuses distinct from [PSA_SUCCESS], it
    returns the status of the failed check and the state is unchanged, the
    backend not having been given anything. *)
Theorem client_connect_returns_failure (sid version : Z) (s : spm) :
  PSA_ERROR_CONNECTION_REFUSED <> PSA_SUCCESS ->
  PSA_ERROR_PROGRAMMER_ERROR <> PSA_SUCCESS ->
  service_exists sid && service_stateful sid
  && caller_authorized sid (tfm_spm_get_client_id tfm_spm_is_ns_caller)
  && version_supported sid version = false ->
  tfm_spm_client_psa_connect sid version s
  = (if service_exists sid && negb (service_stateful sid)
     then PSA_ERROR_PROGRAMMER_ERROR else PSA_ERROR_CONNECTION_REFUSED, s).
Proof.
  intros Hr Hp Hc. unfold tfm_spm_client_psa_connect.
  rewrite (connect_failed_check_status _ _ _ s Hc).
  destruct (service_exists sid && negb (service_stateful sid)).
  - destruct (Z.eqb_spec PSA_ERROR_PROGRAMMER_ERROR PSA_SUCCESS);
      [contradiction | reflexivity].
  - destruct (Z.eqb_spec PSA_ERROR_CONNECTION_REFUSED PSA_SUCCESS);
      [contradiction | reflexivity].
Qed.

(** X20.  A close with a handle other than the null handle is refused without
    effect when the handle is static, with [PSA_ERROR_PROGRAMMER_ERROR], and
    when the lookup of the connection fails, with the status of the lookup;
    the state is unchanged in both cases. *)
Theorem close_refuses_without_effect (handle client_id : Z) (s : spm) :
  handle <> PSA_NULL_HANDLE ->
  (IS_STATIC_HANDLE handle = true ->
   spm_psa_close_client_id_associated handle client_id s
   = (PSA_ERROR_PROGRAMMER_ERROR, s)) /\
  (IS_STATIC_HANDLE handle = false ->
   fst (spm_get_idle_connection handle client_id s) <> PSA_SUCCESS ->
   spm_psa_close_client_id_associated handle client_id s
   = (fst (spm_get_idle_connection handle client_id s), s)).
Proof.
  intros Hn. unfold spm_psa_close_client_id_associated.
  destruct (Z.eqb_spec handle PSA_NULL_HANDLE); [contradiction|].
  split.
  - intros ->. reflexivity.
  - intros -> Hst.
    destruct (spm_get_idle_connection handle client_id s) as [st p].
    cbn [fst] in *.
    destruct (Z.eqb_spec st PSA_SUCCESS); [contradiction | reflexivity].
Qed.

(** X21.  A close that finds its connection sets the message type to
    [PSA_IPC_DISCONNECT] before the connection is handed to the backend,
    returns the status of the backend, and leaves the connection in the
    status TO_FREE whatever that status is; no other connection is written
    by the close itself. *)
Theorem close_marks_to_free (handle client_id : Z) (s s2 : spm) (p st : Z) :
  handle <> PSA_NULL_HANDLE -> IS_STATIC_HANDLE handle = false ->
  spm_get_idle_connection handle client_id s = (PSA_SUCCESS, p) ->
  backend_messaging p (update_conn s p (set_msg_type PSA_IPC_DISCONNECT))
  = (st, s2) ->
  msg_type (conns (update_conn s p (set_msg_type PSA_IPC_DISCONNECT)) p)
  = PSA_IPC_DISCONNECT /\
  (forall a, a <> p ->
     conns (update_conn s p (set_msg_type PSA_IPC_DISCONNECT)) a = conns s a) /\
  spm_psa_close_client_id_associated handle client_id s
  = (st, update_conn s2 p (set_status TFM_HANDLE_STATUS_TO_FREE)) /\
  status (conns (snd (spm_psa_close_client_id_associated handle client_id s)) p)
  = TFM_HANDLE_STATUS_TO_FREE /\
  (forall a, a <> p ->
     conns (snd (spm_psa_close_client_id_associated handle client_id s)) a
     = conns s2 a).
Proof.
  intros Hn Hs Hl Hb.
  assert (Eq : spm_psa_close_client_id_associated handle client_id s
               = (st, update_conn s2 p (set_status TFM_HANDLE_STATUS_TO_FREE))).
  { unfold spm_psa_close_client_id_associated.
    destruct (Z.eqb_spec handle PSA_NULL_HANDLE); [contradiction|].
    rewrite Hs, Hl, Z.eqb_refl. cbn [negb]. rewrite Hb. reflexivity. }
  split; [rewrite update_conn_at; reflexivity|].
  split; [intros a Ha; apply update_conn_other; exact Ha|].
  split; [exact Eq|]. rewrite Eq. cbn [snd]. split.
  - rewrite update_conn_at. reflexivity.
  - intros a Ha. apply update_conn_other. exact Ha.
Qed.

(** X22.  [tfm_spm_partition_psa_set_rhandle] returns exactly when the message
    handle stands for a connection whose service is not stateless, and panics
    otherwise; when it returns, the status is [PSA_SUCCESS], the rhandle of
    that connection is the one given, and the connection's other fields, the
    other connections and the pool are unchanged. *)
Theorem set_rhandle_returns_or_panics (to_conn : Z -> spm -> Z)
    (msg_handle rhandle : Z) (s : spm) :
  (tfm_spm_partition_psa_set_rhandle to_conn msg_handle rhandle s = None <->
   to_conn msg_handle s = NULL \/
   SERVICE_IS_STATELESS
     (service_flags (service (conns s (to_conn msg_handle s)))) = true) /\
  (forall st s',
     tfm_spm_partition_psa_set_rhandle to_conn msg_handle rhandle s
     = Some (st, s') ->
     st = PSA_SUCCESS /\
     msg_rhandle (conns s' (to_conn msg_handle s)) = rhandle /\
     status (conns s' (to_conn msg_handle s))
     = status (conns s (to_conn msg_handle s)) /\
     service (conns s' (to_conn msg_handle s))
     = service (conns s (to_conn msg_handle s)) /\
     msg_type (conns s' (to_conn msg_handle s))
     = msg_type (conns s (to_conn msg_handle s)) /\
     msg_client_id (conns s' (to_conn msg_handle s))
     = msg_client_id (conns s (to_conn msg_handle s)) /\
     pool_free s' = pool_free s /\
     (forall a, a <> to_conn msg_handle s -> conns s' a = conns s a)).
Proof.
  unfold tfm_spm_partition_psa_set_rhandle. split.
  - destruct (Z.eqb_spec (to_conn msg_handle s) NULL) as [Hh|Hh].
    + split; [intros _; left; exact Hh | reflexivity].
    + destruct (SERVICE_IS_STATELESS _) eqn:Hs.
      * split; [intros _; right; reflexivity | reflexivity].
      * split; [discriminate|]. intros [H|H]; [contradiction | discriminate].
  - intros st s' H.
    destruct (Z.eqb_spec (to_conn msg_handle s) NULL); [discriminate|].
    destruct (SERVICE_IS_STATELESS _); [discriminate|].
    injection H as <- <-.
    split; [reflexivity|].
    rewrite update_conn_at. cbn [set_rhandle msg_rhandle status service
                                 msg_type msg_client_id update_conn pool_free].
    repeat split.
    intros a Ha. apply update_conn_other. exact Ha.
Qed.

End Props.

(** *** On the concrete build *)

Import DemoSpm Demo.

Lemma connect_allocates_after_checks_witness :
  spm_psa_connect_client_id_associated 17 1 (-1) exhausted
  = (PSA_ERROR_CONNECTION_BUSY, None, exhausted).
Proof.
  apply (connect_allocates_after_checks 17 1 (-1) exhausted);
    intros; reflexivity.
Defined.

Lemma connect_marks_active_witness :
  tfm_spm_client_psa_connect 17 1 fresh
  = (0, update_conn
          (snd (backend_messaging 4000
                  (snd (spm_psa_connect_client_id_associated 17 1 (-1) fresh))))
          4000 (set_status TFM_HANDLE_STATUS_ACTIVE)) /\
  status (conns (snd (tfm_spm_client_psa_connect 17 1 fresh)) 4000)
  = TFM_HANDLE_STATUS_ACTIVE.
Proof.
  apply (connect_marks_active 17 1 fresh
           (snd (spm_psa_connect_client_id_associated 17 1 (-1) fresh))
           (snd (backend_messaging 4000
                   (snd (spm_psa_connect_client_id_associated 17 1 (-1) fresh))))
           4000 0).
  - reflexivity.
  - reflexivity.
Defined.

(** C3 fails as stated: the connect to service 19 passes the checks and is
    given connection 4000, the backend refuses the forward, and the
    connection is ACTIVE all the same. *)
Lemma connect_active_after_failed_forward :
  fst (fst (spm_psa_connect_client_id_associated 19 1 (-1) fresh)) = PSA_SUCCESS /\
  snd (fst (spm_psa_connect_client_id_associated 19 1 (-1) fresh)) = Some 4000 /\
  fst (backend_messaging 4000
         (snd (spm_psa_connect_client_id_associated 19 1 (-1) fresh)))
  = PSA_ERROR_GENERIC_ERROR /\
  PSA_ERROR_GENERIC_ERROR <> PSA_SUCCESS /\
  fst (tfm_spm_client_psa_connect 19 1 fresh) = PSA_ERROR_GENERIC_ERROR /\
  status (conns (snd (tfm_spm_client_psa_connect 19 1 fresh)) 4000)
  = TFM_HANDLE_STATUS_ACTIVE.
Proof. vm_compute. repeat split. discriminate. Qed.

(** *** The further properties, on the concrete build *)

Lemma connect_failure_status_witness :
  exists st,
    spm_psa_connect_client_id_associated 18 1 (-1) fresh
    = (st, None, fresh) /\
    (service_exists 18 = true -> service_stateful 18 = false ->
     st = PSA_ERROR_PROGRAMMER_ERROR) /\
    (service_exists 18 = false \/ service_stateful 18 = true ->
     st = PSA_ERROR_CONNECTION_REFUSED).
Proof.
  apply (connect_failure_status 18 1 (-1) fresh). reflexivity.
Defined.

Lemma connect_initialises_connection_witness :
  0 = PSA_SUCCESS /\
  4000 = fst (spm_allocate_connection fresh) /\
  pool_free (snd (spm_psa_connect_client_id_associated 17 1 (-1) fresh))
  = pool_free (snd (spm_allocate_connection fresh)) /\
  conns (snd (spm_psa_connect_client_id_associated 17 1 (-1) fresh)) 4000
  = set_msg_type PSA_IPC_CONNECT
      (spm_init_idle_connection
         (conns (snd (spm_allocate_connection fresh)) 4000)
         (tfm_spm_get_service_by_sid 17) (-1)) /\
  (forall a, a <> 4000 ->
     conns (snd (spm_psa_connect_client_id_associated 17 1 (-1) fresh)) a
     = conns (snd (spm_allocate_connection fresh)) a).
Proof.
  apply (connect_initialises_connection 17 1 (-1) fresh
           (snd (spm_psa_connect_client_id_associated 17 1 (-1) fresh))
           0 4000).
  reflexivity.
Defined.

Lemma client_connect_returns_failure_witness :
  tfm_spm_client_psa_connect 18 1 fresh
  = (if service_exists 18 && negb (service_stateful 18)
     then PSA_ERROR_PROGRAMMER_ERROR else PSA_ERROR_CONNECTION_REFUSED,
     fresh).
Proof.
  apply (client_connect_returns_failure 18 1 fresh).
  - vm_compute. discriminate.
  - vm_compute. discriminate.
  - reflexivity.
Defined.

Lemma close_refuses_without_effect_witness :
  spm_psa_close_client_id_associated (2 ^ 30) (-1) fresh
  = (PSA_ERROR_PROGRAMMER_ERROR, fresh).
Proof.
  refine (proj1 (close_refuses_without_effect (2 ^ 30) (-1) fresh _) _).
  - vm_compute. discriminate.
  - reflexivity.
Defined.

Lemma close_marks_to_free_witness :
  msg_type (conns (update_conn fresh 4000 (set_msg_type PSA_IPC_DISCONNECT))
                  4000)
  = PSA_IPC_DISCONNECT /\
  (forall a, a <> 4000 ->
     conns (update_conn fresh 4000 (set_msg_type PSA_IPC_DISCONNECT)) a
     = conns fresh a) /\
  spm_psa_close_client_id_associated 4000 0 fresh
  = (0, update_conn
          (update_conn fresh 4000 (set_msg_type PSA_IPC_DISCONNECT))
          4000 (set_status TFM_HANDLE_STATUS_TO_FREE)) /\
  status (conns (snd (spm_psa_close_client_id_associated 4000 0 fresh)) 4000)
  = TFM_HANDLE_STATUS_TO_FREE /\
  (forall a, a <> 4000 ->
     conns (snd (spm_psa_close_client_id_associated 4000 0 fresh)) a
     = conns (update_conn fresh 4000 (set_msg_type PSA_IPC_DISCONNECT)) a).
Proof.
  apply (close_marks_to_free 4000 0 fresh
           (update_conn fresh 4000 (set_msg_type PSA_IPC_DISCONNECT))
           4000 0).
  - vm_compute. discriminate.
  - reflexivity.
  - reflexivity.
  - reflexivity.
Defined.

End SpmProps.

(* ===================================================================== *)
(** ** Properties of the boot-data query *)
(* ===================================================================== *)

Module BootProps.
Import BootData.

Section Props.
Context `{PS : PsaStatus} `{B : BootEnv}.

Lemma policy_scan_spec (pid major : Z) (rows : list boot_data_access_policy) :
  (policy_scan pid major rows = 0 /\
   exists row, In row rows /\ partition_id row = pid /\ major_type row = major) \/
  (policy_scan pid major rows = -1 /\
   forall row, In row rows ->
     ~ (partition_id row = pid /\ major_type row = major)).
Proof.
  induction rows as [|row rest IH]; simpl.
  - right. split; [reflexivity|]. intros row [].
  - destruct (Z.eqb_spec pid (partition_id row)) as [Hp|Hp].
    + destruct (Z.eqb_spec major (major_type row)) as [Hm|Hm].
      * left. split; [reflexivity|]. exists row. auto.
      * destruct IH as [[E (r & Hin & Hr)]|[E Hno]].
        -- left. split; [exact E|]. exists r. auto.
        -- right. split; [exact E|]. intros r [<-|Hin]; [|auto].
           intros [_ Hx]. congruence.
    + destruct IH as [[E (r & Hin & Hr)]|[E Hno]].
      * left. split; [exact E|]. exists r. auto.
      * right. split; [exact E|]. intros r [<-|Hin]; [|auto].
        intros [Hx _]. congruence.
Qed.

(** X23.  The access check answers 0 or -1, and 0 exactly when a row that the
    build has selected pairs the running partition with the major type asked
    for: initial attestation with IAS, firmware update with FWU, measured
    boot with MBS, DPE with MBS.  The reserved first row is never consulted,
    so the pair it holds is granted only if a selected row holds it too. *)
Theorem policy_grants_selected_rows (major : Z) (st : boot_state) :
  (tfm_core_check_boot_data_access_policy major st = 0 \/
   tfm_core_check_boot_data_access_policy major st = -1) /\
  (tfm_core_check_boot_data_access_policy major st = 0 <->
   (TFM_PARTITION_INITIAL_ATTESTATION = true /\
    running_partition_id st = TFM_SP_INITIAL_ATTESTATION /\
    major = TLV_MAJOR_IAS) \/
   (TFM_PARTITION_FIRMWARE_UPDATE = true /\
    running_partition_id st = TFM_SP_FWU /\ major = TLV_MAJOR_FWU) \/
   (TFM_PARTITION_MEASURED_BOOT = true /\
    running_partition_id st = TFM_SP_MEASURED_BOOT /\ major = TLV_MAJOR_MBS) \/
   (TFM_PARTITION_DPE = true /\
    running_partition_id st = TFM_SP_DPE /\ major = TLV_MAJOR_MBS)).
Proof.
  unfold tfm_core_check_boot_data_access_policy.
  change (drop 1 access_policy_table)
    with ((if TFM_PARTITION_INITIAL_ATTESTATION
           then [mk_policy TFM_SP_INITIAL_ATTESTATION TLV_MAJOR_IAS] else [])
          ++ (if TFM_PARTITION_FIRMWARE_UPDATE
              then [mk_policy TFM_SP_FWU TLV_MAJOR_FWU] else [])
          ++ (if TFM_PARTITION_MEASURED_BOOT
              then [mk_policy TFM_SP_MEASURED_BOOT TLV_MAJOR_MBS] else [])
          ++ (if TFM_PARTITION_DPE
              then [mk_policy TFM_SP_DPE TLV_MAJOR_MBS] else [])).
  match goal with |- context [policy_scan _ _ ?l] => set (rows := l) end.
  assert (Hrows : forall row, In row rows <->
            (TFM_PARTITION_INITIAL_ATTESTATION = true /\
             row = mk_policy TFM_SP_INITIAL_ATTESTATION TLV_MAJOR_IAS) \/
            (TFM_PARTITION_FIRMWARE_UPDATE = true /\
             row = mk_policy TFM_SP_FWU TLV_MAJOR_FWU) \/
            (TFM_PARTITION_MEASURED_BOOT = true /\
             row = mk_policy TFM_SP_MEASURED_BOOT TLV_MAJOR_MBS) \/
            (TFM_PARTITION_DPE = true /\
             row = mk_policy TFM_SP_DPE TLV_MAJOR_MBS)).
  { intros row. subst rows.
    destruct TFM_PARTITION_INITIAL_ATTESTATION, TFM_PARTITION_FIRMWARE_UPDATE,
      TFM_PARTITION_MEASURED_BOOT, TFM_PARTITION_DPE; simpl;
      intuition (try discriminate; auto). }
  destruct (policy_scan_spec (running_partition_id st) major rows)
    as [[E (row & Hin & Hp & Hm)]|[E Hno]]; rewrite E.
  - split; [left; reflexivity|]. split; [intros _|reflexivity].
    apply Hrows in Hin.
    destruct Hin as [[H ->]|[[H ->]|[[H ->]|[H ->]]]]; simpl in Hp, Hm; auto 10.
  - split; [right; reflexivity|]. split; [discriminate|].
    intros H. exfalso.
    destruct H as [(H & Hp & Hm)|[(H & Hp & Hm)|[(H & Hp & Hm)|(H & Hp & Hm)]]].
    + apply (Hno (mk_policy TFM_SP_INITIAL_ATTESTATION TLV_MAJOR_IAS));
        [apply Hrows; auto | simpl; auto].
    + apply (Hno (mk_policy TFM_SP_FWU TLV_MAJOR_FWU));
        [apply Hrows; auto | simpl; auto].
    + apply (Hno (mk_policy TFM_SP_MEASURED_BOOT TLV_MAJOR_MBS));
        [apply Hrows; auto | simpl; auto].
    + apply (Hno (mk_policy TFM_SP_DPE TLV_MAJOR_MBS));
        [apply Hrows; auto 10 | simpl; auto].
Qed.

(** X24.  When the memory check of the buffer fails, or the shared data has
    not been found valid, or the access check denies the major type, or the
    buffer is shorter than the header, the handler stores
    [PSA_ERROR_INVALID_ARGUMENT] in [args[0]] and has written nothing to the
    buffer. *)
Theorem handler_rejects_before_writing (fuel : nat) (a0 a1 a2 : Z)
    (st : boot_state) :
  tfm_hal_memory_check (boundary st) a1 (uint16 a2) TFM_HAL_ACCESS_READWRITE
  <> PSA_SUCCESS \/
  is_boot_data_valid st <> BOOT_DATA_VALID \/
  tfm_core_check_boot_data_access_policy (uint8 a0) st <> 0 \/
  uint16 a2 < SHARED_DATA_HEADER_SIZE ->
  tfm_core_get_boot_data_handler fuel a0 a1 a2 st
  = Some (mk_reply (uint32 PSA_ERROR_INVALID_ARGUMENT) [] None).
Proof.
  intros H. unfold tfm_core_get_boot_data_handler, failed.
  destruct (Z.eqb_spec (tfm_hal_memory_check (boundary st) a1 (uint16 a2)
                          TFM_HAL_ACCESS_READWRITE) PSA_SUCCESS) as [E1|E1];
    [|reflexivity].
  destruct (Z.eqb_spec (is_boot_data_valid st) BOOT_DATA_VALID) as [E2|E2];
    [|reflexivity].
  destruct (Z.eqb_spec (tfm_core_check_boot_data_access_policy (uint8 a0) st) 0)
    as [E3|E3]; [|reflexivity].
  destruct (Z.ltb_spec (uint16 a2) SHARED_DATA_HEADER_SIZE) as [E4|E4];
    [reflexivity|].
  cbn [negb]. exfalso. destruct H as [H|[H|[H|H]]]; [auto..|lia].
Qed.

Lemma uint16_range (x : Z) : 0 <= uint16 x < 2 ^ 16.
Proof. unfold uint16, wrap. apply Z.mod_pos_bound. lia. Qed.

Lemma size_t_small (x : Z) : 0 <= x < 2 ^ SIZE_T_BITS -> size_t x = x.
Proof. intros H. unfold size_t, wrap. apply Z.mod_small. exact H. Qed.

Lemma uintptr_small (x : Z) : 0 <= x < 2 ^ UINTPTR_BITS -> uintptr_t x = x.
Proof. intros H. unfold uintptr_t, wrap. apply Z.mod_small. exact H. Qed.

Lemma pow_18_le : 18 <= SIZE_T_BITS -> 2 ^ 18 <= 2 ^ SIZE_T_BITS.
Proof. intros H. apply Z.pow_le_mono_r; lia. Qed.

Lemma next_range (st : boot_state) (a : Z) :
  layout_fits -> lengths_fit st ->
  size_t (SHARED_DATA_ENTRY_HEADER_SIZE + snd (tlv_entry_at st a))
  = SHARED_DATA_ENTRY_HEADER_SIZE + snd (tlv_entry_at st a) /\
  SHARED_DATA_ENTRY_HEADER_SIZE
  <= SHARED_DATA_ENTRY_HEADER_SIZE + snd (tlv_entry_at st a) < 2 ^ 17.
Proof.
  intros (H1 & H2 & H3 & H4) Hl. specialize (Hl a).
  pose proof (pow_18_le H4).
  split; [apply size_t_small|]; lia.
Qed.

Lemma copies_app (l1 l2 : list store) :
  copies (l1 ++ l2) = copies l1 ++ copies l2.
Proof.
  induction l1 as [|x l1 IH]; [reflexivity|].
  destruct x; simpl; rewrite ?IH; reflexivity.
Qed.

Lemma copied_app (l1 l2 : list store) :
  copied (l1 ++ l2) = copied l1 + copied l2.
Proof.
  unfold copied. rewrite copies_app, map_app.
  induction (map _ (copies l1)) as [|x l IH]; simpl; lia.
Qed.

Lemma contiguous_app (start : Z) (cs : list (Z * Z * Z)) (dst src len : Z) :
  contiguous start cs ->
  dst = start + fold_right Z.add 0 (map (fun c => snd c) cs) ->
  contiguous start (cs ++ [(dst, src, len)]).
Proof.
  revert start. induction cs as [|[[d s0] l] cs IH]; intros start Hc Hd; simpl.
  - simpl in Hd. split; [lia | exact I].
  - destruct Hc as [-> Hc]. split; [reflexivity|].
    apply IH; [exact Hc|]. simpl in Hd. lia.
Qed.

Lemma uint16_add_wrap (a b : Z) :
  0 <= b -> uint16 a + b < 2 ^ 16 + 2 ^ 17 ->
  uint16 (uint16 a + b) = uint16 (a + b).
Proof.
  intros _ _. unfold uint16, wrap. rewrite Zplus_mod_idemp_l. reflexivity.
Qed.

Lemma copy_loop_inv (fuel : nat) (tlv_major buf_start buf_size tlv_end : Z)
    (st : boot_state) :
  layout_fits -> lengths_fit st -> 0 <= buf_size < 2 ^ 16 ->
  SHARED_DATA_HEADER_SIZE <= buf_size ->
  forall (offset ptr tot : Z) (done : list store) (r : reply),
    loop_inv tlv_major buf_start buf_size st ptr tot done ->
    copy_loop fuel tlv_major buf_start buf_size tlv_end st offset ptr tot done
    = Some r ->
    exists tot',
      tot_len r = Some tot' /\
      loop_inv tlv_major buf_start buf_size st
               (buf_start + OFFSETOF_DATA + copied (stores r)) tot' (stores r).
Proof.
  intros Hlay Hlen Hbuf Hhdr.
  induction fuel as [|fuel IH]; intros offset ptr tot done r Hinv H;
    [discriminate|].
  cbn [copy_loop] in H.
  destruct (offset <? tlv_end).
  2: { injection H as <-. exists tot. split; [reflexivity|]. cbn [stores].
       rewrite <- (inv_ptr _ _ _ _ _ _ _ Hinv). exact Hinv. }
  destruct (next_range st offset Hlay Hlen) as [En Hn].
  set (next := SHARED_DATA_ENTRY_HEADER_SIZE + snd (tlv_entry_at st offset))
    in *.
  rewrite En in H.
  destruct (Z.eqb_spec (GET_MAJOR (fst (tlv_entry_at st offset))) tlv_major)
    as [Hmaj|Hmaj].
  2: { apply (IH _ _ _ _ _ Hinv H). }
  destruct Hlay as (L1 & L2 & L3 & L4). pose proof (pow_18_le L4) as Hp.
  pose proof (inv_ptr _ _ _ _ _ _ _ Hinv) as Eptr.
  pose proof (inv_copied _ _ _ _ _ _ _ Hinv) as Hc0.
  pose proof (inv_room _ _ _ _ _ _ _ Hinv) as Hroom.
  assert (Esum : size_t (ptr - buf_start + next) = ptr - buf_start + next)
    by (apply size_t_small; lia).
  rewrite Esum in H.
  destruct (Z.ltb_spec buf_size (ptr - buf_start + next)) as [Hov|Hfit].
  { injection H as <-. exists tot. split; [reflexivity|].
    unfold failed. cbn [stores]. rewrite <- Eptr. exact Hinv. }
  apply (IH _ _ _ _ _) in H; [exact H|].
  assert (Ecp : copied (done ++ [CopyEntry ptr offset next;
                                 AddTotLen buf_start next])
                = copied done + next)
    by (rewrite copied_app; unfold copied; simpl; lia).
  constructor.
  - apply Forall_app. split; [exact (inv_within _ _ _ _ _ _ _ Hinv)|].
    constructor; [simpl; lia|]. constructor; [simpl; lia|]. constructor.
  - rewrite Ecp. lia.
  - rewrite Ecp. lia.
  - rewrite Ecp. right. lia.
  - rewrite Ecp, (inv_tot _ _ _ _ _ _ _ Hinv).
    rewrite size_t_small.
    + rewrite uint16_add_wrap.
      * f_equal. lia.
      * lia.
      * pose proof (uint16_range (SHARED_DATA_HEADER_SIZE + copied done)). lia.
    + pose proof (uint16_range (SHARED_DATA_HEADER_SIZE + copied done)). lia.
  - rewrite copies_app. cbn [copies].
    apply contiguous_app; [exact (inv_contig _ _ _ _ _ _ _ Hinv)|].
    fold (copied done). lia.
  - rewrite copies_app. cbn [copies]. apply Forall_app.
    split; [exact (inv_major _ _ _ _ _ _ _ Hinv)|].
    constructor; [split; [exact Hmaj | reflexivity]|]. constructor.
Qed.

(** The handler past its four checks. *)
Lemma handler_inv (fuel : nat) (a0 a1 a2 : Z) (st : boot_state) (r : reply) :
  layout_fits -> lengths_fit st ->
  tfm_core_get_boot_data_handler fuel a0 a1 a2 st = Some r ->
  stores r = [] /\ tot_len r = None /\
  args0 r = uint32 PSA_ERROR_INVALID_ARGUMENT \/
  SHARED_DATA_HEADER_SIZE <= uint16 a2 /\
  exists tot',
    tot_len r = Some tot' /\
    loop_inv (uint8 a0) a1 (uint16 a2) st
             (a1 + OFFSETOF_DATA + copied (stores r)) tot' (stores r).
Proof.
  intros Hlay Hlen H. unfold tfm_core_get_boot_data_handler, failed in H.
  destruct (negb _); [injection H as <-; left; auto|].
  destruct (negb _); [injection H as <-; left; auto|].
  destruct (negb _); [injection H as <-; left; auto|].
  destruct (Z.ltb_spec (uint16 a2) SHARED_DATA_HEADER_SIZE) as [Hs|Hs];
    [injection H as <-; left; auto|].
  right. split; [exact Hs|].
  pose proof (uint16_range a2) as Hb.
  assert (E0 : uint16 SHARED_DATA_HEADER_SIZE = SHARED_DATA_HEADER_SIZE).
  { destruct Hlay as (L1 & _). unfold uint16, wrap. apply Z.mod_small. lia. }
  assert (Hinit : loop_inv (uint8 a0) a1 (uint16 a2) st (a1 + OFFSETOF_DATA)
                    SHARED_DATA_HEADER_SIZE
                    [StoreHeader a1 SHARED_DATA_TLV_INFO_MAGIC
                                 SHARED_DATA_HEADER_SIZE]).
  { constructor; unfold copied; cbn [copies map fold_right].
    - constructor; [simpl; lia|]. constructor.
    - lia.
    - lia.
    - left. reflexivity.
    - rewrite Z.add_0_r. symmetry. exact E0.
    - exact I.
    - constructor. }
  destruct BOOT_DATA_AVAILABLE.
  - apply (copy_loop_inv fuel _ _ _ _ st Hlay Hlen Hb Hs _ _ _ _ _ Hinit H).
  - injection H as <-. exists SHARED_DATA_HEADER_SIZE.
    split; [reflexivity|]. cbn [stores].
    replace (a1 + OFFSETOF_DATA + _) with (a1 + OFFSETOF_DATA)
      by (unfold copied; simpl; lia).
    exact Hinit.
Qed.

(** X25.  Whatever the shared area holds, every store of the handler lies
    within the caller's buffer, the [buf_size] bytes from [buf_start] on,
    also when the call ends with an error in the middle of the copy. *)
Theorem handler_stays_in_buffer (fuel : nat) (a0 a1 a2 : Z) (st : boot_state)
    (r : reply) :
  layout_fits -> lengths_fit st ->
  tfm_core_get_boot_data_handler fuel a0 a1 a2 st = Some r ->
  Forall (store_within a1 (a1 + uint16 a2)) (stores r).
Proof.
  intros Hlay Hlen H.
  destruct (handler_inv fuel a0 a1 a2 st r Hlay Hlen H)
    as [(E & _)|(_ & tot' & _ & Hinv)].
  - rewrite E. constructor.
  - exact (inv_within _ _ _ _ _ _ _ Hinv).
Qed.

(** X26.  Once the header has been written, the copies of the handler are
    whole entries of the major type asked for, each of the length of its
    header plus its [tlv_len], laid one after the other from the member
    [data] of the buffer on; and when [data] follows the header,
    [header.tlv_tot_len] of the buffer is the size of the header plus the
    bytes copied, which is no more than [buf_size]. *)
Theorem handler_fills_buffer_in_order (fuel : nat) (a0 a1 a2 : Z)
    (st : boot_state) (r : reply) (tot : Z) :
  layout_fits -> lengths_fit st ->
  tfm_core_get_boot_data_handler fuel a0 a1 a2 st = Some r ->
  tot_len r = Some tot ->
  contiguous (a1 + OFFSETOF_DATA) (copies (stores r)) /\
  Forall (fun c =>
            let '(_, src, len) := c in
            GET_MAJOR (fst (tlv_entry_at st src)) = uint8 a0 /\
            len = SHARED_DATA_ENTRY_HEADER_SIZE + snd (tlv_entry_at st src))
         (copies (stores r)) /\
  (SHARED_DATA_HEADER_SIZE <= OFFSETOF_DATA ->
   tot = SHARED_DATA_HEADER_SIZE + copied (stores r) /\ tot <= uint16 a2).
Proof.
  intros Hlay Hlen H Ht.
  destruct (handler_inv fuel a0 a1 a2 st r Hlay Hlen H)
    as [(_ & E & _)|(Hs & tot' & Et & Hinv)]; [congruence|].
  rewrite Et in Ht. injection Ht as ->.
  split; [exact (inv_contig _ _ _ _ _ _ _ Hinv)|].
  split; [exact (inv_major _ _ _ _ _ _ _ Hinv)|].
  intros Hoff.
  pose proof (inv_tot _ _ _ _ _ _ _ Hinv) as Etot.
  pose proof (inv_copied _ _ _ _ _ _ _ Hinv) as Hc0.
  pose proof (inv_room _ _ _ _ _ _ _ Hinv) as Hroom.
  pose proof (uint16_range a2) as Hb.
  destruct Hlay as (L1 & _).
  assert (Hle : SHARED_DATA_HEADER_SIZE + copied (stores r) <= uint16 a2)
    by lia.
  assert (Eu : uint16 (SHARED_DATA_HEADER_SIZE + copied (stores r))
               = SHARED_DATA_HEADER_SIZE + copied (stores r))
    by (unfold uint16 at 1, wrap; apply Z.mod_small; lia).
  rewrite Etot, Eu. split; [reflexivity | exact Hle].
Qed.

Lemma copy_loop_returns (tlv_major buf_start buf_size tlv_end : Z)
    (st : boot_state) :
  layout_fits -> lengths_fit st -> 1 <= SHARED_DATA_ENTRY_HEADER_SIZE ->
  tlv_end + 2 ^ 17 <= 2 ^ UINTPTR_BITS ->
  forall (fuel : nat) (offset ptr tot : Z) (done : list store),
    0 <= offset ->
    (Z.to_nat (tlv_end - offset) < fuel)%nat ->
    exists r,
      copy_loop fuel tlv_major buf_start buf_size tlv_end st offset ptr tot
                done = Some r.
Proof.
  intros Hlay Hlen Hpos Hend.
  induction fuel as [|fuel IH]; intros offset ptr tot done Ho Hf; [lia|].
  cbn [copy_loop].
  destruct (Z.ltb_spec offset tlv_end) as [Hlt|Hge]; [|eauto].
  destruct (next_range st offset Hlay Hlen) as [En Hn].
  rewrite En.
  set (next := SHARED_DATA_ENTRY_HEADER_SIZE + snd (tlv_entry_at st offset))
    in *.
  assert (Eo : uintptr_t (offset + next) = offset + next)
    by (apply uintptr_small; lia).
  rewrite Eo.
  destruct (GET_MAJOR _ =? tlv_major).
  - destruct (buf_size <? _); [eauto|]. apply IH; lia.
  - apply IH; lia.
Qed.

Lemma copy_loop_more_fuel (tlv_major buf_start buf_size tlv_end : Z)
    (st : boot_state) (fuel fuel' : nat) :
  (fuel <= fuel')%nat ->
  forall (offset ptr tot : Z) (done : list store) (r : reply),
    copy_loop fuel tlv_major buf_start buf_size tlv_end st offset ptr tot done
    = Some r ->
    copy_loop fuel' tlv_major buf_start buf_size tlv_end st offset ptr tot done
    = Some r.
Proof.
  revert fuel'. induction fuel as [|fuel IH]; intros fuel' Hle offset ptr tot
    done r H; [discriminate|].
  destruct fuel' as [|fuel']; [lia|].
  cbn [copy_loop] in *.
  destruct (offset <? tlv_end); [|exact H].
  destruct (GET_MAJOR _ =? tlv_major).
  - destruct (buf_size <? _); [exact H|]. apply IH; [lia | exact H].
  - apply IH; [lia | exact H].
Qed.

(** X27.  The handler returns: when the shared area can be addressed without
    wrapping and an entry header takes at least one byte, the copy loop ends
    within as many turns as the area's [tlv_tot_len], and what the handler
    leaves does not depend on how many more turns it is allowed. *)
Theorem handler_returns (fuel : nat) (a0 a1 a2 : Z) (st : boot_state) :
  layout_fits -> lengths_fit st -> area_fits st ->
  1 <= SHARED_DATA_ENTRY_HEADER_SIZE ->
  (Z.to_nat (shared_tlv_tot_len st) < fuel)%nat ->
  exists r,
    tfm_core_get_boot_data_handler fuel a0 a1 a2 st = Some r /\
    forall fuel', (fuel <= fuel')%nat ->
      tfm_core_get_boot_data_handler fuel' a0 a1 a2 st = Some r.
Proof.
  intros Hlay Hlen (A1 & A2 & A3) Hpos Hf.
  assert (Hret : exists r,
            tfm_core_get_boot_data_handler fuel a0 a1 a2 st = Some r).
  { unfold tfm_core_get_boot_data_handler.
    destruct (negb _); [eauto|]. destruct (negb _); [eauto|].
    destruct (negb _); [eauto|]. destruct (_ <? _); [eauto|].
    destruct BOOT_DATA_AVAILABLE; [|eauto].
    pose proof Hlay as (L1 & L2 & L3 & L4).
    assert (Ee : uintptr_t (SHARED_BOOT_MEASUREMENT_BASE
                            + shared_tlv_tot_len st)
                 = SHARED_BOOT_MEASUREMENT_BASE + shared_tlv_tot_len st)
      by (apply uintptr_small; lia).
    rewrite Ee.
    apply copy_loop_returns; try assumption; try lia.
    - unfold uintptr_t, wrap. apply Z.mod_pos_bound. lia.
    - rewrite uintptr_small by lia. lia. }
  destruct Hret as [r Hr]. exists r. split; [exact Hr|].
  intros fuel' Hle. revert Hr. unfold tfm_core_get_boot_data_handler.
  destruct (negb _); [auto|]. destruct (negb _); [auto|].
  destruct (negb _); [auto|]. destruct (_ <? _); [auto|].
  destruct BOOT_DATA_AVAILABLE; [|auto].
  apply copy_loop_more_fuel. exact Hle.
Qed.

(** X28.  [tfm_core_validate_boot_data] writes the flag only: it leaves it
    valid when it was, sets it valid exactly when shared data is not built
    in or the magic of the shared area is the expected one, and is
    idempotent; so from a state that is not valid, with shared data built in
    and another magic, the handler still rejects every query after it. *)
Theorem validation_gates_queries (st : boot_state) :
  running_partition_id (tfm_core_validate_boot_data st)
  = running_partition_id st /\
  boundary (tfm_core_validate_boot_data st) = boundary st /\
  shared_tlv_magic (tfm_core_validate_boot_data st) = shared_tlv_magic st /\
  shared_tlv_tot_len (tfm_core_validate_boot_data st)
  = shared_tlv_tot_len st /\
  tlv_entry_at (tfm_core_validate_boot_data st) = tlv_entry_at st /\
  (is_boot_data_valid (tfm_core_validate_boot_data st) = BOOT_DATA_VALID <->
   is_boot_data_valid st = BOOT_DATA_VALID \/
   BOOT_DATA_AVAILABLE = false \/
   shared_tlv_magic st = SHARED_DATA_TLV_INFO_MAGIC) /\
  tfm_core_validate_boot_data (tfm_core_validate_boot_data st)
  = tfm_core_validate_boot_data st /\
  (is_boot_data_valid st <> BOOT_DATA_VALID ->
   BOOT_DATA_AVAILABLE = true ->
   shared_tlv_magic st <> SHARED_DATA_TLV_INFO_MAGIC ->
   forall fuel a0 a1 a2,
     tfm_core_get_boot_data_handler fuel a0 a1 a2
                                    (tfm_core_validate_boot_data st)
     = Some (mk_reply (uint32 PSA_ERROR_INVALID_ARGUMENT) [] None)).
Proof.
  unfold tfm_core_validate_boot_data.
  destruct BOOT_DATA_AVAILABLE eqn:Hav.
  - destruct (Z.eqb_spec (shared_tlv_magic st) SHARED_DATA_TLV_INFO_MAGIC)
      as [Hm|Hm].
    + cbn [set_valid running_partition_id boundary shared_tlv_magic
           shared_tlv_tot_len tlv_entry_at is_boot_data_valid].
      rewrite Hm, Z.eqb_refl.
      repeat (split; [reflexivity|]).
      split; [split; auto|]. split; [reflexivity|]. intros _ _ H.
      contradiction.
    + destruct (Z.eqb_spec (shared_tlv_magic st) SHARED_DATA_TLV_INFO_MAGIC);
        [contradiction|].
      repeat (split; [reflexivity|]).
      split; [split; [auto | intros [H|[H|H]]; [exact H|discriminate|
                                               contradiction]]|].
      split; [reflexivity|]. intros Hv _ _ fuel a0 a1 a2.
      unfold tfm_core_get_boot_data_handler, failed.
      destruct (negb _); [reflexivity|].
      destruct (Z.eqb_spec (is_boot_data_valid st) BOOT_DATA_VALID);
        [contradiction | reflexivity].
  - cbn [set_valid running_partition_id boundary shared_tlv_magic
         shared_tlv_tot_len tlv_entry_at is_boot_data_valid].
    repeat (split; [reflexivity|]).
    split; [split; auto|]. split; [reflexivity|]. intros _ H. discriminate.
Qed.

End Props.

(** *** On the concrete build *)

Import DemoBoot Demo.

Lemma demo_layout_fits : layout_fits.
Proof. unfold layout_fits. cbn. lia. Qed.

Lemma demo_lengths_fit : lengths_fit warm.
Proof.
  intros a. cbn. unfold entries.
  repeat (destruct (a =? _); [cbn; lia|]). cbn. lia.
Qed.

Lemma handler_rejects_before_writing_witness :
  tfm_core_get_boot_data_handler 41 1 536870912 64 cold
  = Some (mk_reply (uint32 PSA_ERROR_INVALID_ARGUMENT) [] None).
Proof.
  apply (handler_rejects_before_writing 41 1 536870912 64 cold).
  right. left. vm_compute. discriminate.
Defined.

Lemma handler_stays_in_buffer_witness :
  Forall (store_within 536870912 (536870912 + uint16 64)) (stores answer).
Proof.
  apply (handler_stays_in_buffer 41 1 536870912 64 warm answer).
  - exact demo_layout_fits.
  - exact demo_lengths_fit.
  - vm_compute. reflexivity.
Defined.

Lemma handler_fills_buffer_in_order_witness :
  contiguous (536870912 + OFFSETOF_DATA) (copies (stores answer)) /\
  Forall (fun c =>
            let '(_, src, len) := c in
            GET_MAJOR (fst (tlv_entry_at warm src)) = uint8 1 /\
            len = SHARED_DATA_ENTRY_HEADER_SIZE + snd (tlv_entry_at warm src))
         (copies (stores answer)) /\
  (SHARED_DATA_HEADER_SIZE <= OFFSETOF_DATA ->
   32 = SHARED_DATA_HEADER_SIZE + copied (stores answer) /\ 32 <= uint16 64).
Proof.
  apply (handler_fills_buffer_in_order 41 1 536870912 64 warm answer 32).
  - exact demo_layout_fits.
  - exact demo_lengths_fit.
  - vm_compute. reflexivity.
  - reflexivity.
Defined.

Lemma handler_returns_witness :
  exists r,
    tfm_core_get_boot_data_handler 41 1 536870912 64 warm = Some r /\
    forall fuel', (41 <= fuel')%nat ->
      tfm_core_get_boot_data_handler fuel' 1 536870912 64 warm = Some r.
Proof.
  apply (handler_returns 41 1 536870912 64 warm).
  - exact demo_layout_fits.
  - exact demo_lengths_fit.
  - unfold area_fits. cbn. lia.
  - cbn. lia.
  - vm_compute. lia.
Defined.

End BootProps.
